(** * Selective table sync of [health_data_importer.py]

    A shallow embedding of the per-table synchronisation ([sync_table]), of
    the schema mapping ([get_create_table_query]) and of the driver loop of
    [main], followed by the properties the specification states about them.

    Conventions of the embedding:
    - a Python [str] is a [string]; [str.upper] is a builtin and is taken as
      a parameter [upper] (an ASCII instance [ascii_upper] is provided);
    - a row is a [list value]; [value] is the domain of Python scalars up to
      Python equality, so that a Python [set] of them is a [gset value];
    - the two cursors are interfaces ([SourceStore], [DestStore]) whose
      calls may raise; every call is recorded, with its reply, as an [event];
    - [log] is the one-way sink of the program: it appends a structured
      message ([log_msg], one constructor per f-string of the source). The
      first part of the development takes every call of [log] to return;
      module [Fallible] is the program with a [log] and a [print] that can
      raise, and [sync_table_agrees] and [fallible_main_agrees] show that
      its runs in which none of them raised are the runs of the first
      part. *)

From Stdlib Require Import String Ascii.
From stdpp Require Import base list strings gmap.

Set Default Proof Using "Type*".

Local Open Scope string_scope.
Local Open Scope nat_scope.
Local Open Scope list_scope.

(** ** Strings *)

(** The character [chr 34], written inside the f-strings of the source. *)
Definition dquote : string := String (ascii_of_nat 34) EmptyString.

(** [f'"{s}"'] *)
Definition quoted (s : string) : string := dquote +:+ s +:+ dquote.

(** [s.startswith(p)] *)
Definition startswith (s p : string) : bool := String.prefix p s.

(** [sep.join(l)] *)
Definition join (sep : string) (l : list string) : string := String.concat sep l.

Definition ascii_upper_char (c : ascii) : ascii :=
  let n := nat_of_ascii c in
  if (97 <=? n)%nat && (n <=? 122)%nat then ascii_of_nat (n - 32) else c.

(** [str.upper] on ASCII text: the letters a-z are mapped to A-Z. *)
Fixpoint ascii_upper (s : string) : string :=
  match s with
  | EmptyString => EmptyString
  | String c s' => String (ascii_upper_char c) (ascii_upper s')
  end.

(** ** Schema mapper: [get_create_table_query], lines 83-107 *)

(** A row of [PRAGMA table_info]: [col[1]] is the name, [col[2]] the declared
    type (the source guards against [None] with [col[2] or ""]). *)
Record column := Column { col_name : string; col_type : option string }.

(** The destination types of the specification and what the source writes
    for them. *)
Definition TEXT : string := "TEXT".
Definition BIGINT : string := "BIGINT".
Definition DOUBLE : string := "DOUBLE PRECISION".
Definition BINARY : string := "BYTEA".

Section SchemaMapper.
Variable upper : string → string.

(** Lines 90-101: the [if]/[elif] chain computing [mapped]. *)
Definition mapped_type (declared : option string) : string :=
  let col_type := upper (default EmptyString declared) in
  if decide (col_type = EmptyString) then TEXT
  else if startswith col_type "INT" then BIGINT
  else if startswith col_type "REAL" then DOUBLE
  else if startswith col_type "BLOB" then BINARY
  else TEXT.

(** Line 103: [f'"{col_name}" {mapped}']. *)
Definition col_def (col : column) : string :=
  quoted (col_name col) +:+ " " +:+ mapped_type (col_type col).

(** Line 105. *)
Definition create_sql (table : string) (columns : list column) : string :=
  "CREATE TABLE IF NOT EXISTS " +:+ quoted table +:+ " (" +:+
  join ", " (col_def <$> columns) +:+ ");".

(** Line 106. *)
Definition column_names_of (columns : list column) : list string :=
  col_name <$> columns.
End SchemaMapper.

(** ** Dedup key selector: lines 131-135 of [sync_table] *)

(** The [for]/[break] loop over the candidates: the first candidate that is
    among the column names, [None] when the loop ends without a [break]. *)
Fixpoint first_present (candidates column_names : list string) : option string :=
  match candidates with
  | [] => None
  | col :: rest =>
      if bool_decide (col ∈ column_names) then Some col
      else first_present rest column_names
  end.

Definition dedup_candidates : list string := ["row_id"; "local_date_time"; "time"].

Definition select_dedup_col (column_names : list string) : option string :=
  first_present dedup_candidates column_names.

(** [column_names.index(x)]: the first position of [x]; Python raises
    [ValueError] where this returns [None]. *)
Fixpoint list_index (x : string) (l : list string) : option nat :=
  match l with
  | [] => None
  | y :: l' => if decide (x = y) then Some 0 else S <$> list_index x l'
  end.

(** ** Exceptions and results *)

(** [IndexError] of [row[idx]], [ValueError] of [list.index], the exception
    of a call on a store, and [OSError], which the file operations of [log]
    raise. *)
Inductive exn : Type :=
  | IndexError
  | ValueError
  | StoreError (detail : string)
  | OSError (detail : string).

Inductive result (A : Type) : Type :=
  | Ok (a : A)
  | Raise (e : exn).
Arguments Ok {A} a.
Arguments Raise {A} e.

(** ** The two stores as interfaces *)

(** What the program asks of the SQLite cursor. *)
Class SourceStore (value S : Type) := {
  (** [execute(f"PRAGMA table_info({table})")] and [fetchall()] *)
  src_table_info : string → S → result (list column) * S;
  (** [execute(f"SELECT * FROM {table}")] and [fetchall()] *)
  src_select_all : string → S → result (list (list value)) * S;
}.

(** What the program asks of the PostgreSQL cursor and connection. *)
Class DestStore (value D : Type) := {
  (** [pg_cursor.execute(create_query)] *)
  pg_execute : string → D → result unit * D;
  (** [pg_conn.commit()] *)
  pg_commit : D → result unit * D;
  (** [SELECT dedup_col FROM table] and [{row[0] for row in fetchall()}]:
      the values of the column, or the exception of either step *)
  pg_select_column : string → string → D → result (list value) * D;
  (** [pg_cursor.executemany(insert_query, valid_rows)] *)
  pg_executemany : string → list (list value) → D → result unit * D;
  (** [pg_conn.rollback()] *)
  pg_rollback : D → result unit * D;
}.

(** ** Log lines and events *)

(** One constructor per f-string passed to [log] in [sync_table] and in the
    loop of [main], carrying the values the f-string interpolates. *)
Inductive log_msg (value : Type) : Type :=
  | MsgSkipping (table : string)
  | MsgEnsuring (table : string)
  | MsgErrorCreating (table : string) (e : exn)
  | MsgFetchFailed (table : string) (e : exn)
  | MsgWarnExistingKeys (table : string) (e : exn)
  | MsgRowSkipped (i : nat) (table : string) (expected got : nat)
  | MsgSkippedData (row : list value)
  | MsgInserted (n : nat) (table : string)
  | MsgInsertError (table : string) (e : exn)
  | MsgSampleRow (row : list value)
  | MsgNoValidRows (table : string)
  | MsgRowsSkipped (n : nat) (table : string)
  | MsgNoNewRows (table : string)
  | MsgAlreadyExisted (n : nat) (table : string)
  | MsgUnhandled (table : string) (e : exn).
Arguments MsgSkipping {value}.
Arguments MsgEnsuring {value}.
Arguments MsgErrorCreating {value}.
Arguments MsgFetchFailed {value}.
Arguments MsgWarnExistingKeys {value}.
Arguments MsgRowSkipped {value}.
Arguments MsgSkippedData {value}.
Arguments MsgInserted {value}.
Arguments MsgInsertError {value}.
Arguments MsgSampleRow {value}.
Arguments MsgNoValidRows {value}.
Arguments MsgRowsSkipped {value}.
Arguments MsgNoNewRows {value}.
Arguments MsgAlreadyExisted {value}.
Arguments MsgUnhandled {value}.

(** What the program did, in order: each call on a store with its reply,
    and each log line. *)
Inductive event (value : Type) : Type :=
  | EvTableInfo (table : string) (r : result (list column))
  | EvSelectAll (table : string) (r : result (list (list value)))
  | EvExecute (query : string) (r : result unit)
  | EvCommit (r : result unit)
  | EvSelectColumn (col table : string) (r : result (list value))
  | EvExecuteMany (query : string) (rows : list (list value)) (r : result unit)
  | EvRollback (r : result unit)
  | EvLog (m : log_msg value).
Arguments EvTableInfo {value}.
Arguments EvSelectAll {value}.
Arguments EvExecute {value}.
Arguments EvCommit {value}.
Arguments EvSelectColumn {value}.
Arguments EvExecuteMany {value}.
Arguments EvRollback {value}.
Arguments EvLog {value}.

(** A call on either store (anything but a log line). *)
Definition is_store_op {value} (ev : event value) : bool :=
  match ev with EvLog _ => false | _ => true end.

(** An insert statement sent to the destination. *)
Definition is_insert {value} (ev : event value) : bool :=
  match ev with EvExecuteMany _ _ _ => true | _ => false end.

(** A query for the existing keys of the destination. *)
Definition is_key_query {value} (ev : event value) : bool :=
  match ev with EvSelectColumn _ _ _ => true | _ => false end.

(** A log line that reports an error (the warning of the key query is not
    one). *)
Definition is_error_msg {value} (m : log_msg value) : bool :=
  match m with
  | MsgErrorCreating _ _ | MsgFetchFailed _ _
  | MsgInsertError _ _ | MsgUnhandled _ _ => true
  | _ => false
  end.

Definition is_error_event {value} (ev : event value) : bool :=
  match ev with EvLog m => is_error_msg m | _ => false end.

(** The inserted count a run reports: the sum of the [n] of its
    ["Inserted {n} new rows"] lines. *)
Definition inserted_count {value} (evs : list (event value)) : nat :=
  sum_list (omap (λ ev, match ev with EvLog (MsgInserted n _) => Some n | _ => None end) evs).

(** The already-present counts a run reports, one per
    ["{n} rows already existed"] line. *)
Definition already_present_reports {value} (evs : list (event value)) : list nat :=
  omap (λ ev, match ev with EvLog (MsgAlreadyExisted n _) => Some n | _ => None end) evs.

(** ** The program monad: store states, exceptions and the event trace *)

Section Sync.
Context {value : Type} `{Countable value}.
Context {S D : Type} `{!SourceStore value S} `{!DestStore value D}.
Variable upper : string → string.

Abbreviation row := (list value).

(** The SQLite cursor and the PostgreSQL cursor/connection. *)
Record stores := Stores { sqlite : S; pg : D }.

(** A computation returns or raises, leaves the stores in a new state and
    emits events; the effects made before an exception are kept. *)
Definition M (A : Type) : Type := stores → result A * stores * list (event value).

Definition ret {A} (a : A) : M A := λ s, (Ok a, s, []).

Definition bind {A B} (m : M A) (k : A → M B) : M B := λ s,
  match m s with
  | (Ok a, s1, evs1) => let '(r, s2, evs2) := k a s1 in (r, s2, evs1 ++ evs2)
  | (Raise e, s1, evs1) => (Raise e, s1, evs1)
  end.

Definition raise {A} (e : exn) : M A := λ s, (Raise e, s, []).

(** [try: body  except Exception as e: handler e] *)
Definition try_except {A} (body : M A) (handler : exn → M A) : M A := λ s,
  match body s with
  | (Ok a, s1, evs1) => (Ok a, s1, evs1)
  | (Raise e, s1, evs1) => let '(r, s2, evs2) := handler e s1 in (r, s2, evs1 ++ evs2)
  end.

(** A pure step that may raise. *)
Definition lift {A} (r : result A) : M A := λ s, (r, s, []).

#[global] Instance M_ret : MRet M := @ret.
#[global] Instance M_bind : MBind M := λ A B k m, bind m k.

(** [log(message)], lines 33-48, when the call returns: the line is
    recorded. The calls of [log] that raise are those of [Fallible.log]. *)
Definition log (m : log_msg value) : M unit := λ s, (Ok tt, s, [EvLog m]).

(** The calls on the cursors. *)
Definition sqlite_table_info (table : string) : M (list column) := λ s,
  let '(r, db) := src_table_info table (sqlite s) in
  (r, Stores db (pg s), [EvTableInfo table r]).

Definition sqlite_select_all (table : string) : M (list row) := λ s,
  let '(r, db) := src_select_all table (sqlite s) in
  (r, Stores db (pg s), [EvSelectAll table r]).

Definition pg_cursor_execute (query : string) : M unit := λ s,
  let '(r, db) := pg_execute (value:=value) query (pg s) in
  (r, Stores (sqlite s) db, [EvExecute query r]).

Definition pg_conn_commit : M unit := λ s,
  let '(r, db) := pg_commit (value:=value) (pg s) in
  (r, Stores (sqlite s) db, [EvCommit r]).

Definition pg_select_keys (col table : string) : M (list value) := λ s,
  let '(r, db) := pg_select_column col table (pg s) in
  (r, Stores (sqlite s) db, [EvSelectColumn col table r]).

Definition pg_cursor_executemany (query : string) (rows : list row) : M unit := λ s,
  let '(r, db) := pg_executemany query rows (pg s) in
  (r, Stores (sqlite s) db, [EvExecuteMany query rows r]).

Definition pg_conn_rollback : M unit := λ s,
  let '(r, db) := pg_rollback (value:=value) (pg s) in
  (r, Stores (sqlite s) db, [EvRollback r]).

(** ** [get_create_table_query], lines 83-107 *)
Definition get_create_table_query (table : string) : M (string * list string) :=
  columns ← sqlite_table_info table;
  ret (create_sql upper table columns, column_names_of columns).

(** ** [sync_table], lines 110-194 *)

(** Lines 115-122: the first [try]; [None] stands for the [return] of its
    [except] branch. *)
Definition ensure_table (table : string) : M (option (list string)) :=
  try_except
    ('(create_query, column_names) ← get_create_table_query table;
     log (MsgEnsuring table);;
     pg_cursor_execute create_query;;
     pg_conn_commit;;
     ret (Some column_names))
    (λ e, log (MsgErrorCreating table e);; ret None).

(** Lines 124-129: the second [try]; [None] is again the [return]. *)
Definition fetch_rows (table : string) : M (option (list row)) :=
  try_except
    (rows ← sqlite_select_all table; ret (Some rows))
    (λ e, log (MsgFetchFailed table e);; ret None).

(** Lines 137-147: [existing_keys]. *)
Definition fetch_existing_keys (table : string) (dedup_col : option string)
    : M (gset value) :=
  match dedup_col with
  | Some col =>
      try_except
        (keys ← pg_select_keys col table; ret (list_to_set keys))
        (λ e, log (MsgWarnExistingKeys table e);; ret ∅)
  | None => ret ∅
  end.

(** Lines 153-158: the body of the loop over [rows], on the pair
    [(new_rows, already_present)]. [row[idx]] raises [IndexError] when the
    row has no position [idx]. *)
Definition partition_step (column_names : list string) (dedup_col : option string)
    (existing_keys : gset value) (acc : list row * nat) (r : row)
    : result (list row * nat) :=
  let '(new_rows, already_present) := acc in
  match dedup_col with
  | Some col =>
      match list_index col column_names with
      | None => Raise ValueError
      | Some idx =>
          match r !! idx with
          | None => Raise IndexError
          | Some v =>
              if bool_decide (v ∈ existing_keys)
              then Ok (new_rows, already_present + 1)
              else Ok (new_rows ++ [r], already_present)
          end
      end
  | None => Ok (new_rows ++ [r], already_present)
  end.

(** Lines 152-158: the loop. *)
Fixpoint partition_loop (column_names : list string) (dedup_col : option string)
    (existing_keys : gset value) (rows : list row) (acc : list row * nat)
    : result (list row * nat) :=
  match rows with
  | [] => Ok acc
  | r :: rest =>
      match partition_step column_names dedup_col existing_keys acc r with
      | Ok acc' => partition_loop column_names dedup_col existing_keys rest acc'
      | Raise e => Raise e
      end
  end.

(** Lines 149-158. *)
Definition partition_rows (column_names : list string) (dedup_col : option string)
    (existing_keys : gset value) (rows : list row) : result (list row * nat) :=
  partition_loop column_names dedup_col existing_keys rows ([], 0).

(** Lines 161-163. *)
Definition insert_query (table : string) (column_names : list string) : string :=
  let column_list := join ", " (quoted <$> column_names) in
  let placeholders := join ", " (replicate (length column_names) "%s") in
  "INSERT INTO " +:+ quoted table +:+ " (" +:+ column_list +:+ ") VALUES (" +:+
  placeholders +:+ ")".

(** Lines 168-174: the loop over [enumerate(new_rows)], from index [i], on
    the accumulators [valid_rows] and [skipped_rows]. *)
Fixpoint validate_loop (table : string) (column_names : list string) (i : nat)
    (new_rows : list row) (valid_rows : list row) (skipped_rows : nat)
    : M (list row * nat) :=
  match new_rows with
  | [] => ret (valid_rows, skipped_rows)
  | r :: rest =>
      if bool_decide (length r < length column_names) then
        log (MsgRowSkipped i table (length column_names) (length r));;
        log (MsgSkippedData r);;
        validate_loop table column_names (i + 1) rest valid_rows (skipped_rows + 1)
      else
        validate_loop table column_names (i + 1) rest
          (valid_rows ++ [take (length column_names) r]) skipped_rows
  end.

(** Lines 176-187. *)
Definition insert_valid_rows (table : string) (column_names : list string)
    (valid_rows : list row) : M unit :=
  match valid_rows with
  | sample :: _ =>
      try_except
        (pg_cursor_executemany (insert_query table column_names) valid_rows;;
         pg_conn_commit;;
         log (MsgInserted (length valid_rows) table))
        (λ e, pg_conn_rollback;;
              log (MsgInsertError table e);;
              log (MsgSampleRow sample))
  | [] => log (MsgNoValidRows table)
  end.

(** Lines 160-192. *)
Definition insert_new_rows (table : string) (column_names : list string)
    (new_rows : list row) : M unit :=
  match new_rows with
  | _ :: _ =>
      '(valid_rows, skipped_rows) ← validate_loop table column_names 0 new_rows [] 0;
      insert_valid_rows table column_names valid_rows;;
      if bool_decide (skipped_rows ≠ 0) then log (MsgRowsSkipped skipped_rows table)
      else ret tt
  | [] => log (MsgNoNewRows table)
  end.

(** Lines 149-194: what [sync_table] does with the rows it has read. *)
Definition sync_rows (table : string) (column_names : list string)
    (dedup_col : option string) (existing_keys : gset value) (rows : list row)
    : M unit :=
  '(new_rows, already_present) ←
    lift (partition_rows column_names dedup_col existing_keys rows);
  insert_new_rows table column_names new_rows;;
  log (MsgAlreadyExisted already_present table).

Definition sync_table (table : string) (tables_to_import : gset string) : M unit :=
  if bool_decide (table ∉ tables_to_import) then log (MsgSkipping table)
  else
    created ← ensure_table table;
    match created with
    | None => ret tt
    | Some column_names =>
        fetched ← fetch_rows table;
        match fetched with
        | None => ret tt
        | Some rows =>
            let dedup_col := select_dedup_col column_names in
            existing_keys ← fetch_existing_keys table dedup_col;
            sync_rows table column_names dedup_col existing_keys rows
        end
    end.

(** ** The loop of [main], lines 223-227 *)
Fixpoint sync_all (all_tables : list string) (tables_to_import : gset string)
    : M unit :=
  match all_tables with
  | [] => ret tt
  | table :: rest =>
      try_except (sync_table table tables_to_import)
                 (λ e, log (MsgUnhandled table e));;
      sync_all rest tables_to_import
  end.

End Sync.


Arguments stores : clear implicits.
Arguments Stores {S D} sqlite pg.
Arguments M : clear implicits.

(** ** Two small concrete stores

    Used to run the program on concrete tables. The values are integers. *)

(** A source database: every table with its [table_info] and its rows. *)
Definition demo_sqlite : Type := list (string * (list column * list (list Z))).

Fixpoint demo_lookup (table : string) (db : demo_sqlite)
    : option (list column * list (list Z)) :=
  match db with
  | [] => None
  | (name, content) :: db' =>
      if decide (name = table) then Some content else demo_lookup table db'
  end.

(** [PRAGMA table_info] of an unknown table has no rows; [SELECT] from an
    unknown table raises. *)
#[global] Instance demo_source : SourceStore Z demo_sqlite := {|
  src_table_info table db :=
    (Ok (from_option fst [] (demo_lookup table db)), db);
  src_select_all table db :=
    (match demo_lookup table db with
     | Some (_, rows) => Ok rows
     | None => Raise (StoreError "no such table")
     end, db);
|}.

(** A destination that answers the key query with [demo_keys], accepts or
    refuses inserts according to [demo_accepts], and keeps the batches it
    accepted. *)
Record demo_pg : Type := DemoPg {
  demo_keys : result (list Z);
  demo_accepts : bool;
  demo_batches : list (list (list Z));
}.

#[global] Instance demo_dest : DestStore Z demo_pg := {|
  pg_execute _ db := (Ok tt, db);
  pg_commit db := (Ok tt, db);
  pg_select_column _ _ db := (demo_keys db, db);
  pg_executemany _ rows db :=
    if demo_accepts db
    then (Ok tt, DemoPg (demo_keys db) true (demo_batches db ++ [rows]))
    else (Raise (StoreError "insert refused"), db);
  pg_rollback db := (Ok tt, db);
|}.

(** The tables the source selects by default, lines 23-30. *)
Definition DEFAULT_TABLES : gset string :=
  {[ "steps_record_table"; "body_fat_record_table"; "weight_record_table";
     "speed_record_table"; "sleep_session_record_table"; "distance_record_table" ]}.

(** A call that reads a store: the column introspection and the row read of
    the source, the key query of the destination. *)
Definition is_read_op {value} (ev : event value) : bool :=
  match ev with
  | EvTableInfo _ _ | EvSelectAll _ _ | EvSelectColumn _ _ _ => true
  | _ => false
  end.

(** The two lines logged for a skipped row, lines 171-172. *)
Definition is_skip_log {value} (ev : event value) : bool :=
  match ev with
  | EvLog (MsgRowSkipped _ _ _ _) | EvLog (MsgSkippedData _) => true
  | _ => false
  end.

(** The number of key queries among the events of a run. *)
Definition key_query_count {value} (evs : list (event value)) : nat :=
  length (filter (λ ev, is_key_query ev) evs).

(** A source table whose second row has a single value, although the table
    has two columns and the dedup column [time] is the second one. *)
Definition short_row_table : list column * list (list Z) :=
  ([Column "count" (Some "INTEGER"); Column "time" (Some "INTEGER")],
   [[5; 100]; [7]]%Z).

Definition short_row_db : demo_sqlite :=
  [("steps_record_table", short_row_table);
   ("weight_record_table",
    ([Column "row_id" (Some "INTEGER"); Column "weight" (Some "REAL")],
     [[1; 70]; [2; 71]]%Z))].

(** An empty destination that accepts everything. *)
Definition empty_pg : demo_pg := DemoPg (Ok []) true [].

(** ** The specification's view of the two row passes

    Written from the specification (sections 4.4 and 4.5), to be compared
    with the loops of the source. *)

Section SpecView.
Context {value : Type} `{Countable value}.
Implicit Types (r : list value) (rows : list (list value)).

(** The row has a value at position [idx] and that value is an existing key. *)
Definition key_present (idx : nat) (existing_keys : gset value) r : bool :=
  match r !! idx with
  | Some v => bool_decide (v ∈ existing_keys)
  | None => false
  end.

(** The rows whose dedup value is not an existing key, in source order. *)
Definition spec_new_rows (idx : nat) (existing_keys : gset value) rows
    : list (list value) :=
  filter (λ r, ¬ key_present idx existing_keys r) rows.

(** The number of rows whose dedup value is an existing key. *)
Definition spec_already_present (idx : nat) (existing_keys : gset value) rows : nat :=
  length (filter (λ r, key_present idx existing_keys r) rows).

(** The rows with at least [n] values, each cut to its first [n] values. *)
Definition spec_valid_rows (n : nat) rows : list (list value) :=
  take n <$> filter (λ r, n ≤ length r) rows.

(** The number of rows with fewer than [n] values. *)
Definition spec_skipped_rows (n : nat) rows : nat :=
  length (filter (λ r, length r < n) rows).

End SpecView.

(** ** More measures on the events of a run *)

(** A rollback of the destination transaction. *)
Definition is_rollback {value} (ev : event value) : bool :=
  match ev with EvRollback _ => true | _ => false end.

(** The number of insert statements among the events of a run. *)
Definition insert_count {value} (evs : list (event value)) : nat :=
  length (filter (λ ev, is_insert ev) evs).

(** The number of rollbacks among the events of a run. *)
Definition rollback_count {value} (evs : list (event value)) : nat :=
  length (filter (λ ev, is_rollback ev) evs).

(** The skipped count a run reports: the sum of the [n] of its
    ["{n} rows skipped due to insufficient column count"] lines. *)
Definition skipped_count {value} (evs : list (event value)) : nat :=
  sum_list (omap (λ ev, match ev with EvLog (MsgRowsSkipped n _) => Some n | _ => None end) evs).

(** The summary line of line 190. *)
Definition skipped_summary {value} (table : string) (skipped_rows : nat)
    : list (event value) :=
  if bool_decide (skipped_rows ≠ 0) then [EvLog (MsgRowsSkipped skipped_rows table)] else [].

(** The five ways lines 176-185 can go for a non-empty list of valid rows
    whose first row is [sample]: what the block returns or raises, and its
    events. *)
Inductive insert_shape {value} (table query : string)
    (valid_rows : list (list value)) (sample : list value)
    : result unit → list (event value) → Prop :=
  | insert_committed :
      insert_shape table query valid_rows sample (Ok tt)
        [EvExecuteMany query valid_rows (Ok tt); EvCommit (Ok tt);
         EvLog (MsgInserted (length valid_rows) table)]
  | insert_commit_failed e :
      insert_shape table query valid_rows sample (Ok tt)
        [EvExecuteMany query valid_rows (Ok tt); EvCommit (Raise e); EvRollback (Ok tt);
         EvLog (MsgInsertError table e); EvLog (MsgSampleRow sample)]
  | insert_commit_rollback_failed e e' :
      insert_shape table query valid_rows sample (Raise e')
        [EvExecuteMany query valid_rows (Ok tt); EvCommit (Raise e); EvRollback (Raise e')]
  | insert_failed e :
      insert_shape table query valid_rows sample (Ok tt)
        [EvExecuteMany query valid_rows (Raise e); EvRollback (Ok tt);
         EvLog (MsgInsertError table e); EvLog (MsgSampleRow sample)]
  | insert_rollback_failed e e' :
      insert_shape table query valid_rows sample (Raise e')
        [EvExecuteMany query valid_rows (Raise e); EvRollback (Raise e')].

(** The events of lines 115-119 when the destination table is ensured. *)
Definition ddl_events {value} (upper : string → string) (table : string)
    (columns : list column) : list (event value) :=
  [EvTableInfo table (Ok columns); EvLog (MsgEnsuring table);
   EvExecute (create_sql upper table columns) (Ok tt); EvCommit (Ok tt)].

(** The runs of [sync_table] that return before line 131: the table is
    excluded, or the column introspection, the [CREATE TABLE], its commit or
    the read of the source rows raised. *)
Inductive early_exit {value} (upper : string → string) (table : string)
    : list (event value) → Prop :=
  | exit_excluded :
      early_exit upper table [EvLog (MsgSkipping table)]
  | exit_table_info e :
      early_exit upper table
        [EvTableInfo table (Raise e); EvLog (MsgErrorCreating table e)]
  | exit_create columns e :
      early_exit upper table
        [EvTableInfo table (Ok columns); EvLog (MsgEnsuring table);
         EvExecute (create_sql upper table columns) (Raise e);
         EvLog (MsgErrorCreating table e)]
  | exit_commit columns e :
      early_exit upper table
        [EvTableInfo table (Ok columns); EvLog (MsgEnsuring table);
         EvExecute (create_sql upper table columns) (Ok tt); EvCommit (Raise e);
         EvLog (MsgErrorCreating table e)]
  | exit_fetch columns e :
      early_exit upper table
        (ddl_events upper table columns ++
         [EvSelectAll table (Raise e); EvLog (MsgFetchFailed table e)]).

(** One of the two error lines logged before line 131. *)
Definition is_setup_error {value} (ev : event value) : bool :=
  match ev with
  | EvLog (MsgErrorCreating _ _) | EvLog (MsgFetchFailed _ _) => true
  | _ => false
  end.

(** A source table with a row already in the destination, a row of one
    value, and two complete new rows. *)
Definition mixed_db : demo_sqlite :=
  [("weight_record_table",
    ([Column "row_id" (Some "INTEGER"); Column "weight" (Some "REAL")],
     [[1; 70]; [2]; [3; 72]; [4; 73]]%Z))].

(** A destination that already holds the key 1. *)
Definition seeded_pg : demo_pg := DemoPg (Ok [1%Z]) true [].

(** A destination that refuses every insert. *)
Definition refusing_pg : demo_pg := DemoPg (Ok []) false [].

(** ** Configuration: lines 12-20 and 51-80 *)

Definition REQUIRED_ENV_VARS : list string :=
  ["SQLITE_DB_PATH"; "LOG_FILE"; "PGHOST"; "PGPORT"; "PGDATABASE"; "PGUSER"; "PGPASSWORD"].

(** The truth value Python gives to [os.getenv(var)], the environment being
    a finite map: [None] and the empty string are false. *)
Definition is_set (env : gmap string string) (var : string) : bool :=
  match env !! var with
  | Some v => bool_decide (v ≠ EmptyString)
  | None => false
  end.

(** [check_required_env], lines 51-59: the returned boolean and the lines it
    prints. *)
Definition check_required_env (env : gmap string string) : bool * list string :=
  let missing := filter (λ var, ¬ is_set env var) REQUIRED_ENV_VARS in
  match missing with
  | _ :: _ =>
      (false,
       ["Missing required environment variables:"] ++
       ((λ var, "  - " +:+ var) <$> missing) ++
       ["Set them in your .env or environment and try again."])
  | [] => (true, [])
  end.

(** [s.split(",")]: the pieces between the commas, empty pieces included. *)
Fixpoint split_comma (s : string) : list string :=
  match s with
  | EmptyString => [EmptyString]
  | String c s' =>
      if Ascii.eqb c ","%char then EmptyString :: split_comma s'
      else match split_comma s' with
           | piece :: pieces => String c piece :: pieces
           | [] => [String c EmptyString]
           end
  end.

(** The ASCII characters [str.strip] removes: tab to carriage return, the
    four separators 28 to 31, and the space. *)
Definition ascii_space (c : ascii) : bool :=
  let n := nat_of_ascii c in
  ((9 <=? n) && (n <=? 13)) || ((28 <=? n) && (n <=? 32)).

Fixpoint ascii_lstrip (s : string) : string :=
  match s with
  | EmptyString => EmptyString
  | String c s' => if ascii_space c then ascii_lstrip s' else s
  end.

Fixpoint ascii_rstrip (s : string) : string :=
  match s with
  | EmptyString => EmptyString
  | String c s' =>
      match ascii_rstrip s' with
      | EmptyString => if ascii_space c then EmptyString else String c EmptyString
      | rest => String c rest
      end
  end.

(** [str.strip] on ASCII text. *)
Definition ascii_strip (s : string) : string := ascii_rstrip (ascii_lstrip s).

(** The [postgres_config] dictionary of lines 66-72. *)
Record postgres_config : Type := PostgresConfig {
  cfg_host : option string;
  cfg_port : Z;
  cfg_database : option string;
  cfg_user : option string;
  cfg_password : option string;
}.

(** What [get_config] and [main] can raise: [int(None)] and
    [os.path.exists(None)] raise [TypeError], [int] of a text that is no
    integer raises [ValueError], and the exception of a call on a store
    passes through. *)
Inductive py_error : Type :=
  | TypeError
  | IntValueError (text : string)
  | CallError (e : exn).

Inductive outcome (A : Type) : Type :=
  | Returns (a : A)
  | Raises (e : py_error).
Arguments Returns {A} a.
Arguments Raises {A} e.

Section Config.
(** [str.strip] and [int] are builtins, taken as parameters; [int] gives
    [None] where Python raises [ValueError]. *)
Variable strip : string → string.
Variable py_int : string → option Z.

(** Lines 74-78: the inclusion set. *)
Definition tables_from_env (env : gmap string string) : gset string :=
  let tables_env := strip (default EmptyString (env !! "TABLES_TO_IMPORT")) in
  if decide (tables_env = EmptyString) then DEFAULT_TABLES
  else list_to_set (filter (λ t, t ≠ EmptyString) (strip <$> split_comma tables_env)).

(** [get_config], lines 62-80. *)
Definition get_config (env : gmap string string)
    : outcome (option string * option string * postgres_config * gset string) :=
  let sqlite_db_path := env !! "SQLITE_DB_PATH" in
  let log_file := env !! "LOG_FILE" in
  match env !! "PGPORT" with
  | None => Raises TypeError
  | Some text =>
      match py_int text with
      | None => Raises (IntValueError text)
      | Some port =>
          let postgres_config :=
            PostgresConfig (env !! "PGHOST") port (env !! "PGDATABASE")
              (env !! "PGUSER") (env !! "PGPASSWORD") in
          Returns (sqlite_db_path, log_file, postgres_config, tables_from_env env)
      end
  end.
End Config.

(** ** [log], lines 33-48 *)

(** What one call of [log] does, in order. *)
Inductive log_action : Type :=
  | LogPrint (text : string)
  | LogMakedirs (dir : string)
  | LogAppend (file line : string).

Definition newline : string := String (ascii_of_nat 10) EmptyString.

Section Log.
(** [os.path.dirname], [os.path.exists] and the formatted [datetime.now()]
    are taken as parameters. *)
Variable dirname : string → string.
Variable dir_exists : string → bool.
Variable timestamp : string.

Definition log_actions (env : gmap string string) (message : string) : list log_action :=
  if is_set env "LOG_FILE" then
    let log_file := default EmptyString (env !! "LOG_FILE") in
    let log_dir := dirname log_file in
    (if bool_decide (log_dir ≠ EmptyString) && negb (dir_exists log_dir)
     then [LogMakedirs log_dir] else []) ++
    [LogAppend log_file ("[" +:+ timestamp +:+ "] " +:+ message +:+ newline);
     LogPrint message]
  else [LogPrint ("[NO_LOG_FILE] " +:+ message)].
End Log.

(** ** [main], lines 197-233 *)

(** What [main] asks of its platform besides the two cursors. *)
Class Platform (S D : Type) := {
  (** [os.path.exists(path)] *)
  path_exists : string → bool;
  (** [sqlite3.connect(path)] and [.cursor()] *)
  sqlite_connect : string → result S;
  (** [psycopg2.connect] on the configuration, and [.cursor()] *)
  pg_connect : postgres_config → result D;
  (** line 220-221: the names of [sqlite_master] *)
  src_list_tables : S → result (list string) * S;
  (** [pg_cursor.close()], [pg_conn.close()], [sqlite_conn.close()] *)
  pg_cursor_close : D → result unit * D;
  pg_conn_close : D → result unit * D;
  sqlite_conn_close : S → result unit * S;
}.

(** The lines [main] itself logs. *)
Inductive run_msg : Type :=
  | MsgDbNotFound (path : string)
  | MsgStarting
  | MsgPgConnectError (e : exn)
  | MsgComplete.

(** What a run of [main] did, in order. *)
Inductive run_event (value : Type) : Type :=
  | RunPrint (line : string)
  | RunLog (m : run_msg)
  | RunSqliteConnect (path : string) (r : result unit)
  | RunPgConnect (config : postgres_config) (r : result unit)
  | RunListTables (r : result (list string))
  | RunSync (ev : event value)
  | RunPgCursorClose (r : result unit)
  | RunPgConnClose (r : result unit)
  | RunSqliteClose (r : result unit).
Arguments RunPrint {value}.
Arguments RunLog {value}.
Arguments RunSqliteConnect {value}.
Arguments RunPgConnect {value}.
Arguments RunListTables {value}.
Arguments RunSync {value}.
Arguments RunPgCursorClose {value}.
Arguments RunPgConnClose {value}.
Arguments RunSqliteClose {value}.

(** A connection was closed. *)
Definition is_close_event {value} (ev : run_event value) : bool :=
  match ev with
  | RunPgCursorClose _ | RunPgConnClose _ | RunSqliteClose _ => true
  | _ => false
  end.

Definition reply_of {A} (r : result A) : result unit :=
  match r with Ok _ => Ok tt | Raise e => Raise e end.

Section Main.
Context {value : Type} `{Countable value}.
Context {S D : Type} `{!SourceStore value S} `{!DestStore value D} `{!Platform S D}.
Variable upper : string → string.
Variable strip : string → string.
Variable py_int : string → option Z.

(** Lines 229-232: the three [close()] calls and the last log line. *)
Definition close_all (sqlite_db : S) (pg_db : D) : outcome unit * list (run_event value) :=
  match pg_cursor_close pg_db with
  | (Raise e, _) => (Raises (CallError e), [RunPgCursorClose (Raise e)])
  | (Ok _, pg_db1) =>
      match pg_conn_close pg_db1 with
      | (Raise e, _) =>
          (Raises (CallError e), [RunPgCursorClose (Ok tt); RunPgConnClose (Raise e)])
      | (Ok _, _) =>
          match sqlite_conn_close sqlite_db with
          | (Raise e, _) =>
              (Raises (CallError e),
               [RunPgCursorClose (Ok tt); RunPgConnClose (Ok tt); RunSqliteClose (Raise e)])
          | (Ok _, _) =>
              (Returns tt,
               [RunPgCursorClose (Ok tt); RunPgConnClose (Ok tt); RunSqliteClose (Ok tt);
                RunLog MsgComplete])
          end
      end
  end.

(** Lines 209-232: [main] once the configuration is read and the source file
    exists. *)
Definition run_sync (path : string) (config : postgres_config)
    (tables_to_import : gset string) : outcome unit * list (run_event value) :=
  match sqlite_connect path with
  | Raise e => (Raises (CallError e), [RunLog MsgStarting; RunSqliteConnect path (Raise e)])
  | Ok sqlite_db =>
      match pg_connect config with
      | Raise e =>
          let '(r, _) := sqlite_conn_close sqlite_db in
          (match r with Ok _ => Returns tt | Raise e' => Raises (CallError e') end,
           [RunLog MsgStarting; RunSqliteConnect path (Ok tt); RunPgConnect config (Raise e);
            RunLog (MsgPgConnectError e); RunSqliteClose r])
      | Ok pg_db =>
          match src_list_tables sqlite_db with
          | (Raise e, _) =>
              (Raises (CallError e),
               [RunLog MsgStarting; RunSqliteConnect path (Ok tt);
                RunPgConnect config (Ok tt); RunListTables (Raise e)])
          | (Ok all_tables, sqlite_db1) =>
              let '(r, s, evs) :=
                sync_all upper all_tables tables_to_import (Stores sqlite_db1 pg_db) in
              let done :=
                [RunLog MsgStarting; RunSqliteConnect path (Ok tt);
                 RunPgConnect config (Ok tt); RunListTables (Ok all_tables)] ++
                (RunSync <$> evs) in
              match r with
              | Raise e => (Raises (CallError e), done)
              | Ok _ =>
                  let '(closed, closing) := close_all (sqlite s) (pg s) in
                  (closed, done ++ closing)
              end
          end
      end
  end.

(** [main], lines 197-233, on the environment [env]. *)
Definition main (env : gmap string string) : outcome unit * list (run_event value) :=
  let '(ok, printed) := check_required_env env in
  if negb ok then (Returns tt, RunPrint <$> printed)
  else
    match get_config strip py_int env with
    | Raises e => (Raises e, [])
    | Returns (sqlite_db_path, log_file, config, tables_to_import) =>
        match sqlite_db_path with
        | None => (Raises TypeError, [])
        | Some path =>
            if negb (path_exists path) then (Returns tt, [RunLog (MsgDbNotFound path)])
            else run_sync path config tables_to_import
        end
    end.

End Main.


(** The events of the sync passes within a run of [main]. *)
Definition sync_events {value} (evs : list (run_event value)) : list (event value) :=
  omap (λ ev, match ev with RunSync ev' => Some ev' | _ => None end) evs.

(** The four events of a run of [main] that reached the loop over the tables. *)
Definition opening_events {value} (path : string) (config : postgres_config)
    (all_tables : list string) : list (run_event value) :=
  [RunLog MsgStarting; RunSqliteConnect path (Ok tt); RunPgConnect config (Ok tt);
   RunListTables (Ok all_tables)].

(** The events of lines 229-232 when every [close()] succeeds. *)
Definition closing_events {value} : list (run_event value) :=
  [RunPgCursorClose (Ok tt); RunPgConnClose (Ok tt); RunSqliteClose (Ok tt);
   RunLog MsgComplete].

(** A platform for the two concrete stores: every path but [/missing.db]
    exists and opens [short_row_db], the destination listens on port 5432
    only, and closing never fails. *)
#[global] Instance demo_platform : Platform demo_sqlite demo_pg := {|
  path_exists path := bool_decide (path ≠ "/missing.db");
  sqlite_connect _ := Ok short_row_db;
  pg_connect config :=
    if bool_decide (cfg_port config = 5432%Z) then Ok empty_pg
    else Raise (StoreError "connection refused");
  src_list_tables db := (Ok (fst <$> db), db);
  pg_cursor_close db := (Ok tt, db);
  pg_conn_close db := (Ok tt, db);
  sqlite_conn_close db := (Ok tt, db);
|}.

(** The same platform with a source whose table listing fails. *)
Definition locked_platform : Platform demo_sqlite demo_pg := {|
  path_exists path := bool_decide (path ≠ "/missing.db");
  sqlite_connect _ := Ok short_row_db;
  pg_connect config :=
    if bool_decide (cfg_port config = 5432%Z) then Ok empty_pg
    else Raise (StoreError "connection refused");
  src_list_tables db := (Raise (StoreError "database is locked"), db);
  pg_cursor_close db := (Ok tt, db);
  pg_conn_close db := (Ok tt, db);
  sqlite_conn_close db := (Ok tt, db);
|}.

(** [int] on the two port numbers the examples use. *)
Definition demo_int (text : string) : option Z :=
  if decide (text = "5432") then Some 5432%Z
  else if decide (text = "6543") then Some 6543%Z
  else None.

(** An environment with every required variable set. *)
Definition demo_env : gmap string string :=
  list_to_map
    [("SQLITE_DB_PATH", "/data/health.db"); ("LOG_FILE", "/var/log/sync.log");
     ("PGHOST", "localhost"); ("PGPORT", "5432"); ("PGDATABASE", "health");
     ("PGUSER", "grafana"); ("PGPASSWORD", "secret")].

(** ** The set of existing keys and further concrete stores *)



(** A source table with two columns whose only row has a single value. *)
Definition lone_short_row_db : demo_sqlite :=
  [("steps_record_table",
    ([Column "count" (Some "INTEGER"); Column "time" (Some "INTEGER")], [[7]]%Z))].

(** A source table whose first row has a single value and whose other rows
    are complete; the dedup column [time] is the second one. *)
Definition late_rows : list (list Z) := [[7]; [5; 100]; [9; 200]]%Z.

Definition late_rows_db : demo_sqlite :=
  [("steps_record_table",
    ([Column "count" (Some "INTEGER"); Column "time" (Some "INTEGER")], late_rows))].

(** A destination that already holds the key 100. *)
Definition keyed_pg : demo_pg := DemoPg (Ok [100%Z]) true [].

(** A destination with the transactions of PostgreSQL: a statement that
    fails aborts the open transaction, and every statement is then refused
    until a rollback or a commit ends the transaction. The key query fails
    on the tables of [txn_stale], whose dedup column the destination table
    lacks; the destination holds no key and keeps the batches it accepted. *)
Record txn_pg : Type := TxnPg {
  txn_aborted : bool;
  txn_stale : list string;
  txn_batches : list (list (list Z));
}.

Definition txn_refusal : exn := StoreError "current transaction is aborted".

#[global] Instance txn_dest : DestStore Z txn_pg := {|
  pg_execute _ db :=
    if txn_aborted db then (Raise txn_refusal, db) else (Ok tt, db);
  pg_commit db := (Ok tt, TxnPg false (txn_stale db) (txn_batches db));
  pg_select_column _ table db :=
    if txn_aborted db then (Raise txn_refusal, db)
    else if bool_decide (table ∈ txn_stale db)
         then (Raise (StoreError "column does not exist"),
               TxnPg true (txn_stale db) (txn_batches db))
         else (Ok [], db);
  pg_executemany _ rows db :=
    if txn_aborted db then (Raise txn_refusal, db)
    else (Ok tt, TxnPg false (txn_stale db) (txn_batches db ++ [rows]));
  pg_rollback db := (Ok tt, TxnPg false (txn_stale db) (txn_batches db));
|}.

(** A source with an empty table and a table of two rows. *)
Definition two_tables_db : demo_sqlite :=
  [("body_fat_record_table",
    ([Column "row_id" (Some "INTEGER"); Column "percentage" (Some "REAL")], []));
   ("weight_record_table",
    ([Column "row_id" (Some "INTEGER"); Column "weight" (Some "REAL")],
     [[1; 70]; [2; 71]]%Z))].

(** A destination whose [body_fat_record_table] dates from an earlier
    schema and has no [row_id] column. *)
Definition stale_pg : txn_pg := TxnPg false ["body_fat_record_table"] [].

(** * The program when [log] and [print] raise

    [log] (lines 33-48) creates a directory, opens and writes a file and
    prints, all unguarded, so a call of [log] can raise; so can the
    [print] calls of [check_required_env]. The definitions above take the
    log as a sink whose calls return. Module [Fallible] is the same program
    over a sink that may refuse a line: the control flow of every [try] of
    the source is kept, so that a [log] that raises inside a [try] is
    caught by its handler and one that raises elsewhere leaves the
    function. *)

(** The sink of [log] and [print]: the reply to a line and the state of the
    sink after it. *)
Class LogSink (value L : Type) := {
  (** [log(message)] in [sync_table] and in the loop of [main] *)
  sink_log : log_msg value → L → result unit * L;
  (** [log(message)] in [main] itself *)
  sink_run_log : run_msg → L → result unit * L;
  (** [print(line)] in [check_required_env] *)
  sink_print : string → L → result unit * L;
}.

(** What a table pass did: a call that went as recorded by [event] (for a
    log line: the call returned), or a call of [log] that raised. *)
Inductive io_event (value : Type) : Type :=
  | IoCall (ev : event value)
  | IoLogRaised (m : log_msg value) (e : exn).
Arguments IoCall {value}.
Arguments IoLogRaised {value}.

(** What a run of [main] did: an event as recorded by [run_event], an event
    of a table pass, or a [log] or [print] of [main] that raised. *)
Inductive io_run_event (value : Type) : Type :=
  | IoRun (ev : run_event value)
  | IoSync (ev : io_event value)
  | IoRunLogRaised (m : run_msg) (e : exn)
  | IoPrintRaised (line : string) (e : exn).
Arguments IoRun {value}.
Arguments IoSync {value}.
Arguments IoRunLogRaised {value}.
Arguments IoPrintRaised {value}.

Module Fallible.
Section Program.
Context {value : Type} `{Countable value}.
Context {S D L : Type} `{!SourceStore value S} `{!DestStore value D}.
Context `{!LogSink value L} `{!Platform S D}.
Variable upper : string → string.
Variable strip : string → string.
Variable py_int : string → option Z.

(** The two stores and the sink. *)
Record world := World { w_stores : stores S D; w_sink : L }.

Definition IO (A : Type) : Type := world → result A * world * list (io_event value).

Definition ret {A} (a : A) : IO A := λ w, (Ok a, w, []).

Definition bind {A B} (m : IO A) (k : A → IO B) : IO B := λ w,
  match m w with
  | (Ok a, w1, evs1) => let '(r, w2, evs2) := k a w1 in (r, w2, evs1 ++ evs2)
  | (Raise e, w1, evs1) => (Raise e, w1, evs1)
  end.

(** [try: body  except Exception as e: handler e] *)
Definition try_except {A} (body : IO A) (handler : exn → IO A) : IO A := λ w,
  match body w with
  | (Ok a, w1, evs1) => (Ok a, w1, evs1)
  | (Raise e, w1, evs1) => let '(r, w2, evs2) := handler e w1 in (r, w2, evs1 ++ evs2)
  end.

Definition lift {A} (r : result A) : IO A := λ w, (r, w, []).

#[global] Instance IO_ret : MRet IO := @ret.
#[global] Instance IO_bind : MBind IO := λ A B k m, bind m k.

(** A computation on the stores alone. *)
Definition call {A} (m : M value S D A) : IO A := λ w,
  let '(r, s, evs) := m (w_stores w) in (r, World s (w_sink w), IoCall <$> evs).

(** [log(message)], lines 33-48. *)
Definition log (m : log_msg value) : IO unit := λ w,
  match sink_log m (w_sink w) with
  | (Ok _, l) => (Ok tt, World (w_stores w) l, [IoCall (EvLog m)])
  | (Raise e, l) => (Raise e, World (w_stores w) l, [IoLogRaised m e])
  end.

(** ** [sync_table], lines 110-194 *)

(** Lines 115-122. *)
Definition ensure_table (table : string) : IO (option (list string)) :=
  try_except
    ('(create_query, column_names) ← call (get_create_table_query upper table);
     log (MsgEnsuring table);;
     call (pg_cursor_execute create_query);;
     call pg_conn_commit;;
     mret (Some column_names))
    (λ e, log (MsgErrorCreating table e);; mret None).

(** Lines 124-129. *)
Definition fetch_rows (table : string) : IO (option (list (list value))) :=
  try_except
    (rows ← call (sqlite_select_all table); mret (Some rows))
    (λ e, log (MsgFetchFailed table e);; mret None).

(** Lines 137-147. *)
Definition fetch_existing_keys (table : string) (dedup_col : option string)
    : IO (gset value) :=
  match dedup_col with
  | Some col =>
      try_except
        (keys ← call (pg_select_keys col table); mret (list_to_set keys))
        (λ e, log (MsgWarnExistingKeys table e);; mret ∅)
  | None => mret ∅
  end.

(** Lines 168-174. *)
Fixpoint validate_loop (table : string) (column_names : list string) (i : nat)
    (new_rows : list (list value)) (valid_rows : list (list value)) (skipped_rows : nat)
    : IO (list (list value) * nat) :=
  match new_rows with
  | [] => mret (valid_rows, skipped_rows)
  | r :: rest =>
      if bool_decide (length r < length column_names) then
        log (MsgRowSkipped i table (length column_names) (length r));;
        log (MsgSkippedData r);;
        validate_loop table column_names (i + 1) rest valid_rows (skipped_rows + 1)
      else
        validate_loop table column_names (i + 1) rest
          (valid_rows ++ [take (length column_names) r]) skipped_rows
  end.

(** Lines 176-187. *)
Definition insert_valid_rows (table : string) (column_names : list string)
    (valid_rows : list (list value)) : IO unit :=
  match valid_rows with
  | sample :: _ =>
      try_except
        (call (pg_cursor_executemany (insert_query table column_names) valid_rows);;
         call pg_conn_commit;;
         log (MsgInserted (length valid_rows) table))
        (λ e, call pg_conn_rollback;;
              log (MsgInsertError table e);;
              log (MsgSampleRow sample))
  | [] => log (MsgNoValidRows table)
  end.

(** Lines 160-192. *)
Definition insert_new_rows (table : string) (column_names : list string)
    (new_rows : list (list value)) : IO unit :=
  match new_rows with
  | _ :: _ =>
      '(valid_rows, skipped_rows) ← validate_loop table column_names 0 new_rows [] 0;
      insert_valid_rows table column_names valid_rows;;
      if bool_decide (skipped_rows ≠ 0) then log (MsgRowsSkipped skipped_rows table)
      else mret tt
  | [] => log (MsgNoNewRows table)
  end.

(** Lines 149-194. *)
Definition sync_rows (table : string) (column_names : list string)
    (dedup_col : option string) (existing_keys : gset value) (rows : list (list value))
    : IO unit :=
  '(new_rows, already_present) ←
    lift (partition_rows column_names dedup_col existing_keys rows);
  insert_new_rows table column_names new_rows;;
  log (MsgAlreadyExisted already_present table).

Definition sync_table (table : string) (tables_to_import : gset string) : IO unit :=
  if bool_decide (table ∉ tables_to_import) then log (MsgSkipping table)
  else
    created ← ensure_table table;
    match created with
    | None => mret tt
    | Some column_names =>
        fetched ← fetch_rows table;
        match fetched with
        | None => mret tt
        | Some rows =>
            let dedup_col := select_dedup_col column_names in
            existing_keys ← fetch_existing_keys table dedup_col;
            sync_rows table column_names dedup_col existing_keys rows
        end
    end.

(** The loop of [main], lines 223-227. *)
Fixpoint sync_all (all_tables : list string) (tables_to_import : gset string)
    : IO unit :=
  match all_tables with
  | [] => mret tt
  | table :: rest =>
      try_except (sync_table table tables_to_import)
                 (λ e, log (MsgUnhandled table e));;
      sync_all rest tables_to_import
  end.

(** ** [main], lines 197-233 *)

(** A step of [main]: it returns or raises, leaves the sink in a new state
    and emits events. *)
Definition Run (A : Type) : Type := L → outcome A * L * list (io_run_event value).

Definition run_ret {A} (a : A) : Run A := λ l, (Returns a, l, []).

Definition run_bind {A B} (m : Run A) (k : A → Run B) : Run B := λ l,
  match m l with
  | (Returns a, l1, evs1) => let '(r, l2, evs2) := k a l1 in (r, l2, evs1 ++ evs2)
  | (Raises e, l1, evs1) => (Raises e, l1, evs1)
  end.

Definition run_raise {A} (e : py_error) : Run A := λ l, (Raises e, l, []).

#[global] Instance Run_ret : MRet Run := @run_ret.
#[global] Instance Run_bind : MBind Run := λ A B k m, run_bind m k.

(** [log(message)] in [main]. *)
Definition run_log (m : run_msg) : Run unit := λ l,
  match sink_run_log (value:=value) m l with
  | (Ok _, l1) => (Returns tt, l1, [IoRun (RunLog m)])
  | (Raise e, l1) => (Raises (CallError e), l1, [IoRunLogRaised m e])
  end.

(** [print(line)]. *)
Definition print (line : string) : Run unit := λ l,
  match sink_print (value:=value) line l with
  | (Ok _, l1) => (Returns tt, l1, [IoRun (RunPrint line)])
  | (Raise e, l1) => (Raises (CallError e), l1, [IoPrintRaised line e])
  end.

(** Lines 54-57: the lines [check_required_env] prints, in order. *)
Fixpoint print_lines (lines : list string) : Run unit :=
  match lines with
  | [] => mret tt
  | line :: rest => print line;; print_lines rest
  end.

(** A call on the platform with reply [r], recorded as [ev]; its exception
    leaves the caller. *)
Definition platform {A} (r : result A) (ev : run_event value) : Run A := λ l,
  match r with
  | Ok a => (Returns a, l, [IoRun ev])
  | Raise e => (Raises (CallError e), l, [IoRun ev])
  end.

(** A call on the platform whose exception was caught. *)
Definition caught (ev : run_event value) : Run unit := λ l, (Returns tt, l, [IoRun ev]).

(** The loop over the tables, run on the two connections and the sink. *)
Definition sync_phase (all_tables : list string) (tables_to_import : gset string)
    (s : stores S D) : Run (stores S D) := λ l,
  let '(r, w, evs) := sync_all all_tables tables_to_import (World s l) in
  (match r with Ok _ => Returns (w_stores w) | Raise e => Raises (CallError e) end,
   w_sink w, IoSync <$> evs).

(** Lines 229-232. *)
Definition close_all (sqlite_db : S) (pg_db : D) : Run unit :=
  let '(r1, pg_db1) := pg_cursor_close pg_db in
  platform r1 (RunPgCursorClose r1);;
  let '(r2, _) := pg_conn_close pg_db1 in
  platform r2 (RunPgConnClose r2);;
  let '(r3, _) := sqlite_conn_close sqlite_db in
  platform r3 (RunSqliteClose r3);;
  run_log MsgComplete.

(** Lines 207-232. *)
Definition run_sync (path : string) (config : postgres_config)
    (tables_to_import : gset string) : Run unit :=
  run_log MsgStarting;;
  sqlite_db ← platform (sqlite_connect path)
                 (RunSqliteConnect path (reply_of (sqlite_connect path)));
  match pg_connect config with
  | Raise e =>
      caught (RunPgConnect config (Raise e));;
      run_log (MsgPgConnectError e);;
      let '(r, _) := sqlite_conn_close sqlite_db in
      platform r (RunSqliteClose r)
  | Ok pg_db =>
      caught (RunPgConnect config (Ok tt));;
      let '(r, sqlite_db1) := src_list_tables sqlite_db in
      all_tables ← platform r (RunListTables r);
      s ← sync_phase all_tables tables_to_import (Stores sqlite_db1 pg_db);
      close_all (sqlite s) (pg s)
  end.

(** [main], lines 197-233, on the environment [env]. *)
Definition main (env : gmap string string) : Run unit :=
  let '(ok, printed) := check_required_env env in
  if negb ok then print_lines printed
  else
    match get_config strip py_int env with
    | Raises e => run_raise e
    | Returns (sqlite_db_path, log_file, config, tables_to_import) =>
        match sqlite_db_path with
        | None => run_raise TypeError
        | Some path =>
            if negb (path_exists path) then run_log (MsgDbNotFound path)
            else run_sync path config tables_to_import
        end
    end.

End Program.
End Fallible.

Arguments Fallible.world : clear implicits.
Arguments Fallible.World {S D L} w_stores w_sink.
Arguments Fallible.IO : clear implicits.
Arguments Fallible.Run : clear implicits.

(** ** Measures on the events of the fallible program *)

(** The two [log] calls of [sync_table] that sit inside a [try]: lines 117
    and 180. *)
Definition is_guarded_log {value} (m : log_msg value) : bool :=
  match m with
  | MsgEnsuring _ | MsgInserted _ _ => true
  | _ => false
  end.

(** An insert statement sent to the destination. *)
Definition is_io_insert {value} (ev : io_event value) : bool :=
  match ev with IoCall ev' => is_insert ev' | IoLogRaised _ _ => false end.

(** No call of [log] raised. *)
Definition log_returned {value} (ev : io_event value) : bool :=
  match ev with IoCall _ => true | IoLogRaised _ _ => false end.

(** The call whose exception [e] leaves a table pass: the rollback of the
    insert handler, or a [log] that no [try] encloses. *)
Definition is_pass_failure {value} (e : exn) (ev : io_event value) : Prop :=
  match ev with
  | IoCall (EvRollback (Raise e')) => e' = e
  | IoLogRaised m e' => e' = e ∧ is_guarded_log m = false
  | _ => False
  end.

(** The events end with [ev], and [ev] satisfies [P]. *)
Definition ends_with {A} (P : A → Prop) (evs : list A) : Prop :=
  ∃ before ev, evs = before ++ [ev] ∧ P ev.


(** The events of a run of the fallible [main] up to the loop over the
    tables. *)
Definition io_opening_events {value} (path : string) (config : postgres_config)
    (all_tables : list string) : list (io_run_event value) :=
  IoRun <$> opening_events path config all_tables.

(** A fallible computation agrees with a computation on the stores alone
    on the runs in which every [log] returned: same result, same stores,
    same events. *)
Definition agrees {value S D L A} (mio : Fallible.IO value S D L A) (m : M value S D A)
    : Prop :=
  ∀ w r w' evs,
    mio w = (r, w', evs) →
    Forall (λ ev, log_returned ev = true) evs →
    ∃ evs0, m (Fallible.w_stores w) = (r, Fallible.w_stores w', evs0) ∧
            evs = IoCall <$> evs0.

(** A sink that takes [n] more lines and then refuses every line, as a
    full disk does. *)
Definition disk_full : exn := OSError "No space left on device".

Definition take_line (n : nat) : result unit * nat :=
  match n with
  | 0 => (Raise disk_full, 0)
  | S k => (Ok tt, k)
  end.

#[global] Instance budget_sink : LogSink Z nat := {|
  sink_log _ := take_line;
  sink_run_log _ := take_line;
  sink_print _ := take_line;
|}.

(** No [log] and no [print] of the run raised. *)
Definition run_returned {value} (ev : io_run_event value) : bool :=
  match ev with
  | IoRun _ => true
  | IoSync ev' => log_returned ev'
  | IoRunLogRaised _ _ | IoPrintRaised _ _ => false
  end.

(** An event of [main] as an event of the fallible [main]. *)
Definition run_embed {value} (ev : run_event value) : io_run_event value :=
  match ev with
  | RunSync ev' => IoSync (IoCall ev')
  | _ => IoRun ev
  end.

(** * Properties *)

(** ** Strings *)

Lemma startswith_spec (s p : string) :
  startswith s p = true ↔ ∃ rest, s = p +:+ rest.
Proof.
  unfold startswith. revert s.
  induction p as [|a p IH]; intros [|b s]; simpl.
  - split; [by exists EmptyString | done].
  - split; [by exists (String b s) | done].
  - split; [done | intros [rest Hrest]; discriminate].
  - change (String a p +:+ ?r) with (String a (p +:+ r)).
    destruct (Ascii.ascii_dec a b) as [->|Hne].
    + rewrite IH. split; intros [rest Hrest]; exists rest; congruence.
    + split; [done | intros [rest Hrest]; congruence].
Qed.

Lemma startswith_false (s p : string) :
  startswith s p = false ↔ ¬ ∃ rest, s = p +:+ rest.
Proof.
  rewrite <- startswith_spec. destruct (startswith s p); split; congruence.
Qed.

(** ** Schema mapper *)

Section MappedType.
Variable upper : string → string.
Implicit Types declared : option string.

Lemma mapped_type_unfold declared :
  mapped_type upper declared =
  let u := upper (default EmptyString declared) in
  if decide (u = EmptyString) then TEXT
  else if startswith u "INT" then BIGINT
  else if startswith u "REAL" then DOUBLE
  else if startswith u "BLOB" then BINARY
  else TEXT.
Proof. reflexivity. Qed.

Lemma mapped_type_empty declared :
  upper (default EmptyString declared) = EmptyString →
  mapped_type upper declared = TEXT.
Proof. intros Hu. rewrite mapped_type_unfold, Hu. reflexivity. Qed.

Lemma mapped_type_int declared rest :
  upper (default EmptyString declared) = "INT" +:+ rest →
  mapped_type upper declared = BIGINT.
Proof.
  intros Hu. rewrite mapped_type_unfold. cbv zeta.
  assert (startswith (upper (default EmptyString declared)) "INT" = true) as ->
    by (apply startswith_spec; eauto).
  case_decide as H0; [|done]. rewrite H0 in Hu. discriminate Hu.
Qed.

Lemma mapped_type_real declared rest :
  upper (default EmptyString declared) = "REAL" +:+ rest →
  mapped_type upper declared = DOUBLE.
Proof.
  intros Hu. rewrite mapped_type_unfold. cbv zeta.
  assert (startswith (upper (default EmptyString declared)) "REAL" = true) as ->
    by (apply startswith_spec; eauto).
  assert (startswith (upper (default EmptyString declared)) "INT" = false) as ->.
  { apply startswith_false. intros [r Hr]. rewrite Hu in Hr. discriminate Hr. }
  case_decide as H0; [|done]. rewrite H0 in Hu. discriminate Hu.
Qed.

Lemma mapped_type_blob declared rest :
  upper (default EmptyString declared) = "BLOB" +:+ rest →
  mapped_type upper declared = BINARY.
Proof.
  intros Hu. rewrite mapped_type_unfold. cbv zeta.
  assert (startswith (upper (default EmptyString declared)) "BLOB" = true) as ->
    by (apply startswith_spec; eauto).
  assert (startswith (upper (default EmptyString declared)) "INT" = false) as ->.
  { apply startswith_false. intros [r Hr]. rewrite Hu in Hr. discriminate Hr. }
  assert (startswith (upper (default EmptyString declared)) "REAL" = false) as ->.
  { apply startswith_false. intros [r Hr]. rewrite Hu in Hr. discriminate Hr. }
  case_decide as H0; [|done]. rewrite H0 in Hu. discriminate Hu.
Qed.

Lemma mapped_type_other declared :
  let u := upper (default EmptyString declared) in
  (¬ ∃ rest, u = "INT" +:+ rest) → (¬ ∃ rest, u = "REAL" +:+ rest) →
  (¬ ∃ rest, u = "BLOB" +:+ rest) → mapped_type upper declared = TEXT.
Proof.
  intros u Hint Hreal Hblob. rewrite mapped_type_unfold. fold u. cbv zeta.
  apply startswith_false in Hint, Hreal, Hblob.
  rewrite Hint, Hreal, Hblob. by case_decide.
Qed.

End MappedType.

(** C3. The destination type is a function of the declared type alone. With
    [u] the uppercased declared type ([None] read as the empty string): an
    empty [u] maps to TEXT, a [u] starting with INT to BIGINT, with REAL to
    DOUBLE, with BLOB to BINARY, and any other [u] to TEXT, in particular
    TEXT, VARCHAR(20) and NUMERIC; equal declared types get equal
    destination types. *)
Theorem mapped_type_spec (upper : string → string) (declared : option string) :
  let u := upper (default EmptyString declared) in
  (u = EmptyString → mapped_type upper declared = TEXT) ∧
  ((∃ rest, u = "INT" +:+ rest) → mapped_type upper declared = BIGINT) ∧
  ((∃ rest, u = "REAL" +:+ rest) → mapped_type upper declared = DOUBLE) ∧
  ((∃ rest, u = "BLOB" +:+ rest) → mapped_type upper declared = BINARY) ∧
  ((¬ ∃ rest, u = "INT" +:+ rest) → (¬ ∃ rest, u = "REAL" +:+ rest) →
   (¬ ∃ rest, u = "BLOB" +:+ rest) → mapped_type upper declared = TEXT) ∧
  (u ∈ ["TEXT"; "VARCHAR(20)"; "NUMERIC"] → mapped_type upper declared = TEXT) ∧
  (∀ declared', declared' = declared →
     mapped_type upper declared' = mapped_type upper declared).
Proof.
  intros u. subst u. split_and!.
  - apply mapped_type_empty.
  - intros [rest Hu]. by eapply mapped_type_int.
  - intros [rest Hu]. by eapply mapped_type_real.
  - intros [rest Hu]. by eapply mapped_type_blob.
  - apply mapped_type_other.
  - intros Hu. rewrite mapped_type_unfold.
    repeat (apply elem_of_cons in Hu as [->|Hu]; [reflexivity|]).
    by apply elem_of_nil in Hu.
  - by intros ? ->.
Qed.

(** The examples of the specification, with the ASCII [upper]. *)
Lemma mapped_type_spec_witness :
  mapped_type ascii_upper (Some "INTEGER") = BIGINT ∧
  mapped_type ascii_upper (Some "integer") = BIGINT ∧
  mapped_type ascii_upper (Some "REAL") = DOUBLE ∧
  mapped_type ascii_upper (Some "BLOB") = BINARY ∧
  mapped_type ascii_upper (Some EmptyString) = TEXT ∧
  mapped_type ascii_upper None = TEXT ∧
  mapped_type ascii_upper (Some "VARCHAR(20)") = TEXT ∧
  mapped_type ascii_upper (Some "Numeric") = TEXT ∧
  mapped_type ascii_upper (Some "text") = TEXT.
Proof.
  split_and!.
  - destruct (mapped_type_spec ascii_upper (Some "INTEGER")) as (_ & Hint & _).
    apply Hint. by exists "EGER".
  - destruct (mapped_type_spec ascii_upper (Some "integer")) as (_ & Hint & _).
    apply Hint. by exists "EGER".
  - destruct (mapped_type_spec ascii_upper (Some "REAL")) as (_ & _ & Hreal & _).
    apply Hreal. by exists EmptyString.
  - destruct (mapped_type_spec ascii_upper (Some "BLOB")) as (_ & _ & _ & Hblob & _).
    apply Hblob. by exists EmptyString.
  - destruct (mapped_type_spec ascii_upper (Some EmptyString)) as (Hempty & _).
    by apply Hempty.
  - destruct (mapped_type_spec ascii_upper None) as (Hempty & _).
    by apply Hempty.
  - destruct (mapped_type_spec ascii_upper (Some "VARCHAR(20)"))
      as (_ & _ & _ & _ & _ & Hother & _).
    apply Hother. vm_compute. set_solver.
  - destruct (mapped_type_spec ascii_upper (Some "Numeric"))
      as (_ & _ & _ & _ & _ & Hother & _).
    apply Hother. vm_compute. set_solver.
  - destruct (mapped_type_spec ascii_upper (Some "text"))
      as (_ & _ & _ & _ & _ & Hother & _).
    apply Hother. vm_compute. set_solver.
Defined.

(** ** Dedup key selector *)

Lemma first_present_Some (candidates column_names : list string) (c : string) :
  first_present candidates column_names = Some c ↔
  ∃ before after, candidates = before ++ c :: after ∧ c ∈ column_names ∧
                  ∀ p, p ∈ before → p ∉ column_names.
Proof.
  induction candidates as [|col rest IH]; simpl.
  - split; [done | intros (before & after & Heq & _)].
    by destruct before.
  - case_bool_decide as Hcol.
    + split.
      * intros [= <-]. exists [], rest. split_and!; [done..|]. by intros p ?%elem_of_nil.
      * intros (before & after & Heq & Hc & Hbefore).
        destruct before as [|p before]; simplify_eq/=; [done|].
        exfalso. eapply Hbefore; [apply list_elem_of_here|done].
    + rewrite IH. split.
      * intros (before & after & -> & Hc & Hbefore).
        exists (col :: before), after. split_and!; [done..|].
        intros p [->|Hp]%elem_of_cons; auto.
      * intros (before & after & Heq & Hc & Hbefore).
        destruct before as [|p before]; simplify_eq/=; [done|].
        exists before, after. split_and!; [done..|].
        intros q Hq. apply Hbefore. by apply list_elem_of_further.
Qed.

Lemma first_present_None (candidates column_names : list string) :
  first_present candidates column_names = None ↔
  ∀ c, c ∈ candidates → c ∉ column_names.
Proof.
  induction candidates as [|col rest IH]; simpl.
  - split; [by intros _ c ?%elem_of_nil | done].
  - case_bool_decide as Hcol.
    + split; [done | intros Hall]. exfalso. eapply Hall; [apply list_elem_of_here|done].
    + rewrite IH. split.
      * intros Hall c [->|Hc]%elem_of_cons; auto.
      * intros Hall c Hc. apply Hall. by apply list_elem_of_further.
Qed.

(** C4. The selector returns the first name of the priority list [row_id],
    [local_date_time], [time] that is among the column names: the row
    identifier whenever it is present (also next to a timestamp column), the
    local timestamp when the row identifier is absent, the generic timestamp
    when both are absent, and no key (a value, not an error) when none of
    the three is a column. *)
Theorem select_dedup_col_spec (column_names : list string) :
  (∀ c, select_dedup_col column_names = Some c ↔
        ∃ before after, ["row_id"; "local_date_time"; "time"] = before ++ c :: after ∧
                        c ∈ column_names ∧ ∀ p, p ∈ before → p ∉ column_names) ∧
  ("row_id" ∈ column_names → select_dedup_col column_names = Some "row_id") ∧
  ("row_id" ∉ column_names → "local_date_time" ∈ column_names →
     select_dedup_col column_names = Some "local_date_time") ∧
  ("row_id" ∉ column_names → "local_date_time" ∉ column_names →
   "time" ∈ column_names → select_dedup_col column_names = Some "time") ∧
  (select_dedup_col column_names = None ↔
     ("row_id" ∉ column_names) ∧ ("local_date_time" ∉ column_names) ∧
     ("time" ∉ column_names)).
Proof.
  split_and!.
  - intros c. apply first_present_Some.
  - intros Hrow. unfold select_dedup_col. simpl. by rewrite bool_decide_eq_true_2.
  - intros Hrow Hlocal. unfold select_dedup_col. simpl.
    by rewrite (bool_decide_eq_false_2 _ Hrow), bool_decide_eq_true_2.
  - intros Hrow Hlocal Htime. unfold select_dedup_col. simpl.
    by rewrite (bool_decide_eq_false_2 _ Hrow), (bool_decide_eq_false_2 _ Hlocal),
      bool_decide_eq_true_2.
  - unfold select_dedup_col. rewrite first_present_None. unfold dedup_candidates.
    split.
    + intros Hall. split_and!; apply Hall; set_solver.
    + intros (Hrow & Hlocal & Htime) c Hc.
      repeat (apply elem_of_cons in Hc as [->|Hc]; [done|]).
      by apply elem_of_nil in Hc.
Qed.

Lemma select_dedup_col_spec_witness :
  select_dedup_col ["time"; "row_id"; "count"] = Some "row_id" ∧
  select_dedup_col ["count"; "time"; "local_date_time"] = Some "local_date_time" ∧
  select_dedup_col ["count"; "time"] = Some "time" ∧
  select_dedup_col ["count"; "Row_ID"] = None.
Proof.
  split_and!.
  - apply (select_dedup_col_spec ["time"; "row_id"; "count"]). set_solver.
  - apply (select_dedup_col_spec ["count"; "time"; "local_date_time"]);
      [intros Hin; by repeat (apply elem_of_cons in Hin as [?|Hin]; [done|]);
         apply elem_of_nil in Hin | set_solver].
  - apply (select_dedup_col_spec ["count"; "time"]);
      try (intros Hin; by repeat (apply elem_of_cons in Hin as [?|Hin]; [done|]);
             apply elem_of_nil in Hin).
    set_solver.
  - apply (select_dedup_col_spec ["count"; "Row_ID"]).
    split_and!; intros Hin;
      by repeat (apply elem_of_cons in Hin as [?|Hin]; [done|]);
         apply elem_of_nil in Hin.
Defined.

(** ** [column_names.index] *)

Lemma list_index_Some (x : string) (l : list string) (i : nat) :
  list_index x l = Some i → l !! i = Some x ∧ i < length l.
Proof.
  revert i. induction l as [|y l IH]; intros i; simpl; [done|].
  case_decide as Hxy.
  - intros [= <-]. subst. simpl. split; [done|lia].
  - destruct (list_index x l) as [j|]; simpl; [|done].
    intros [= <-]. destruct (IH j eq_refl) as [? ?]. simpl. split; [done|lia].
Qed.

(** [index] returns the first position that holds the name. *)
Lemma list_index_first (x : string) (l : list string) (i : nat) :
  list_index x l = Some i → ∀ j, j < i → l !! j ≠ Some x.
Proof.
  revert i. induction l as [|y l IH]; intros i; simpl; [done|].
  case_decide as Hxy.
  - intros [= <-] j Hj. lia.
  - destruct (list_index x l) as [k|] eqn:Hk; simpl; [|done].
    intros [= <-] [|j] Hj; simpl; [congruence|]. apply (IH k eq_refl). lia.
Qed.

Lemma list_index_elem_of (x : string) (l : list string) :
  x ∈ l → is_Some (list_index x l).
Proof.
  induction l as [|y l IH]; simpl; [by intros ?%elem_of_nil|].
  intros [->|Hx]%elem_of_cons; case_decide; try done.
  destruct (IH Hx) as [j ->]. by eexists.
Qed.

Lemma select_dedup_col_elem_of (column_names : list string) (col : string) :
  select_dedup_col column_names = Some col → col ∈ column_names.
Proof.
  intros Hsel. apply first_present_Some in Hsel as (? & ? & _ & Hcol & _). done.
Qed.

Lemma select_dedup_col_index (column_names : list string) (col : string) :
  select_dedup_col column_names = Some col →
  ∃ idx, list_index col column_names = Some idx ∧ idx < length column_names.
Proof.
  intros Hsel%select_dedup_col_elem_of%list_index_elem_of.
  destruct Hsel as [idx Hidx]. exists idx. split; [done|].
  by apply list_index_Some in Hidx as [_ ?].
Qed.

(** ** The partition of the source rows, lines 149-158 *)

Section Partition.
Context {value : Type} `{Countable value}.
Implicit Types (r : list value) (rows new_rows : list (list value)).
Implicit Types (existing_keys : gset value) (column_names : list string).

(** Without a dedup column the loop appends every row. *)
Lemma partition_loop_None column_names existing_keys rows new_rows already_present :
  partition_loop column_names None existing_keys rows (new_rows, already_present)
  = Ok (new_rows ++ rows, already_present).
Proof.
  revert new_rows. induction rows as [|r rows IH]; intros new_rows; simpl.
  - by rewrite app_nil_r.
  - rewrite IH. by rewrite <- app_assoc.
Qed.

(** With a dedup column at position [idx], the loop computes the
    specification's partition when every row has a value at [idx]. *)
Lemma partition_loop_Some column_names col idx existing_keys rows new_rows already_present :
  list_index col column_names = Some idx →
  Forall (λ r, is_Some (r !! idx)) rows →
  partition_loop column_names (Some col) existing_keys rows (new_rows, already_present)
  = Ok (new_rows ++ spec_new_rows idx existing_keys rows,
        already_present + spec_already_present idx existing_keys rows).
Proof.
  intros Hidx Hrows. revert new_rows already_present.
  induction Hrows as [|r rows [v Hv] _ IH]; intros new_rows already_present.
  - simpl. by rewrite app_nil_r, Nat.add_0_r.
  - assert (key_present idx existing_keys r = bool_decide (v ∈ existing_keys)) as Hkey
      by (unfold key_present; by rewrite Hv).
    unfold spec_new_rows, spec_already_present in *. simpl. rewrite Hidx, Hv.
    case_bool_decide as Hin; rewrite IH.
    + rewrite (filter_cons_False (λ r, ¬ key_present idx existing_keys r) r)
        by (rewrite Hkey; simpl; tauto).
      rewrite (filter_cons_True (λ r, Is_true (key_present idx existing_keys r)) r)
        by (rewrite Hkey; simpl; tauto).
      simpl. do 2 f_equal. lia.
    + rewrite (filter_cons_True (λ r, ¬ key_present idx existing_keys r) r)
        by (rewrite Hkey; simpl; tauto).
      rewrite (filter_cons_False (λ r, Is_true (key_present idx existing_keys r)) r)
        by (rewrite Hkey; simpl; tauto).
      by rewrite <- app_assoc.
Qed.

(** The loop raises [IndexError] as soon as one row has no value at [idx]. *)
Lemma partition_loop_short column_names col idx existing_keys rows acc :
  list_index col column_names = Some idx →
  Exists (λ r, r !! idx = None) rows →
  partition_loop column_names (Some col) existing_keys rows acc = Raise IndexError.
Proof.
  intros Hidx Hrows. revert acc.
  induction rows as [|r rows IH]; intros [new_rows already_present].
  - by apply Exists_nil in Hrows.
  - simpl. rewrite Hidx. destruct (r !! idx) as [v|] eqn:Hv; [|done].
    apply Exists_cons in Hrows as [Hr|Hrows]; [congruence|].
    case_bool_decide; by apply IH.
Qed.


Lemma elem_of_spec_new_rows idx existing_keys rows r :
  r ∈ spec_new_rows idx existing_keys rows ↔
  r ∈ rows ∧ key_present idx existing_keys r = false.
Proof.
  unfold spec_new_rows. rewrite list_elem_of_filter.
  destruct (key_present idx existing_keys r); simpl; intuition (discriminate || done).
Qed.

(** The partition on the tables whose rows all have a value at the dedup
    position. Without a dedup column every source row is classified new and
    nothing is raised. The selected dedup column is read at the first
    position [idx] that holds its name: a row whose value at [idx] is an
    existing key is counted as already present and not appended to the new
    rows, a row whose value is not an existing key is appended; over a
    table whose rows all have a value at [idx] the loop returns the new
    rows (the non-members, in source order) and the number of members. *)
Theorem partition_rows_spec column_names existing_keys rows :
  partition_rows column_names None existing_keys rows = Ok (rows, 0) ∧
  ∀ col, select_dedup_col column_names = Some col →
    ∃ idx, list_index col column_names = Some idx ∧
      column_names !! idx = Some col ∧
      (∀ j, j < idx → column_names !! j ≠ Some col) ∧
      (∀ new_rows already_present r v, r !! idx = Some v →
         partition_step column_names (Some col) existing_keys
           (new_rows, already_present) r
         = if bool_decide (v ∈ existing_keys)
           then Ok (new_rows, already_present + 1)
           else Ok (new_rows ++ [r], already_present)) ∧
      (Forall (λ r, is_Some (r !! idx)) rows →
         partition_rows column_names (Some col) existing_keys rows
         = Ok (spec_new_rows idx existing_keys rows,
               spec_already_present idx existing_keys rows) ∧
         length (spec_new_rows idx existing_keys rows)
           + spec_already_present idx existing_keys rows = length rows ∧
         ∀ r v, r ∈ rows → r !! idx = Some v →
           (v ∈ existing_keys → r ∉ spec_new_rows idx existing_keys rows) ∧
           (v ∉ existing_keys → r ∈ spec_new_rows idx existing_keys rows)).
Proof.
  split; [apply (partition_loop_None _ _ _ [])|].
  intros col (idx & Hidx & _)%select_dedup_col_index.
  exists idx. split_and!; [done|..].
  - by apply list_index_Some in Hidx as [? _].
  - by apply list_index_first.
  - intros new_rows already_present r v Hv. simpl. by rewrite Hidx, Hv.
  - intros Hrows. split_and!.
    + unfold partition_rows. by rewrite (partition_loop_Some _ _ idx).
    + unfold spec_new_rows, spec_already_present.
      clear Hrows. induction rows as [|r rows' IH]; [done|].
      rewrite !filter_cons.
      destruct (decide (¬ key_present idx existing_keys r)) as [Hk|Hk];
        destruct (decide (key_present idx existing_keys r)) as [Hk'|Hk'];
        simpl; try lia; tauto.
    + intros r v Hr Hv. rewrite elem_of_spec_new_rows.
      unfold key_present. rewrite Hv. split; intros Hin.
      * rewrite bool_decide_eq_true_2 by done. intros [_ ?]. discriminate.
      * by rewrite bool_decide_eq_false_2.
Qed.

End Partition.

Lemma partition_rows_spec_witness :
  partition_rows (value:=Z) ["count"; "time"] (Some "time") {[ 100%Z ]}
    [[5; 100]; [7; 200]; [9; 100]]%Z
  = Ok ([[7; 200]]%Z, 2).
Proof.
  destruct (partition_rows_spec (value:=Z) ["count"; "time"] {[ 100%Z ]}
              [[5; 100]; [7; 200]; [9; 100]]%Z) as [_ Hsome].
  destruct (Hsome "time" eq_refl) as (idx & Hidx & _ & _ & _ & Htable).
  injection Hidx as <-.
  destruct Htable as (-> & _).
  - repeat constructor; by eexists.
  - reflexivity.
Defined.

(** ** Events *)

Section Events.
Context {value : Type}.
Implicit Types (ev : event value) (evs : list (event value)).

Lemma inserted_count_app evs1 evs2 :
  inserted_count (evs1 ++ evs2) = inserted_count evs1 + inserted_count evs2.
Proof.
  unfold inserted_count. by rewrite omap_app, sum_list_with_app.
Qed.

Lemma already_present_reports_app evs1 evs2 :
  already_present_reports (evs1 ++ evs2)
  = already_present_reports evs1 ++ already_present_reports evs2.
Proof.
  unfold already_present_reports. by rewrite omap_app.
Qed.

(** The lines of skipped rows are log lines that report neither an insert,
    nor an error, nor an already-present count. *)
Lemma store_op_read_op evs :
  Forall (λ ev, is_store_op ev = false) evs → Forall (λ ev, is_read_op ev = false) evs.
Proof. intros Hall. eapply Forall_impl; [done|]. by intros []. Qed.

Lemma store_op_insert evs :
  Forall (λ ev, is_store_op ev = false) evs → Forall (λ ev, is_insert ev = false) evs.
Proof. intros Hall. eapply Forall_impl; [done|]. by intros []. Qed.

Lemma skip_logs_quiet evs :
  Forall (λ ev, is_skip_log ev) evs →
  Forall (λ ev, is_store_op ev = false) evs ∧
  Forall (λ ev, is_error_event ev = false) evs ∧
  inserted_count evs = 0 ∧ already_present_reports evs = [].
Proof.
  induction 1 as [|ev evs Hev _ (IH1 & IH2 & IH3 & IH4)]; [done|].
  unfold inserted_count, already_present_reports in *.
  destruct ev as [| | | | | | |[]]; try done; simpl; by repeat constructor.
Qed.

End Events.

(** ** The row validator and the insert, lines 160-192 *)

Section RowValidator.
Context {value : Type} `{Countable value}.
Implicit Types (r : list value) (rows new_rows valid_rows : list (list value)).

Lemma spec_valid_rows_cons n r rows :
  spec_valid_rows n (r :: rows)
  = if bool_decide (length r < n) then spec_valid_rows n rows
    else take n r :: spec_valid_rows n rows.
Proof.
  unfold spec_valid_rows. rewrite filter_cons.
  case_bool_decide; case_decide; (done || lia).
Qed.

Lemma spec_skipped_rows_cons n r rows :
  spec_skipped_rows n (r :: rows)
  = if bool_decide (length r < n) then spec_skipped_rows n rows + 1
    else spec_skipped_rows n rows.
Proof.
  unfold spec_skipped_rows. rewrite filter_cons.
  case_bool_decide; case_decide; simpl; (done || lia).
Qed.

Lemma spec_valid_skipped_length n rows :
  length (spec_valid_rows n rows) + spec_skipped_rows n rows = length rows.
Proof.
  induction rows as [|r rows IH]; [done|].
  rewrite spec_valid_rows_cons, spec_skipped_rows_cons.
  case_bool_decide; simpl; lia.
Qed.

Lemma elem_of_spec_valid_rows n rows t :
  t ∈ spec_valid_rows n rows ↔ ∃ r, r ∈ rows ∧ n ≤ length r ∧ t = take n r.
Proof.
  unfold spec_valid_rows. rewrite list_elem_of_fmap.
  setoid_rewrite list_elem_of_filter.
  split; intros (r & ? & ? & ?); exists r; auto.
Qed.

Lemma spec_valid_rows_length n rows t :
  t ∈ spec_valid_rows n rows → length t = n.
Proof.
  intros (r & _ & Hlen & ->)%elem_of_spec_valid_rows.
  rewrite length_take. lia.
Qed.

Lemma spec_valid_rows_nil_inv n rows :
  spec_valid_rows n rows = [] → spec_skipped_rows n rows = length rows.
Proof.
  intros Hnil. pose proof (spec_valid_skipped_length n rows) as Hlen.
  rewrite Hnil in Hlen. done.
Qed.

End RowValidator.

(** Unfolding of the monad and of the calls on the stores. *)
Ltac munfold :=
  unfold mbind, M_bind, mret, M_ret, bind, ret, log, raise, lift, try_except,
    sqlite_table_info, sqlite_select_all, pg_cursor_execute, pg_conn_commit,
    pg_select_keys, pg_cursor_executemany, pg_conn_rollback in *.

Section Insert.
Context {value : Type} `{Countable value}.
Context {S D : Type} `{!SourceStore value S} `{!DestStore value D}.
Implicit Types (r : list value) (rows new_rows valid_rows : list (list value)).
Implicit Types (s : stores S D) (evs : list (event value)).

(** The loop of lines 168-174 computes the valid rows and the skipped count
    of the specification; it touches no store and logs two lines per skipped
    row. *)
Lemma validate_loop_spec table column_names i new_rows valid_rows skipped_rows s :
  ∃ evs,
    validate_loop table column_names i new_rows valid_rows skipped_rows s
    = (Ok (valid_rows ++ spec_valid_rows (length column_names) new_rows,
           skipped_rows + spec_skipped_rows (length column_names) new_rows), s, evs) ∧
    Forall (λ ev, is_skip_log ev) evs ∧
    length evs = 2 * spec_skipped_rows (length column_names) new_rows.
Proof.
  revert i valid_rows skipped_rows.
  induction new_rows as [|r new_rows IH]; intros i valid_rows skipped_rows.
  - exists []. simpl. unfold ret. by rewrite app_nil_r, Nat.add_0_r.
  - simpl. rewrite spec_valid_rows_cons, spec_skipped_rows_cons.
    case_bool_decide as Hlen.
    + destruct (IH (i + 1) valid_rows (skipped_rows + 1)) as (evs & Hrun & Hlogs & Hcount).
      eexists. unfold mbind, M_bind, bind, log. rewrite Hrun. simpl.
      replace (skipped_rows + (spec_skipped_rows (length column_names) new_rows + 1))
        with (skipped_rows + 1 + spec_skipped_rows (length column_names) new_rows) by lia.
      split_and!; [reflexivity | by repeat constructor | simpl; lia].
    + destruct (IH (i + 1) (valid_rows ++ [take (length column_names) r]) skipped_rows)
        as (evs & Hrun & Hlogs & Hcount).
      exists evs. rewrite Hrun, <- app_assoc. done.
Qed.

(** When no new row is valid, lines 160-192 call no store and only log. *)
Lemma insert_new_rows_nothing table column_names new_rows s :
  spec_valid_rows (length column_names) new_rows = [] →
  ∃ evs, insert_new_rows table column_names new_rows s = (Ok tt, s, evs) ∧
    Forall (λ ev, is_store_op ev = false) evs ∧
    Forall (λ ev, is_error_event ev = false) evs ∧
    inserted_count evs = 0 ∧ already_present_reports evs = [].
Proof.
  intros Hnil. destruct new_rows as [|r new_rows].
  { exists [EvLog (MsgNoNewRows table)]. by repeat constructor. }
  unfold insert_new_rows. remember (r :: new_rows) as rows0 eqn:Hrows0.
  destruct (validate_loop_spec table column_names 0 rows0 [] 0 s)
    as (logs & Hrun & Hlogs & _).
  rewrite Hnil in Hrun. simpl in Hrun.
  destruct (skip_logs_quiet logs Hlogs) as (Hops & Herrs & Hins & Hrep).
  munfold. rewrite Hrun. simpl.
  case_bool_decide; simpl; eexists; (split; [reflexivity|]);
    rewrite !Forall_app, inserted_count_app, already_present_reports_app, Hins, Hrep;
    by repeat constructor.
Qed.

(** When some new row is valid, lines 160-192 send one insert statement: the
    query of line 163 with exactly the valid rows of the specification. *)
Lemma insert_new_rows_submits table column_names new_rows s :
  spec_valid_rows (length column_names) new_rows ≠ [] →
  ∃ logs reply rest res s',
    insert_new_rows table column_names new_rows s
    = (res, s', logs ++ EvExecuteMany (insert_query table column_names)
                        (spec_valid_rows (length column_names) new_rows) reply :: rest) ∧
    Forall (λ ev, is_skip_log ev) logs ∧
    Forall (λ ev, is_insert ev = false) rest ∧
    Forall (λ ev, is_read_op ev = false) rest ∧
    sqlite s' = sqlite s.
Proof.
  intros Hvalid. destruct new_rows as [|r new_rows]; [done|].
  unfold insert_new_rows. remember (r :: new_rows) as rows0 eqn:Hrows0.
  destruct (validate_loop_spec table column_names 0 rows0 [] 0 s)
    as (logs & Hrun & Hlogs & _).
  simpl app in Hrun. simpl Nat.add in Hrun.
  destruct (spec_valid_rows (length column_names) rows0)
    as [|sample valid_rows] eqn:Hrows; [done|].
  exists logs. munfold. rewrite Hrun. unfold insert_valid_rows. munfold. simpl.
  destruct (pg_executemany _ _ _) as [[[]|e] db1] eqn:Hmany; simpl.
  - destruct (pg_commit db1) as [[[]|e] db2] eqn:Hcommit; simpl.
    + case_bool_decide; simpl; do 4 eexists; (split; [reflexivity|]);
        by repeat constructor.
    + destruct (pg_rollback db2) as [[[]|e'] db3] eqn:Hrollback; simpl;
        [case_bool_decide; simpl|]; do 4 eexists; (split; [reflexivity|]);
        by repeat constructor.
  - destruct (pg_rollback db1) as [[[]|e'] db2] eqn:Hrollback; simpl;
      [case_bool_decide; simpl|]; do 4 eexists; (split; [reflexivity|]);
      by repeat constructor.
Qed.

End Insert.

Section RowValidatorClaim.
Context {value : Type} `{Countable value}.
Context {S D : Type} `{!SourceStore value S} `{!DestStore value D}.
Implicit Types (r t : list value) (new_rows : list (list value)).
Implicit Types (s : stores S D).

(** C5. With [n] the number of mapped columns, the validation loop returns
    the valid tuples and the skipped count: a new row with at least [n]
    values contributes its first [n] values, in source order, and nothing
    else is in the list; a row with fewer than [n] values is not in the list
    and is counted as skipped. The insert statement of the pass carries
    exactly these tuples. *)
Theorem validate_rows_spec table column_names new_rows s :
  let n := length column_names in
  (∃ evs, validate_loop table column_names 0 new_rows [] 0 s
          = (Ok (spec_valid_rows n new_rows, spec_skipped_rows n new_rows), s, evs) ∧
          Forall (λ ev, is_skip_log ev) evs) ∧
  (∀ r, r ∈ new_rows → n ≤ length r → take n r ∈ spec_valid_rows n new_rows) ∧
  (∀ t, t ∈ spec_valid_rows n new_rows →
        ∃ r, r ∈ new_rows ∧ n ≤ length r ∧ t = take n r) ∧
  (∀ r, length r < n → r ∉ spec_valid_rows n new_rows) ∧
  (∀ rows1 rows2, new_rows = rows1 ++ rows2 →
     spec_valid_rows n new_rows = spec_valid_rows n rows1 ++ spec_valid_rows n rows2) ∧
  spec_skipped_rows n new_rows = length (filter (λ r, length r < n) new_rows) ∧
  length (spec_valid_rows n new_rows) + spec_skipped_rows n new_rows = length new_rows ∧
  (spec_valid_rows n new_rows ≠ [] →
     ∃ logs reply rest res s',
       insert_new_rows table column_names new_rows s
       = (res, s', logs ++ EvExecuteMany (insert_query table column_names)
                             (spec_valid_rows n new_rows) reply :: rest) ∧
       Forall (λ ev, is_skip_log ev) logs ∧
       Forall (λ ev, is_insert ev = false) rest).
Proof.
  intros n. split_and!.
  - destruct (validate_loop_spec table column_names 0 new_rows [] 0 s)
      as (evs & Hrun & Hlogs & _).
    exists evs. by split.
  - intros r Hr Hlen. apply elem_of_spec_valid_rows. eauto.
  - intros t. apply elem_of_spec_valid_rows.
  - intros r Hlen Hin. apply spec_valid_rows_length in Hin. lia.
  - intros rows1 rows2 ->. unfold spec_valid_rows. by rewrite filter_app, fmap_app.
  - done.
  - apply spec_valid_skipped_length.
  - intros Hvalid.
    destruct (insert_new_rows_submits table column_names new_rows s Hvalid)
      as (logs & reply & rest & res & s' & Hrun & Hlogs & Hrest & _ & _).
    by exists logs, reply, rest, res, s'.
Qed.

End RowValidatorClaim.

Lemma validate_rows_spec_witness :
  fst (validate_loop (S:=demo_sqlite) (D:=demo_pg) "steps_record_table"
         ["count"; "time"] 0 [[1; 2; 3]; [4]; [5; 6]]%Z [] 0
         (Stores [] (DemoPg (Ok []) true [])))
  = (Ok ([[1; 2]; [5; 6]]%Z, 1), Stores [] (DemoPg (Ok []) true [])) ∧
  ([1; 2]%Z ∈ spec_valid_rows 2 [[1; 2; 3]; [4]; [5; 6]]%Z) ∧
  ([4]%Z ∉ spec_valid_rows 2 [[1; 2; 3]; [4]; [5; 6]]%Z) ∧
  ∃ logs reply rest,
    snd (insert_new_rows (S:=demo_sqlite) (D:=demo_pg) "steps_record_table"
           ["count"; "time"] [[1; 2; 3]; [4]; [5; 6]]%Z
           (Stores [] (DemoPg (Ok []) true [])))
    = logs ++ EvExecuteMany (insert_query "steps_record_table" ["count"; "time"])
                [[1; 2]; [5; 6]]%Z reply :: rest.
Proof.
  destruct (validate_rows_spec (S:=demo_sqlite) (D:=demo_pg) "steps_record_table"
              ["count"; "time"] [[1; 2; 3]; [4]; [5; 6]]%Z
              (Stores [] (DemoPg (Ok []) true [])))
    as ((evs & Hrun & _) & Hlong & _ & Hshort & _ & _ & _ & Hsubmit).
  split_and!.
  - by rewrite Hrun.
  - apply (Hlong [1; 2; 3]%Z); [set_solver | simpl; lia].
  - apply Hshort. simpl. lia.
  - destruct Hsubmit as (logs & reply & rest & res & s' & Hins & _); [done|].
    exists logs, reply, rest. by rewrite Hins.
Defined.

(** ** The phases of [sync_table] *)

Section SyncTable.
Context {value : Type} `{Countable value}.
Context {S D : Type} `{!SourceStore value S} `{!DestStore value D}.
Variable upper : string → string.
Implicit Types (rows new_rows : list (list value)) (existing_keys : gset value).
Implicit Types (s : stores S D) (evs : list (event value)).
Implicit Types (table : string) (tables_to_import : gset string).

(** Lines 115-122 never raise: the table is ensured, or the error is logged
    and [sync_table] returns. *)
Lemma ensure_table_run table s :
  (∃ columns s1,
     ensure_table upper table s
     = (Ok (Some (column_names_of columns)), s1,
        [EvTableInfo table (Ok columns); EvLog (MsgEnsuring table);
         EvExecute (create_sql upper table columns) (Ok tt); EvCommit (Ok tt)])) ∨
  (∃ e s1,
     ensure_table upper table s
     = (Ok None, s1, [EvTableInfo table (Raise e); EvLog (MsgErrorCreating table e)])) ∨
  (∃ columns e s1,
     ensure_table upper table s
     = (Ok None, s1,
        [EvTableInfo table (Ok columns); EvLog (MsgEnsuring table);
         EvExecute (create_sql upper table columns) (Raise e);
         EvLog (MsgErrorCreating table e)])) ∨
  (∃ columns e s1,
     ensure_table upper table s
     = (Ok None, s1,
        [EvTableInfo table (Ok columns); EvLog (MsgEnsuring table);
         EvExecute (create_sql upper table columns) (Ok tt); EvCommit (Raise e);
         EvLog (MsgErrorCreating table e)])).
Proof.
  unfold ensure_table, get_create_table_query. munfold.
  destruct (src_table_info table (sqlite s)) as [[columns|e] db1] eqn:Hinfo; simpl;
    [|right; left; by eauto].
  destruct (pg_execute _ _) as [[[]|e] db2] eqn:Hexec; simpl;
    [|right; right; left; by eauto].
  destruct (pg_commit db2) as [[[]|e] db3] eqn:Hcommit; simpl;
    [left; by eauto | right; right; right; by eauto].
Qed.

(** Lines 124-129 never raise either. *)
Lemma fetch_rows_run table s :
  (∃ rows s1, fetch_rows table s = (Ok (Some rows), s1, [EvSelectAll table (Ok rows)]) ∧
              pg s1 = pg s) ∨
  (∃ e s1, fetch_rows table s
           = (Ok None, s1, [EvSelectAll table (Raise e); EvLog (MsgFetchFailed table e)])).
Proof.
  unfold fetch_rows. munfold.
  destruct (src_select_all table (sqlite s)) as [[rows|e] db1] eqn:Hsel; simpl;
    [left | right]; by eauto.
Qed.

(** Lines 137-147 never raise: no query without a dedup column, one query
    with one, and the empty set with a warning when the query fails. *)
Lemma fetch_existing_keys_run table dedup_col s :
  match dedup_col with
  | None => fetch_existing_keys table None s = (Ok ∅, s, [])
  | Some col =>
      match pg_select_column col table (pg s) with
      | (Ok keys, db) =>
          fetch_existing_keys table (Some col) s
          = (Ok (list_to_set keys), Stores (sqlite s) db,
             [EvSelectColumn col table (Ok keys)])
      | (Raise e, db) =>
          fetch_existing_keys table (Some col) s
          = (Ok ∅, Stores (sqlite s) db,
             [EvSelectColumn col table (Raise e); EvLog (MsgWarnExistingKeys table e)])
      end
  end.
Proof.
  destruct dedup_col as [col|]; [|done].
  unfold fetch_existing_keys. munfold.
  by destruct (pg_select_column col table (pg s)) as [[keys|e] db].
Qed.

Lemma fetch_existing_keys_events table dedup_col s :
  ∃ existing_keys s1 evs,
    fetch_existing_keys table dedup_col s = (Ok existing_keys, s1, evs) ∧
    length (filter (λ ev, is_key_query ev) evs) = (if dedup_col is Some _ then 1 else 0) ∧
    Forall (λ ev, is_insert ev = false) evs ∧
    Forall (λ ev, is_error_event ev = false) evs ∧
    inserted_count evs = 0 ∧ already_present_reports evs = [] ∧
    (∀ rows, EvSelectAll table (Ok rows) ∉ evs).
Proof.
  clear upper.
  pose proof (fetch_existing_keys_run table dedup_col s) as Hrun.
  destruct dedup_col as [col|].
  - destruct (pg_select_column col table (pg s)) as [[keys|e] db];
      do 3 eexists; (split; [exact Hrun|]);
      split_and!; try done; try (by repeat constructor);
      intros rows; rewrite !elem_of_cons, elem_of_nil; intuition discriminate.
  - do 3 eexists. split; [exact Hrun|].
    split_and!; try done. intros rows. apply not_elem_of_nil.
Qed.

(** Lines 149-194 in terms of the partition and of the insert block. *)
Lemma sync_rows_run table column_names dedup_col existing_keys rows s :
  match partition_rows column_names dedup_col existing_keys rows with
  | Raise e => sync_rows table column_names dedup_col existing_keys rows s = (Raise e, s, [])
  | Ok (new_rows, already_present) =>
      match insert_new_rows table column_names new_rows s with
      | (Ok _, s1, evs) =>
          sync_rows table column_names dedup_col existing_keys rows s
          = (Ok tt, s1, evs ++ [EvLog (MsgAlreadyExisted already_present table)])
      | (Raise e, s1, evs) =>
          sync_rows table column_names dedup_col existing_keys rows s = (Raise e, s1, evs)
      end
  end.
Proof.
  unfold sync_rows. munfold.
  destruct (partition_rows _ _ _ _) as [[new_rows already_present]|e]; simpl; [|done].
  by destruct (insert_new_rows _ _ _ _) as [[[[]|e] s1] evs].
Qed.

(** The insert block reads no store. *)
Lemma insert_new_rows_no_read table column_names new_rows s :
  Forall (λ ev, is_read_op ev = false) (insert_new_rows table column_names new_rows s).2.
Proof.
  destruct (decide (spec_valid_rows (length column_names) new_rows = [])) as [Hnil|Hvalid].
  - destruct (insert_new_rows_nothing table column_names new_rows s Hnil)
      as (evs & -> & Hops & _). by apply store_op_read_op.
  - destruct (insert_new_rows_submits table column_names new_rows s Hvalid)
      as (logs & reply & rest & res & s' & -> & Hlogs & _ & Hrest & _).
    simpl. apply Forall_app. split.
    + apply store_op_read_op. by apply skip_logs_quiet.
    + by constructor.
Qed.

Lemma sync_rows_no_read table column_names dedup_col existing_keys rows s :
  Forall (λ ev, is_read_op ev = false)
    (sync_rows table column_names dedup_col existing_keys rows s).2.
Proof.
  pose proof (sync_rows_run table column_names dedup_col existing_keys rows s) as Hrun.
  destruct (partition_rows _ _ _ _) as [[new_rows already_present]|e];
    [|by rewrite Hrun].
  pose proof (insert_new_rows_no_read table column_names new_rows s) as Hins.
  destruct (insert_new_rows _ _ _ _) as [[[[]|e] s1] evs]; rewrite Hrun; simpl in *;
    [|done].
  apply Forall_app. split; [done|]. by repeat constructor.
Qed.

(** The decomposition of [sync_table] for an included table. *)
Lemma sync_table_run table tables_to_import s :
  table ∈ tables_to_import →
  (∃ s1 evs1, ensure_table upper table s = (Ok None, s1, evs1) ∧
     sync_table upper table tables_to_import s = (Ok tt, s1, evs1)) ∨
  (∃ column_names s1 evs1,
     ensure_table upper table s = (Ok (Some column_names), s1, evs1) ∧
     ((∃ s2 evs2, fetch_rows table s1 = (Ok None, s2, evs2) ∧
         sync_table upper table tables_to_import s = (Ok tt, s2, evs1 ++ evs2)) ∨
      (∃ rows s2 evs2 existing_keys s3 evs3 res s4 evs4,
         fetch_rows table s1 = (Ok (Some rows), s2, evs2) ∧
         fetch_existing_keys table (select_dedup_col column_names) s2
         = (Ok existing_keys, s3, evs3) ∧
         sync_rows table column_names (select_dedup_col column_names) existing_keys rows s3
         = (res, s4, evs4) ∧
         sync_table upper table tables_to_import s
         = (res, s4, evs1 ++ evs2 ++ evs3 ++ evs4)))).
Proof.
  intros Hin. unfold sync_table. rewrite bool_decide_eq_false_2 by (by intros ?).
  unfold mbind, M_bind, bind.
  destruct (ensure_table_run table s)
    as [(columns & s1 & Hens)|[(e & s1 & Hens)|[(columns & e & s1 & Hens)
       |(columns & e & s1 & Hens)]]];
    rewrite Hens; simpl; try (left; do 2 eexists; split; reflexivity).
  right. do 3 eexists. split; [done|].
  destruct (fetch_rows_run table s1) as [(rows & s2 & Hfetch & _)|(e & s2 & Hfetch)];
    rewrite Hfetch; simpl.
  - right.
    destruct (fetch_existing_keys_events table
                (select_dedup_col (column_names_of columns)) s2)
      as (existing_keys & s3 & evs3 & Hkeys & _).
    rewrite Hkeys.
    destruct (sync_rows table (column_names_of columns)
                (select_dedup_col (column_names_of columns)) existing_keys rows s3)
      as [[res s4] evs4] eqn:Hsync.
    do 9 eexists. split_and!; [done..|]. simpl. by rewrite <- ?app_assoc.
  - left. do 2 eexists. split; [done|]. simpl. by rewrite <- ?app_assoc.
Qed.

(** Lines 111-113: the run of an excluded table. *)
Lemma sync_table_excluded table tables_to_import s :
  table ∉ tables_to_import →
  sync_table upper table tables_to_import s = (Ok tt, s, [EvLog (MsgSkipping table)]).
Proof.
  intros Hout. unfold sync_table. by rewrite bool_decide_eq_true_2.
Qed.

(** C10. For a table outside the inclusion set [sync_table] logs the skip and
    returns: the run consists of that one log line, no call is made on
    either store, and both stores are left in the state they were in. *)
Theorem sync_table_skips table tables_to_import s :
  table ∉ tables_to_import →
  ∃ evs,
    sync_table upper table tables_to_import s = (Ok tt, s, evs) ∧
    evs = [EvLog (MsgSkipping table)] ∧
    Forall (λ ev, is_store_op ev = false) evs.
Proof.
  intros Hout. exists [EvLog (MsgSkipping table)].
  rewrite sync_table_excluded by done.
  split_and!; [done..|]. by repeat constructor.
Qed.





End SyncTable.

Lemma sync_table_skips_witness :
  sync_table (S:=demo_sqlite) (D:=demo_pg) ascii_upper "android_metadata" DEFAULT_TABLES
    (Stores [("android_metadata", ([Column "locale" (Some "TEXT")], [[1%Z]]))]
            (DemoPg (Ok []) true []))
  = (Ok tt,
     Stores [("android_metadata", ([Column "locale" (Some "TEXT")], [[1%Z]]))]
            (DemoPg (Ok []) true []),
     [EvLog (MsgSkipping "android_metadata")]).
Proof.
  assert ("android_metadata" ∉ DEFAULT_TABLES) as Hout by compute_done.
  destruct (sync_table_skips (S:=demo_sqlite) (D:=demo_pg) ascii_upper
              "android_metadata" DEFAULT_TABLES
              (Stores [("android_metadata", ([Column "locale" (Some "TEXT")], [[1%Z]]))]
                      (DemoPg (Ok []) true [])) Hout)
    as (evs & Hrun & -> & _).
  exact Hrun.
Defined.


(** ** Passes without a valid new row *)

Section EmptyPass.
Context {value : Type} `{Countable value}.
Context {S D : Type} `{!SourceStore value S} `{!DestStore value D}.
Variable upper : string → string.
Implicit Types (rows new_rows : list (list value)) (existing_keys : gset value).
Implicit Types (s : stores S D) (evs : list (event value)).
Implicit Types (table : string) (tables_to_import : gset string).

(** The passes without a valid new row whose partition returns. A pass
    whose partition leaves no valid new row sends no insert
    statement (it calls no store at all after the partition), reports no
    inserted row, logs no error and returns normally, reporting its
    already-present count. For an empty source table the pass logs that
    there is no new row and reports zero rows already present; this holds
    for every run of [sync_table] in which the source returned no row. *)
Theorem no_valid_rows_no_insert table column_names dedup_col existing_keys rows s :
  (∀ new_rows already_present,
     partition_rows column_names dedup_col existing_keys rows
     = Ok (new_rows, already_present) →
     spec_valid_rows (length column_names) new_rows = [] →
     ∃ evs,
       sync_rows table column_names dedup_col existing_keys rows s = (Ok tt, s, evs) ∧
       Forall (λ ev, is_store_op ev = false) evs ∧
       Forall (λ ev, is_insert ev = false) evs ∧
       inserted_count evs = 0 ∧
       Forall (λ ev, is_error_event ev = false) evs ∧
       already_present_reports evs = [already_present]) ∧
  sync_rows table column_names dedup_col existing_keys [] s
  = (Ok tt, s, [EvLog (MsgNoNewRows table); EvLog (MsgAlreadyExisted 0 table)]) ∧
  (∀ tables_to_import s0 res s' evs,
     sync_table upper table tables_to_import s0 = (res, s', evs) →
     EvSelectAll table (Ok []) ∈ evs →
     res = Ok tt ∧
     Forall (λ ev, is_insert ev = false) evs ∧
     inserted_count evs = 0 ∧
     Forall (λ ev, is_error_event ev = false) evs ∧
     already_present_reports evs = [0]).
Proof.
  split_and!.
  - intros new_rows already_present Hpart Hnil.
    pose proof (sync_rows_run table column_names dedup_col existing_keys rows s) as Hrun.
    rewrite Hpart in Hrun.
    destruct (insert_new_rows_nothing table column_names new_rows s Hnil)
      as (evs & Hins & Hops & Herrs & Hcount & Hrep).
    rewrite Hins in Hrun. eexists. split; [exact Hrun|].
    rewrite !Forall_app, inserted_count_app, already_present_reports_app, Hcount, Hrep.
    split_and!; try done; try (by repeat constructor).
    by apply store_op_insert.
  - pose proof (sync_rows_run table column_names dedup_col existing_keys [] s) as Hrun.
    replace (partition_rows column_names dedup_col existing_keys [])
      with (Ok (@nil (list value), 0)) in Hrun by (by destruct dedup_col).
    exact Hrun.
  - intros tables_to_import s0 res s' evs Hrun Hsel.
    destruct (decide (table ∈ tables_to_import)) as [Hin|Hout].
    2: { rewrite (sync_table_excluded upper) in Hrun by done. simplify_eq.
         apply list_elem_of_singleton in Hsel. discriminate Hsel. }
    destruct (sync_table_run upper table tables_to_import s0 Hin)
      as [(s1 & evs1 & Hens & Hrun')|(cols & s1 & evs1 & Hens & Hrest)].
    { rewrite Hrun' in Hrun. simplify_eq. exfalso.
      destruct (ensure_table_run upper table s0)
        as [(columns & s2 & Hens')|[(e & s2 & Hens')|[(columns & e & s2 & Hens')
           |(columns & e & s2 & Hens')]]];
        rewrite Hens' in Hens; simplify_eq;
        rewrite !elem_of_cons, elem_of_nil in Hsel; intuition discriminate. }
    destruct (ensure_table_run upper table s0)
      as [(columns & s2 & Hens')|[(e & s2 & Hens')|[(columns & e & s2 & Hens')
         |(columns & e & s2 & Hens')]]];
      rewrite Hens' in Hens; simplify_eq.
    destruct Hrest as [(s2 & evs2 & Hfetch & Hrun')
      |(rows' & s2 & evs2 & ex & s3 & evs3 & res' & s4 & evs4 & Hfetch & Hkeys & Hsync & Hrun')];
      rewrite Hrun' in Hrun; simplify_eq.
    { exfalso.
      destruct (fetch_rows_run table s1) as [(rows' & s3 & Hf & _)|(e & s3 & Hf)];
        rewrite Hf in Hfetch; simplify_eq.
      rewrite elem_of_app, !elem_of_cons, elem_of_nil in Hsel.
      intuition discriminate. }
    destruct (fetch_rows_run table s1) as [(rows'' & s5 & Hf & _)|(e & s5 & Hf)];
      rewrite Hf in Hfetch; simplify_eq.
    destruct (fetch_existing_keys_events table
                (select_dedup_col (column_names_of columns)) s2)
      as (ex' & s3' & evs3' & Hkeys' & _ & Hkins & Hkerr & Hkcount & Hkrep & Hknosel).
    rewrite Hkeys' in Hkeys. simplify_eq.
    pose proof (sync_rows_no_read table (column_names_of columns)
                  (select_dedup_col (column_names_of columns)) ex rows' s3) as Hnoread.
    rewrite Hsync in Hnoread. simpl in Hnoread.
    assert (rows' = []) as ->.
    { rewrite !elem_of_app, !elem_of_cons, elem_of_nil in Hsel.
      destruct Hsel as [Hsel|[Hsel|[Hsel|Hsel]]].
      - intuition discriminate.
      - destruct Hsel as [Hsel|[]]. by injection Hsel.
      - by apply Hknosel in Hsel.
      - rewrite Forall_forall in Hnoread. by apply Hnoread in Hsel. }
    pose proof (sync_rows_run table (column_names_of columns)
                  (select_dedup_col (column_names_of columns)) ex [] s3) as Hempty.
    replace (partition_rows (column_names_of columns)
               (select_dedup_col (column_names_of columns)) ex [])
      with (Ok (@nil (list value), 0)) in Hempty
      by (by destruct (select_dedup_col (column_names_of columns))).
    simpl in Hempty. rewrite Hempty in Hsync. simplify_eq.
    rewrite !Forall_app, !inserted_count_app, !already_present_reports_app,
      Hkcount, Hkrep.
    split_and!; try done; by repeat constructor.
Qed.

End EmptyPass.

Lemma no_valid_rows_no_insert_witness :
  (∃ evs,
     sync_rows (S:=demo_sqlite) "steps_record_table" ["time"; "count"] (Some "time")
       {[ 100%Z ]} [[100]; [300]]%Z (Stores [] empty_pg)
     = (Ok tt, Stores [] empty_pg, evs) ∧
     Forall (λ ev, is_insert ev = false) evs ∧ inserted_count evs = 0 ∧
     already_present_reports evs = [1]) ∧
  ∀ res s' evs,
    sync_table ascii_upper "steps_record_table" DEFAULT_TABLES
      (Stores [("steps_record_table", ([Column "time" (Some "INTEGER")], []))] empty_pg)
    = (res, s', evs) →
    res = Ok tt ∧ Forall (λ ev, is_insert ev = false) evs ∧ inserted_count evs = 0 ∧
    already_present_reports evs = [0].
Proof.
  split.
  - destruct (no_valid_rows_no_insert (S:=demo_sqlite) ascii_upper "steps_record_table"
                ["time"; "count"] (Some "time") {[ 100%Z ]} [[100]; [300]]%Z
                (Stores [] empty_pg)) as (Hpass & _ & _).
    destruct (Hpass [[300]]%Z 1 eq_refl eq_refl)
      as (evs & Hrun & _ & Hins & Hcount & _ & Hrep).
    by exists evs.
  - intros res s' evs Hrun.
    destruct (no_valid_rows_no_insert (S:=demo_sqlite) (D:=demo_pg) ascii_upper
                "steps_record_table" [] None ∅ [] (Stores [] empty_pg))
      as (_ & _ & Hempty).
    destruct (Hempty _ _ _ _ _ Hrun) as (Hres & Hins & Hcount & _ & Hrep).
    + vm_compute in Hrun. injection Hrun as <- <- <-.
      do 4 apply list_elem_of_further. apply list_elem_of_here.
    + done.
Defined.

(** ** The snapshot of the existing keys *)

Section Snapshot.
Context {value : Type} `{Countable value}.
Context {S D : Type} `{!SourceStore value S} `{!DestStore value D}.
Variable upper : string → string.
Implicit Types (r t : list value) (rows new_rows : list (list value)).
Implicit Types (existing_keys : gset value) (s : stores S D) (evs : list (event value)).
Implicit Types (table : string) (tables_to_import : gset string).

Lemma key_query_count_app evs1 evs2 :
  key_query_count (evs1 ++ evs2) = key_query_count evs1 + key_query_count evs2.
Proof. unfold key_query_count. by rewrite filter_app, length_app. Qed.

Lemma key_query_count_no_read evs :
  Forall (λ ev, is_read_op ev = false) evs → key_query_count evs = 0.
Proof.
  unfold key_query_count. induction 1 as [|ev evs Hev _ IH]; [done|].
  rewrite filter_cons. destruct ev; simpl in *; done.
Qed.



End Snapshot.

(** ** The driver loop, lines 223-227 *)

Section Driver.
Context {value : Type} `{Countable value}.
Context {S D : Type} `{!SourceStore value S} `{!DestStore value D}.
Variable upper : string → string.
Implicit Types (s : stores S D) (evs : list (event value)).
Implicit Types (table : string) (tables_to_import : gset string).

(** What the [except] of line 226 adds to a pass: a line for a raised
    exception, nothing for a pass that returned. *)
Lemma sync_all_cons table rest tables_to_import s :
  sync_all upper (table :: rest) tables_to_import s
  = let '(res, s1, evs1) := sync_table upper table tables_to_import s in
    let '(res', s2, evs2) := sync_all upper rest tables_to_import s1 in
    (res', s2,
     evs1 ++ match res with Ok _ => [] | Raise e => [EvLog (MsgUnhandled table e)] end
          ++ evs2).
Proof.
  simpl. munfold.
  destruct (sync_table upper table tables_to_import s) as [[[[]|e] s1] evs1]; simpl;
    destruct (sync_all upper rest tables_to_import s1) as [[res' s2] evs2]; simpl;
    by rewrite <- ?app_assoc.
Qed.

(** The loop never raises. *)
Lemma sync_all_returns tables tables_to_import s :
  ∃ s' evs, sync_all upper tables tables_to_import s = (Ok tt, s', evs).
Proof.
  revert s. induction tables as [|table rest IH]; intros s.
  - by exists s, [].
  - rewrite sync_all_cons.
    destruct (sync_table upper table tables_to_import s) as [[res s1] evs1].
    destruct (IH s1) as (s2 & evs2 & ->). by eauto.
Qed.

(** A pass starts with the skip line or with the column introspection of
    its own table. *)
Lemma sync_table_begins table tables_to_import s :
  ∃ rest, (sync_table upper table tables_to_import s).2 = EvLog (MsgSkipping table) :: rest ∨
          ∃ r, (sync_table upper table tables_to_import s).2 = EvTableInfo table r :: rest.
Proof.
  destruct (decide (table ∈ tables_to_import)) as [Hin|Hout].
  2: { rewrite (sync_table_excluded upper) by done. exists []. by left. }
  destruct (sync_table_run upper table tables_to_import s Hin)
    as [(s1 & evs1 & Hens & ->)|(cols & s1 & evs1 & Hens & Hrest)].
  - destruct (ensure_table_run upper table s)
      as [(columns & s2 & Hens')|[(e & s2 & Hens')|[(columns & e & s2 & Hens')
         |(columns & e & s2 & Hens')]]];
      rewrite Hens' in Hens; simplify_eq; eexists; right; by eexists.
  - destruct (ensure_table_run upper table s)
      as [(columns & s2 & Hens')|[(e & s2 & Hens')|[(columns & e & s2 & Hens')
         |(columns & e & s2 & Hens')]]];
      rewrite Hens' in Hens; simplify_eq.
    destruct Hrest as [(s2 & evs2 & _ & ->)
      |(rows' & s2 & evs2 & ex & s3 & evs3 & res' & s4 & evs4 & _ & _ & _ & ->)];
      simpl; eexists; right; by eexists.
Qed.

(** The control flow of the driver. Whatever the list of tables and
    whatever one table's pass does, the
    loop returns normally. The pass of each table runs once the tables
    before it are done; an exception it raises is logged by the driver as
    unhandled and nothing else is done about it; the tables after it are
    then synced, by the same loop, from the store states that pass left. *)
Theorem sync_all_completes before table after tables_to_import s :
  ∃ s1 evs1 res s2 evs2 s3 evs3,
    sync_all upper before tables_to_import s = (Ok tt, s1, evs1) ∧
    sync_table upper table tables_to_import s1 = (res, s2, evs2) ∧
    sync_all upper after tables_to_import s2 = (Ok tt, s3, evs3) ∧
    sync_all upper (before ++ table :: after) tables_to_import s
    = (Ok tt, s3,
       evs1 ++ evs2
            ++ match res with Ok _ => [] | Raise e => [EvLog (MsgUnhandled table e)] end
            ++ evs3) ∧
    ∃ rest, evs2 = EvLog (MsgSkipping table) :: rest ∨
            ∃ r, evs2 = EvTableInfo table r :: rest.
Proof.
  revert s. induction before as [|first before IH]; intros s.
  - destruct (sync_table upper table tables_to_import s) as [[res s2] evs2] eqn:Hpass.
    destruct (sync_all_returns after tables_to_import s2) as (s3 & evs3 & Hafter).
    exists s, [], res, s2, evs2, s3, evs3. split_and!; [done..| |].
    + simpl app. rewrite sync_all_cons, Hpass, Hafter. done.
    + pose proof (sync_table_begins table tables_to_import s) as Hbegin.
      by rewrite Hpass in Hbegin.
  - simpl app. rewrite !sync_all_cons.
    destruct (sync_table upper first tables_to_import s) as [[res0 s0] evs0].
    destruct (IH s0) as (s1 & evs1 & res & s2 & evs2 & s3 & evs3
                         & Hbefore & Hpass & Hafter & Hall & Hbegin).
    rewrite Hbefore, Hall.
    eexists s1, _, res, s2, evs2, s3, evs3. split_and!; [done..| |done].
    by rewrite <- !app_assoc.
Qed.

End Driver.

(** ** A row too short for the dedup column *)

Section ShortRow.
Context {value : Type} `{Countable value}.
Context {S D : Type} `{!SourceStore value S} `{!DestStore value D}.
Implicit Types (rows : list (list value)) (existing_keys : gset value).
Implicit Types (s : stores S D).

(** With a dedup column at position [idx], one row without a value at [idx]
    makes lines 149-194 raise [IndexError] before anything is inserted,
    logged or counted. *)
Lemma sync_rows_short_row table column_names col idx existing_keys rows s :
  list_index col column_names = Some idx →
  Exists (λ r, r !! idx = None) rows →
  sync_rows table column_names (Some col) existing_keys rows s = (Raise IndexError, s, []).
Proof.
  intros Hidx Hshort.
  pose proof (sync_rows_run table column_names (Some col) existing_keys rows s) as Hrun.
  unfold partition_rows in Hrun.
  by rewrite (partition_loop_short _ _ idx) in Hrun.
Qed.

End ShortRow.

(** C1, on a table with the columns [count], [time] and the rows [(5, 100)]
    and [(7,)]: the second row has fewer values than columns. The row
    validator would skip it and keep the first row; but the dedup loop reads
    [row[1]] of it first, so the pass raises [IndexError], the driver logs
    it as unhandled, nothing is inserted for the table and no row is
    reported as skipped. The next table is synced. *)
Theorem short_row_aborts_table :
  spec_valid_rows 2 (short_row_table.2) = [[5; 100]%Z] ∧
  spec_skipped_rows 2 (short_row_table.2) = 1 ∧
  sync_table ascii_upper "steps_record_table" DEFAULT_TABLES
    (Stores short_row_db empty_pg)
  = (Raise IndexError, Stores short_row_db empty_pg,
     [EvTableInfo "steps_record_table" (Ok short_row_table.1);
      EvLog (MsgEnsuring "steps_record_table");
      EvExecute (create_sql ascii_upper "steps_record_table" short_row_table.1) (Ok tt);
      EvCommit (Ok tt);
      EvSelectAll "steps_record_table" (Ok short_row_table.2);
      EvSelectColumn "time" "steps_record_table" (Ok [])]) ∧
  ∃ evs,
    sync_all ascii_upper ["steps_record_table"; "weight_record_table"] DEFAULT_TABLES
      (Stores short_row_db empty_pg)
    = (Ok tt, Stores short_row_db (DemoPg (Ok []) true [[[1; 70]; [2; 71]]%Z]), evs) ∧
    EvLog (MsgUnhandled "steps_record_table" IndexError) ∈ evs ∧
    EvLog (MsgInserted 2 "weight_record_table") ∈ evs ∧
    (∀ n, EvLog (MsgRowsSkipped n "steps_record_table") ∉ evs) ∧
    (∀ n, EvLog (MsgInserted n "steps_record_table") ∉ evs).
Proof.
  split_and!; [reflexivity..|].
  eexists. split; [vm_compute; reflexivity|].
  split_and!.
  - do 6 apply list_elem_of_further. apply list_elem_of_here.
  - do 15 apply list_elem_of_further. apply list_elem_of_here.
  - intros n. rewrite !elem_of_cons, elem_of_nil. intuition discriminate.
  - intros n. rewrite !elem_of_cons, elem_of_nil. intuition discriminate.
Qed.

(** C7, on a table with the columns [count], [time] whose only row is
    [(7,)]. The row has fewer values than columns, so the pass has no valid
    new row: the claim asks for no insert and no error. The code sends no
    insert, but the dedup loop reads [row[1]] and raises [IndexError],
    which leaves [sync_table] and is logged by the driver as an unhandled
    error; the pass reports neither an inserted nor an already-present
    count. *)
Theorem lone_short_row_raises :
  spec_valid_rows 2 [[7]%Z] = [] ∧
  (∀ existing_keys : gset Z,
     partition_rows ["count"; "time"] (Some "time") existing_keys [[7]%Z]
     = Raise IndexError) ∧
  ∃ evs,
    sync_table ascii_upper "steps_record_table" DEFAULT_TABLES
      (Stores lone_short_row_db empty_pg)
    = (Raise IndexError, Stores lone_short_row_db empty_pg, evs) ∧
    Forall (λ ev, is_insert ev = false) evs ∧
    already_present_reports evs = [] ∧
    sync_all ascii_upper ["steps_record_table"] DEFAULT_TABLES
      (Stores lone_short_row_db empty_pg)
    = (Ok tt, Stores lone_short_row_db empty_pg,
       evs ++ [EvLog (MsgUnhandled "steps_record_table" IndexError)]) ∧
    Exists (λ ev, is_error_event ev = true)
      (evs ++ [EvLog (MsgUnhandled "steps_record_table" IndexError)]).
Proof.
  split_and!; [reflexivity|done|].
  eexists. split; [vm_compute; reflexivity|].
  split_and!; [by repeat constructor|reflexivity|reflexivity|].
  do 6 apply Exists_cons_tl. by apply Exists_cons_hd.
Qed.

(** C2, on a table with the columns [count], [time], the rows [(7,)],
    [(5, 100)] and [(9, 200)] and a destination that holds the key 100. By
    the claim the second row, whose [time] is an existing key, is counted
    as already present, and the third, whose [time] is not, is classified
    new. The code reads [row[1]] of the first row and raises [IndexError]
    before it looks at the other two: the partition has no result, the pass
    reports no already-present count and inserts nothing. *)
Theorem short_row_stops_partition :
  select_dedup_col ["count"; "time"] = Some "time" ∧
  list_index "time" ["count"; "time"] = Some 1 ∧
  spec_already_present 1 {[ 100%Z ]} late_rows = 1 ∧
  spec_new_rows 1 {[ 100%Z ]} late_rows = [[7]; [9; 200]]%Z ∧
  partition_rows ["count"; "time"] (Some "time") {[ 100%Z ]} late_rows
  = Raise IndexError ∧
  ∃ evs,
    sync_table ascii_upper "steps_record_table" DEFAULT_TABLES
      (Stores late_rows_db keyed_pg)
    = (Raise IndexError, Stores late_rows_db keyed_pg, evs) ∧
    EvSelectColumn "time" "steps_record_table" (Ok [100%Z]) ∈ evs ∧
    Forall (λ ev, is_insert ev = false) evs ∧
    already_present_reports evs = [] ∧
    (∀ m, EvLog m ∈ evs → m = MsgEnsuring "steps_record_table").
Proof.
  split_and!; [reflexivity..|].
  eexists. split; [vm_compute; reflexivity|].
  split_and!; [|by repeat constructor|reflexivity|].
  - do 5 apply list_elem_of_further. apply list_elem_of_here.
  - intros m. rewrite !elem_of_cons, elem_of_nil.
    intros [?|[Heq|[?|[?|[?|[?|[]]]]]]]; try discriminate. by injection Heq.
Qed.

(** C8, on a source with the tables [body_fat_record_table] (empty) and
    [weight_record_table] (two rows) and a destination with the
    transactions of PostgreSQL in which the key query of the first table
    fails. Synced alone, the second table gets its two rows. Synced after
    the first, it gets none: the handler of the key query logs the warning
    but does not roll back, the first table has nothing to insert, so the
    transaction is still aborted when the second table's [CREATE TABLE] is
    sent. The loop returns normally and logs no unhandled error. *)
Theorem failed_key_query_blocks_next_table :
  (∃ s evs,
     sync_all ascii_upper ["weight_record_table"] DEFAULT_TABLES
       (Stores two_tables_db stale_pg) = (Ok tt, s, evs) ∧
     inserted_count evs = 2 ∧
     txn_batches (pg s) = [[[1; 70]; [2; 71]]%Z] ∧
     Forall (λ ev, is_error_event ev = false) evs) ∧
  (∃ s evs,
     sync_all ascii_upper ["body_fat_record_table"; "weight_record_table"] DEFAULT_TABLES
       (Stores two_tables_db stale_pg) = (Ok tt, s, evs) ∧
     EvLog (MsgWarnExistingKeys "body_fat_record_table"
              (StoreError "column does not exist")) ∈ evs ∧
     Forall (λ ev, is_rollback ev = false) evs ∧
     EvLog (MsgErrorCreating "weight_record_table" txn_refusal) ∈ evs ∧
     (∀ r, EvSelectAll "weight_record_table" r ∉ evs) ∧
     inserted_count evs = 0 ∧
     txn_batches (pg s) = [] ∧
     (∀ table e, EvLog (MsgUnhandled table e) ∉ evs)).
Proof.
  split.
  - do 2 eexists. split; [vm_compute; reflexivity|].
    split_and!; [reflexivity..|by repeat constructor].
  - do 2 eexists. split; [vm_compute; reflexivity|].
    split_and!; [|by repeat constructor| | |reflexivity..|].
    + do 6 apply list_elem_of_further. apply list_elem_of_here.
    + do 12 apply list_elem_of_further. apply list_elem_of_here.
    + intros r. rewrite !elem_of_cons, elem_of_nil. intuition discriminate.
    + intros table e. rewrite !elem_of_cons, elem_of_nil. intuition discriminate.
Qed.

(** * Further properties of the sync pass *)

(** ** The insert block in detail, lines 160-192 *)

Section InsertRuns.
Context {value : Type} `{Countable value}.
Context {S D : Type} `{!SourceStore value S} `{!DestStore value D}.
Implicit Types (r : list value) (rows new_rows valid_rows : list (list value)).
Implicit Types (s : stores S D) (evs : list (event value)).

(** Lines 176-185 by the replies of the destination. *)
Lemma insert_valid_rows_run table column_names sample valid_rows s :
  match pg_executemany (insert_query table column_names) (sample :: valid_rows) (pg s) with
  | (Ok _, db1) =>
      match pg_commit (value:=value) db1 with
      | (Ok _, db2) =>
          insert_valid_rows table column_names (sample :: valid_rows) s
          = (Ok tt, Stores (sqlite s) db2,
             [EvExecuteMany (insert_query table column_names) (sample :: valid_rows) (Ok tt);
              EvCommit (Ok tt);
              EvLog (MsgInserted (length (sample :: valid_rows)) table)])
      | (Raise e, db2) =>
          match pg_rollback (value:=value) db2 with
          | (Ok _, db3) =>
              insert_valid_rows table column_names (sample :: valid_rows) s
              = (Ok tt, Stores (sqlite s) db3,
                 [EvExecuteMany (insert_query table column_names) (sample :: valid_rows)
                    (Ok tt);
                  EvCommit (Raise e); EvRollback (Ok tt);
                  EvLog (MsgInsertError table e); EvLog (MsgSampleRow sample)])
          | (Raise e', db3) =>
              insert_valid_rows table column_names (sample :: valid_rows) s
              = (Raise e', Stores (sqlite s) db3,
                 [EvExecuteMany (insert_query table column_names) (sample :: valid_rows)
                    (Ok tt);
                  EvCommit (Raise e); EvRollback (Raise e')])
          end
      end
  | (Raise e, db1) =>
      match pg_rollback (value:=value) db1 with
      | (Ok _, db2) =>
          insert_valid_rows table column_names (sample :: valid_rows) s
          = (Ok tt, Stores (sqlite s) db2,
             [EvExecuteMany (insert_query table column_names) (sample :: valid_rows)
                (Raise e);
              EvRollback (Ok tt);
              EvLog (MsgInsertError table e); EvLog (MsgSampleRow sample)])
      | (Raise e', db2) =>
          insert_valid_rows table column_names (sample :: valid_rows) s
          = (Raise e', Stores (sqlite s) db2,
             [EvExecuteMany (insert_query table column_names) (sample :: valid_rows)
                (Raise e);
              EvRollback (Raise e')])
      end
  end.
Proof.
  unfold insert_valid_rows. munfold.
  destruct (pg_executemany _ _ _) as [[[]|e] db1]; simpl.
  - destruct (pg_commit db1) as [[[]|e] db2]; simpl; [done|].
    by destruct (pg_rollback db2) as [[[]|e'] db3].
  - by destruct (pg_rollback db1) as [[[]|e'] db2].
Qed.

(** Lines 160-192 for a non-empty list of new rows: the lines of the skipped
    rows, then lines 176-187 on the valid rows, then the summary. *)
Lemma insert_new_rows_run table column_names new_rows s :
  new_rows ≠ [] →
  ∃ logs, Forall (λ ev, is_skip_log ev) logs ∧
    insert_new_rows table column_names new_rows s
    = let '(res, s', evs) :=
        insert_valid_rows table column_names
          (spec_valid_rows (length column_names) new_rows) s in
      match res with
      | Ok _ =>
          (Ok tt, s',
           logs ++ evs ++
           skipped_summary table (spec_skipped_rows (length column_names) new_rows))
      | Raise e => (Raise e, s', logs ++ evs)
      end.
Proof.
  intros Hne. destruct new_rows as [|r new_rows]; [done|].
  unfold insert_new_rows. remember (r :: new_rows) as rows0 eqn:Hrows0.
  destruct (validate_loop_spec table column_names 0 rows0 [] 0 s)
    as (logs & Hrun & Hlogs & _).
  simpl app in Hrun. simpl Nat.add in Hrun.
  exists logs. split; [done|].
  unfold mbind, M_bind, bind. rewrite Hrun.
  destruct (insert_valid_rows table column_names
              (spec_valid_rows (length column_names) rows0) s) as [[[[]|e] s'] evs];
    [|done].
  unfold skipped_summary. case_bool_decide; unfold log, mret, M_ret, ret; simpl; done.
Qed.

End InsertRuns.

(** ** Counting over events *)

Section Counting.
Context {value : Type}.
Implicit Types (ev : event value) (evs : list (event value)).

Lemma skipped_count_app evs1 evs2 :
  skipped_count (evs1 ++ evs2) = skipped_count evs1 + skipped_count evs2.
Proof. unfold skipped_count. by rewrite omap_app, sum_list_with_app. Qed.

Lemma insert_count_app evs1 evs2 :
  insert_count (evs1 ++ evs2) = insert_count evs1 + insert_count evs2.
Proof. unfold insert_count. by rewrite filter_app, length_app. Qed.

Lemma rollback_count_app evs1 evs2 :
  rollback_count (evs1 ++ evs2) = rollback_count evs1 + rollback_count evs2.
Proof. unfold rollback_count. by rewrite filter_app, length_app. Qed.

Lemma sum_list_app (l1 l2 : list nat) : sum_list (l1 ++ l2) = sum_list l1 + sum_list l2.
Proof. apply sum_list_with_app. Qed.

(** The lines of skipped rows count for nothing. *)
Lemma skip_logs_count evs :
  Forall (λ ev, is_skip_log ev) evs →
  skipped_count evs = 0 ∧ insert_count evs = 0 ∧ rollback_count evs = 0.
Proof.
  induction 1 as [|ev evs Hev _ (IH1 & IH2 & IH3)]; [done|].
  unfold skipped_count, insert_count, rollback_count in *.
  destruct ev as [| | | | | | |[]]; try done; simpl; rewrite ?filter_cons; simpl; done.
Qed.

Lemma skipped_summary_count table n :
  skipped_count (skipped_summary (value:=value) table n) = n ∧
  inserted_count (skipped_summary (value:=value) table n) = 0 ∧
  insert_count (skipped_summary (value:=value) table n) = 0 ∧
  rollback_count (skipped_summary (value:=value) table n) = 0 ∧
  already_present_reports (skipped_summary (value:=value) table n) = [] ∧
  Forall (λ ev, is_error_event ev = false) (skipped_summary (value:=value) table n).
Proof.
  unfold skipped_summary. case_bool_decide as Hn.
  - split_and!; try done. by repeat constructor.
  - assert (n = 0) as -> by lia. by split_and!.
Qed.

End Counting.

(** ** Every row is accounted for *)

Section Accounting.
Context {value : Type} `{Countable value}.
Implicit Types (r : list value) (rows new_rows : list (list value)).
Implicit Types (existing_keys : gset value) (column_names : list string).

(** The dedup loop puts each row either into [new_rows] or into the
    already-present count. *)
Lemma partition_loop_length column_names dedup_col existing_keys rows
    new_rows already_present new_rows' already_present' :
  partition_loop column_names dedup_col existing_keys rows (new_rows, already_present)
  = Ok (new_rows', already_present') →
  length new_rows' + already_present' = length new_rows + already_present + length rows.
Proof.
  revert new_rows already_present.
  induction rows as [|r rows IH]; intros new_rows already_present; simpl.
  - intros [= <- <-]. lia.
  - destruct dedup_col as [col|].
    + destruct (list_index col column_names) as [idx|]; [|done].
      destruct (r !! idx) as [v|]; [|done].
      case_bool_decide; intros Hloop%IH; rewrite ?length_app in Hloop; simpl in Hloop; lia.
    + intros Hloop%IH. rewrite length_app in Hloop. simpl in Hloop. lia.
Qed.

(** With the selected dedup column the loop can only raise [IndexError],
    and only on a row with fewer values than the table has columns. *)
Lemma partition_rows_raises column_names existing_keys rows e :
  partition_rows column_names (select_dedup_col column_names) existing_keys rows = Raise e →
  e = IndexError ∧ Exists (λ r, length r < length column_names) rows.
Proof.
  unfold partition_rows. generalize (@nil (list value), 0).
  destruct (select_dedup_col column_names) as [col|] eqn:Hsel.
  2: { intros [new_rows already_present]. by rewrite partition_loop_None. }
  destruct (select_dedup_col_index _ _ Hsel) as (idx & Hidx & Hlt).
  induction rows as [|r rows IH]; intros [new_rows already_present]; simpl; [done|].
  rewrite Hidx. destruct (r !! idx) as [v|] eqn:Hv.
  - case_bool_decide; intros (-> & Hrows)%IH; (split; [done|]); by apply Exists_cons_tl.
  - intros [= <-]. split; [done|]. apply Exists_cons_hd.
    apply lookup_ge_None in Hv. lia.
Qed.

(** X1. When every source row has at least as many values as the table
    has columns, the dedup loop with the selected column does not raise: it
    returns the new rows and the already-present count, which together
    account for every row. *)
Theorem partition_rows_full_rows column_names existing_keys rows :
  Forall (λ r, length column_names ≤ length r) rows →
  ∃ new_rows already_present,
    partition_rows column_names (select_dedup_col column_names) existing_keys rows
    = Ok (new_rows, already_present) ∧
    length new_rows + already_present = length rows.
Proof.
  intros Hfull.
  destruct (partition_rows column_names (select_dedup_col column_names) existing_keys rows)
    as [[new_rows already_present]|e] eqn:Hpart.
  - exists new_rows, already_present. split; [done|].
    apply partition_loop_length in Hpart. simpl in Hpart. lia.
  - apply partition_rows_raises in Hpart as [_ Hshort].
    apply Exists_exists in Hshort as (r & Hr & Hlen).
    rewrite Forall_forall in Hfull. apply Hfull in Hr. lia.
Qed.

End Accounting.

(** ** The shapes of a pass *)

Section PassShapes.
Context {value : Type} `{Countable value}.
Context {S D : Type} `{!SourceStore value S} `{!DestStore value D}.
Implicit Types (r : list value) (rows new_rows valid_rows : list (list value)).
Implicit Types (existing_keys : gset value) (s : stores S D) (evs : list (event value)).

Lemma insert_valid_rows_shape table column_names sample valid_rows s res s' evs :
  insert_valid_rows table column_names (sample :: valid_rows) s = (res, s', evs) →
  insert_shape table (insert_query table column_names) (sample :: valid_rows) sample res evs ∧
  sqlite s' = sqlite s.
Proof.
  pose proof (insert_valid_rows_run table column_names sample valid_rows s) as Hrun.
  destruct (pg_executemany _ _ _) as [[[]|e] db1].
  - destruct (pg_commit db1) as [[[]|e] db2].
    + rewrite Hrun. intros [= <- <- <-]. split; [constructor|done].
    + destruct (pg_rollback db2) as [[[]|e'] db3]; rewrite Hrun; intros [= <- <- <-];
        (split; [constructor|done]).
  - destruct (pg_rollback db1) as [[[]|e'] db2]; rewrite Hrun; intros [= <- <- <-];
      (split; [constructor|done]).
Qed.

(** Lines 149-194 end in one of these ways. *)
Lemma sync_rows_shape table column_names dedup_col existing_keys rows s res s' evs :
  sync_rows table column_names dedup_col existing_keys rows s = (res, s', evs) →
  (∃ e, partition_rows column_names dedup_col existing_keys rows = Raise e ∧
        res = Raise e ∧ evs = []) ∨
  ∃ new_rows already_present,
    partition_rows column_names dedup_col existing_keys rows
    = Ok (new_rows, already_present) ∧
    ((new_rows = [] ∧ res = Ok tt ∧
      evs = [EvLog (MsgNoNewRows table); EvLog (MsgAlreadyExisted already_present table)]) ∨
     ∃ logs, Forall (λ ev, is_skip_log ev) logs ∧ new_rows ≠ [] ∧
       ((spec_valid_rows (length column_names) new_rows = [] ∧ res = Ok tt ∧
         evs = logs ++ [EvLog (MsgNoValidRows table)] ++
               skipped_summary table (spec_skipped_rows (length column_names) new_rows) ++
               [EvLog (MsgAlreadyExisted already_present table)]) ∨
        ∃ sample res_i evs_i,
          head (spec_valid_rows (length column_names) new_rows) = Some sample ∧
          insert_shape table (insert_query table column_names)
            (spec_valid_rows (length column_names) new_rows) sample res_i evs_i ∧
          ((res_i = Ok tt ∧ res = Ok tt ∧
            evs = logs ++ evs_i ++
                  skipped_summary table (spec_skipped_rows (length column_names) new_rows) ++
                  [EvLog (MsgAlreadyExisted already_present table)]) ∨
           ∃ e, res_i = Raise e ∧ res = Raise e ∧ evs = logs ++ evs_i))).
Proof.
  intros Hsync.
  pose proof (sync_rows_run table column_names dedup_col existing_keys rows s) as Hrun.
  destruct (partition_rows column_names dedup_col existing_keys rows)
    as [[new_rows already_present]|e].
  2: { rewrite Hrun in Hsync. injection Hsync as <- <- <-. left. by exists e. }
  right. exists new_rows, already_present. split; [done|].
  destruct (decide (new_rows = [])) as [->|Hne].
  { left. simpl in Hrun. rewrite Hrun in Hsync. by injection Hsync as <- <- <-. }
  right. destruct (insert_new_rows_run table column_names new_rows s Hne)
    as (logs & Hlogs & Hins).
  exists logs. split_and!; [done..|].
  rewrite Hins in Hrun. clear Hins.
  destruct (spec_valid_rows (length column_names) new_rows) as [|sample valid_rows].
  - left. simpl in Hrun. rewrite Hrun in Hsync. injection Hsync as <- <- <-.
    split_and!; [done..|]. by rewrite <- !app_assoc.
  - right.
    destruct (insert_valid_rows table column_names (sample :: valid_rows) s)
      as [[res_i s_i] evs_i] eqn:Hvalid.
    apply insert_valid_rows_shape in Hvalid as [Hshape _].
    exists sample, res_i, evs_i. split_and!; [done..|].
    destruct res_i as [[]|e]; rewrite Hrun in Hsync; injection Hsync as <- <- <-.
    + left. split_and!; [done..|]. by rewrite <- !app_assoc.
    + right. by exists e.
Qed.

End PassShapes.

Section TableShapes.
Context {value : Type} `{Countable value}.
Context {S D : Type} `{!SourceStore value S} `{!DestStore value D}.
Variable upper : string → string.
Implicit Types (rows : list (list value)) (existing_keys : gset value).
Implicit Types (s : stores S D) (evs : list (event value)).
Implicit Types (table : string) (tables_to_import : gset string).

(** A run of [sync_table] is an early exit, which returns normally, or it
    ensures the table, reads the rows, fetches the keys and goes through
    lines 149-194. *)
Lemma sync_table_shape table tables_to_import s res s' evs :
  sync_table upper table tables_to_import s = (res, s', evs) →
  (res = Ok tt ∧ early_exit upper table evs) ∨
  ∃ columns rows existing_keys s2 s3 evs3 evs4,
    table ∈ tables_to_import ∧
    fetch_existing_keys table (select_dedup_col (column_names_of columns)) s2
    = (Ok existing_keys, s3, evs3) ∧
    sync_rows table (column_names_of columns) (select_dedup_col (column_names_of columns))
      existing_keys rows s3 = (res, s', evs4) ∧
    evs = ddl_events upper table columns ++ [EvSelectAll table (Ok rows)] ++ evs3 ++ evs4.
Proof.
  intros Hrun.
  destruct (decide (table ∈ tables_to_import)) as [Hin|Hout].
  2: { rewrite (sync_table_excluded upper) in Hrun by done. injection Hrun as <- <- <-.
       left. split; [done|constructor]. }
  destruct (sync_table_run upper table tables_to_import s Hin)
    as [(s1 & evs1 & Hens & Hrun')|(cols & s1 & evs1 & Hens & Hrest)].
  { rewrite Hrun' in Hrun. injection Hrun as <- <- <-. left. split; [done|].
    destruct (ensure_table_run upper table s)
      as [(columns & s2 & Hens')|[(e & s2 & Hens')|[(columns & e & s2 & Hens')
         |(columns & e & s2 & Hens')]]];
      rewrite Hens' in Hens; simplify_eq; constructor. }
  destruct (ensure_table_run upper table s)
    as [(columns & s2 & Hens')|[(e & s2 & Hens')|[(columns & e & s2 & Hens')
       |(columns & e & s2 & Hens')]]];
    rewrite Hens' in Hens; simplify_eq.
  destruct Hrest as [(s2 & evs2 & Hfetch & Hrun')
    |(rows & s2 & evs2 & ex & s3 & evs3 & res' & s4 & evs4 & Hfetch & Hkeys & Hsync & Hrun')];
    rewrite Hrun' in Hrun; injection Hrun as <- <- <-.
  - left. split; [done|].
    destruct (fetch_rows_run table s1) as [(rows & s3 & Hf & _)|(e & s3 & Hf)];
      rewrite Hf in Hfetch; simplify_eq. apply exit_fetch.
  - right.
    destruct (fetch_rows_run table s1) as [(rows' & s5 & Hf & _)|(e & s5 & Hf)];
      rewrite Hf in Hfetch; simplify_eq.
    by exists columns, rows, ex, s2, s3, evs3, evs4.
Qed.

(** The events of the key query, lines 137-147. *)
Lemma fetch_existing_keys_shape table dedup_col s existing_keys s' evs :
  fetch_existing_keys table dedup_col s = (Ok existing_keys, s', evs) →
  (dedup_col = None ∧ existing_keys = ∅ ∧ evs = []) ∨
  (∃ col keys, dedup_col = Some col ∧ existing_keys = list_to_set keys ∧
               evs = [EvSelectColumn col table (Ok keys)]) ∨
  (∃ col e, dedup_col = Some col ∧ existing_keys = ∅ ∧
            evs = [EvSelectColumn col table (Raise e);
                   EvLog (MsgWarnExistingKeys table e)]).
Proof.
  pose proof (fetch_existing_keys_run table dedup_col s) as Hrun.
  destruct dedup_col as [col|].
  - destruct (pg_select_column col table (pg s)) as [[keys|e] db];
      rewrite Hrun; intros [= <- <- <-]; right; [left|right]; by eauto.
  - rewrite Hrun. intros [= <- <- <-]. by left.
Qed.

End TableShapes.

(** Splitting the measures over appended events. *)
Ltac count_app :=
  rewrite ?inserted_count_app, ?skipped_count_app, ?insert_count_app,
    ?rollback_count_app, ?already_present_reports_app, ?key_query_count_app,
    ?sum_list_app, ?Forall_app.

(** Evaluating the measures on explicit events. *)
Ltac count_eval :=
  unfold inserted_count, skipped_count, insert_count, rollback_count,
    already_present_reports, key_query_count in *;
  rewrite ?filter_cons, ?filter_nil; simpl.

Section PassMeasures.
Context {value : Type} `{Countable value}.
Context {S D : Type} `{!SourceStore value S} `{!DestStore value D}.
Implicit Types (rows new_rows : list (list value)) (existing_keys : gset value).
Implicit Types (s : stores S D) (evs : list (event value)).

Lemma skip_logs_no_setup_error evs :
  Forall (λ ev, is_skip_log ev) evs → Forall (λ ev, is_setup_error ev = false) evs.
Proof. intros Hall. eapply Forall_impl; [done|]. by intros [| | | | | | |[]]. Qed.

Lemma skipped_summary_no_setup_error table n :
  Forall (λ ev, is_setup_error ev = false) (skipped_summary (value:=value) table n).
Proof. unfold skipped_summary. case_bool_decide; by repeat constructor. Qed.

(** What lines 176-185 add to the measures. *)
Lemma insert_shape_measures table query valid_rows sample res evs :
  insert_shape table query valid_rows sample res evs →
  skipped_count evs = 0 ∧ already_present_reports evs = [] ∧ insert_count evs = 1 ∧
  Forall (λ ev, is_setup_error ev = false) evs ∧
  Forall (λ ev, is_read_op ev = false) evs ∧
  ((res = Ok tt ∧ inserted_count evs = length valid_rows ∧ rollback_count evs = 0 ∧
    Forall (λ ev, is_error_event ev = false) evs) ∨
   (inserted_count evs = 0 ∧ rollback_count evs = 1 ∧
    (res = Ok tt → ∃ e, EvLog (MsgInsertError table e) ∈ evs ∧ EvRollback (Ok tt) ∈ evs ∧
                        EvLog (MsgSampleRow sample) ∈ evs) ∧
    (∀ e, res = Raise e → ∃ pre, evs = pre ++ [EvRollback (Raise e)]))).
Proof.
  destruct 1; (split_and!; [done..|by repeat constructor|by repeat constructor|]).
  - left. split_and!; try done. by repeat constructor.
  - right. split_and!; try done. intros _. exists e.
    split_and!; rewrite !elem_of_cons; tauto.
  - right. split_and!; try done. intros e0 [= <-]. by eexists [_; _].
  - right. split_and!; try done. intros _. exists e.
    split_and!; rewrite !elem_of_cons; tauto.
  - right. split_and!; try done. intros e0 [= <-]. by eexists [_].
Qed.

End PassMeasures.

Section PassInvariants.
Context {value : Type} `{Countable value}.
Context {S D : Type} `{!SourceStore value S} `{!DestStore value D}.
Variable upper : string → string.
Implicit Types (rows new_rows : list (list value)) (existing_keys : gset value).
Implicit Types (s : stores S D) (evs : list (event value)).
Implicit Types (table : string) (tables_to_import : gset string).

(** The measures of lines 149-194. *)
Lemma sync_rows_measures table column_names dedup_col existing_keys rows s res s' evs :
  sync_rows table column_names dedup_col existing_keys rows s = (res, s', evs) →
  Forall (λ ev, is_setup_error ev = false) evs ∧
  key_query_count evs = 0 ∧
  ((inserted_count evs ≠ 0 ∧ insert_count evs = 1 ∧ rollback_count evs = 0) ∨
   (inserted_count evs = 0 ∧ rollback_count evs = insert_count evs ∧ insert_count evs ≤ 1)).
Proof.
  intros Hsync.
  assert (key_query_count evs = 0) as Hkeys.
  { apply key_query_count_no_read.
    pose proof (sync_rows_no_read table column_names dedup_col existing_keys rows s) as Hno.
    by rewrite Hsync in Hno. }
  split_and!; [|done|].
  - apply sync_rows_shape in Hsync
      as [(e & _ & -> & ->)|(new_rows & already_present & _ & Hshape)]; [done|].
    destruct Hshape as [(-> & -> & ->)|(logs & Hlogs & Hne & Hshape)];
      [by repeat constructor|].
    pose proof (skip_logs_no_setup_error _ Hlogs) as Hlogs'.
    pose proof (skipped_summary_no_setup_error (value:=value) table
                  (spec_skipped_rows (length column_names) new_rows)) as Hsum.
    destruct Hshape as [(_ & -> & ->)|(sample & res_i & evs_i & _ & Hins & Hshape)].
    { count_app. split_and!; try done; by repeat constructor. }
    apply insert_shape_measures in Hins as (_ & _ & _ & Hsetup & _).
    destruct Hshape as [(_ & _ & ->)|(e & _ & _ & ->)]; count_app;
      split_and!; try done; by repeat constructor.
  - apply sync_rows_shape in Hsync
      as [(e & _ & -> & ->)|(new_rows & already_present & _ & Hshape)];
      [right; split_and!; count_eval; lia|].
    destruct Hshape as [(-> & -> & ->)|(logs & Hlogs & Hne & Hshape)];
      [right; split_and!; count_eval; lia|].
    destruct (skip_logs_count _ Hlogs) as (_ & Hl2 & Hl3).
    destruct (skip_logs_quiet _ Hlogs) as (_ & _ & Hl4 & _).
    destruct (skipped_summary_count (value:=value) table
                (spec_skipped_rows (length column_names) new_rows))
      as (_ & Hs1 & Hs2 & Hs3 & _).
    destruct Hshape as [(_ & -> & ->)|(sample & res_i & evs_i & Hhead & Hins & Hshape)].
    { right. count_app. rewrite Hl2, Hl3, Hl4, Hs1, Hs2, Hs3.
      split_and!; count_eval; lia. }
    assert (length (spec_valid_rows (length column_names) new_rows) ≠ 0) as Hvalid
      by (destruct (spec_valid_rows (length column_names) new_rows); done).
    apply insert_shape_measures in Hins
      as (_ & _ & Hi1 & _ & _ & [(Hres & Hi2 & Hi3 & _)|(Hi2 & Hi3 & _)]);
      destruct Hshape as [(Hres' & _ & ->)|(e & Hres' & _ & ->)]; try congruence;
      count_app; rewrite ?Hl2, ?Hl3, ?Hl4, ?Hs1, ?Hs2, ?Hs3, ?Hi1, ?Hi2, ?Hi3;
      count_eval; [left|right|right]; split_and!; lia.
Qed.

(** X2. A pass sends at most one insert statement. An insert statement is
    either reported as inserted or rolled back, never both: a rollback only
    ever follows an insert statement, and a pass that rolled back reports no
    inserted row. *)
Theorem sync_table_statements table tables_to_import s :
  let evs := (sync_table upper table tables_to_import s).2 in
  insert_count evs ≤ 1 ∧
  ((inserted_count evs ≠ 0 ∧ insert_count evs = 1 ∧ rollback_count evs = 0) ∨
   (inserted_count evs = 0 ∧ rollback_count evs = insert_count evs)).
Proof.
  destruct (sync_table upper table tables_to_import s) as [[res s'] evs] eqn:Hrun.
  simpl. apply sync_table_shape in Hrun
    as [(_ & Hexit)|(columns & rows & ex & s2 & s3 & evs3 & evs4 & _ & Hkeys & Hsync & ->)].
  { destruct Hexit; (split; [count_eval; lia|right; split; by count_eval]). }
  apply sync_rows_measures in Hsync as (_ & _ & Hsync).
  assert (inserted_count evs3 = 0 ∧ insert_count evs3 = 0 ∧ rollback_count evs3 = 0)
    as (Hk1 & Hk2 & Hk3).
  { apply fetch_existing_keys_shape in Hkeys
      as [(_ & _ & ->)|[(col & keys & _ & _ & ->)|(col & e & _ & _ & ->)]];
      by count_eval. }
  count_app. rewrite Hk1, Hk2, Hk3.
  change (inserted_count (ddl_events upper table columns)) with 0.
  change (insert_count (ddl_events upper table columns)) with 0.
  change (rollback_count (ddl_events upper table columns)) with 0.
  change (inserted_count [EvSelectAll table (Ok rows)]) with 0.
  change (insert_count [EvSelectAll table (Ok rows)]) with 0.
  change (rollback_count [EvSelectAll table (Ok rows)]) with 0.
  simpl. destruct Hsync as [(? & ? & ?)|(? & ? & ?)].
  - split; [lia|left; lia].
  - split; [lia|right; lia].
Qed.

(** The rows a run read are those of its one successful [SELECT *]. *)
Lemma sync_table_rows_read table columns rows existing_keys
    (s2 s3 : stores S D) evs3 evs4 res s' rows0 :
  fetch_existing_keys table (select_dedup_col (column_names_of columns)) s2
  = (Ok existing_keys, s3, evs3) →
  sync_rows table (column_names_of columns) (select_dedup_col (column_names_of columns))
    existing_keys rows s3 = (res, s', evs4) →
  EvSelectAll table (Ok rows0)
  ∈ ddl_events upper table columns ++ [EvSelectAll table (Ok rows)] ++ evs3 ++ evs4 →
  rows0 = rows.
Proof.
  intros Hkeys Hsync Hsel.
  pose proof (sync_rows_no_read table (column_names_of columns)
                (select_dedup_col (column_names_of columns)) existing_keys rows s3) as Hno.
  rewrite Hsync in Hno. simpl in Hno.
  unfold ddl_events in Hsel.
  rewrite !elem_of_app, !elem_of_cons, elem_of_nil in Hsel.
  destruct Hsel as [Hsel|[Hsel|[Hsel|Hsel]]].
  - intuition discriminate.
  - destruct Hsel as [Hsel|[]]. by injection Hsel.
  - apply fetch_existing_keys_shape in Hkeys
      as [(_ & _ & ->)|[(col & keys & _ & _ & ->)|(col & e & _ & _ & ->)]];
      rewrite ?elem_of_cons, elem_of_nil in Hsel; intuition discriminate.
  - rewrite Forall_forall in Hno. by apply Hno in Hsel.
Qed.

(** X3. In a pass that returns without having logged an error, every row
    read from the source is accounted for once: the inserted count, the
    skipped count and the already-present count the pass reports add up to
    the number of source rows. *)
Theorem sync_table_accounts table tables_to_import s s' evs rows :
  sync_table upper table tables_to_import s = (Ok tt, s', evs) →
  Forall (λ ev, is_error_event ev = false) evs →
  EvSelectAll table (Ok rows) ∈ evs →
  inserted_count evs + skipped_count evs + sum_list (already_present_reports evs)
  = length rows.
Proof.
  intros Hrun Hquiet Hsel.
  apply sync_table_shape in Hrun
    as [(_ & Hexit)|(columns & rows' & ex & s2 & s3 & evs3 & evs4 & _ & Hkeys & Hsync & ->)].
  { exfalso. destruct Hexit; unfold ddl_events in Hsel;
      rewrite ?elem_of_app, ?elem_of_cons, ?elem_of_nil in Hsel; intuition discriminate. }
  assert (rows = rows') as <- by (by eapply sync_table_rows_read).
  assert (inserted_count evs3 = 0 ∧ skipped_count evs3 = 0 ∧
          already_present_reports evs3 = []) as (Hk1 & Hk2 & Hk3).
  { apply fetch_existing_keys_shape in Hkeys
      as [(_ & _ & ->)|[(col & keys & _ & _ & ->)|(col & e & _ & _ & ->)]]; done. }
  count_app. rewrite Hk1, Hk2, Hk3.
  change (inserted_count (ddl_events upper table columns)) with 0.
  change (skipped_count (ddl_events upper table columns)) with 0.
  change (already_present_reports (ddl_events upper table columns)) with (@nil nat).
  change (inserted_count [EvSelectAll table (Ok rows)]) with 0.
  change (skipped_count [EvSelectAll table (Ok rows)]) with 0.
  change (already_present_reports [EvSelectAll table (Ok rows)]) with (@nil nat).
  simpl.
  rewrite !Forall_app in Hquiet. destruct Hquiet as (_ & _ & _ & Hquiet).
  apply sync_rows_shape in Hsync
    as [(e & _ & ? & _)|(new_rows & already_present & Hpart & Hshape)]; [done|].
  apply partition_loop_length in Hpart. simpl in Hpart.
  destruct Hshape as [(-> & _ & ->)|(logs & Hlogs & Hne & Hshape)].
  { count_eval. simpl in Hpart. lia. }
  destruct (skip_logs_count _ Hlogs) as (Hl1 & _ & _).
  destruct (skip_logs_quiet _ Hlogs) as (_ & _ & Hl2 & Hl3).
  destruct (skipped_summary_count (value:=value) table
              (spec_skipped_rows (length (column_names_of columns)) new_rows))
    as (Hs1 & Hs2 & _ & _ & Hs3 & _).
  pose proof (spec_valid_skipped_length (length (column_names_of columns)) new_rows)
    as Hlen.
  destruct Hshape as [(Hnil & _ & ->)|(sample & res_i & evs_i & _ & Hins & Hshape)].
  { count_app. rewrite Hl1, Hl2, Hl3, Hs1, Hs2, Hs3. rewrite Hnil in Hlen.
    count_eval. simpl in Hlen. lia. }
  destruct Hshape as [(-> & _ & ->)|(e & _ & ? & _)]; [|done].
  rewrite !Forall_app in Hquiet. destruct Hquiet as (_ & Hquiet & _).
  apply insert_shape_measures in Hins
    as (Hi1 & Hi2 & _ & _ & _ & [(_ & Hi3 & _)|(_ & _ & Herr & _)]).
  - count_app. rewrite Hl1, Hl2, Hl3, Hs1, Hs2, Hs3, Hi1, Hi2, Hi3. count_eval. lia.
  - exfalso. destruct (Herr eq_refl) as (e & Hin & _).
    rewrite Forall_forall in Hquiet. by apply Hquiet in Hin.
Qed.

(** X5. A pass that logged ["Error creating table"] or ["Failed to fetch
    from SQLite table"] stopped there: that line is its last event, it
    returns normally, and it made no key query, no insert and no rollback;
    after ["Error creating table"] it did not read the source rows either. *)
Theorem sync_table_setup_error table tables_to_import s res s' evs :
  sync_table upper table tables_to_import s = (res, s', evs) →
  Exists (λ ev, is_setup_error ev) evs →
  res = Ok tt ∧
  (∃ before ev, evs = before ++ [ev] ∧ is_setup_error ev) ∧
  key_query_count evs = 0 ∧ insert_count evs = 0 ∧ rollback_count evs = 0 ∧
  (∀ e, EvLog (MsgErrorCreating table e) ∈ evs → ∀ r, EvSelectAll table r ∉ evs).
Proof.
  intros Hrun Herr.
  apply sync_table_shape in Hrun
    as [(-> & Hexit)|(columns & rows & ex & s2 & s3 & evs3 & evs4 & _ & Hkeys & Hsync & ->)].
  - split; [done|]. destruct Hexit.
    + exfalso. apply Exists_exists in Herr as (ev & Hev%list_elem_of_singleton & Hset).
      by subst.
    + split_and!; try done; [by eexists [_], _|].
      intros e0 _ r. rewrite !elem_of_cons, elem_of_nil. intuition discriminate.
    + split_and!; try done; [by eexists [_; _; _], _|].
      intros e0 _ r. rewrite !elem_of_cons, elem_of_nil. intuition discriminate.
    + split_and!; try done; [by eexists [_; _; _; _], _|].
      intros e0 _ r. rewrite !elem_of_cons, elem_of_nil. intuition discriminate.
    + split_and!; try done; [by eexists [_; _; _; _; _], _|].
      intros e0 He0. exfalso. unfold ddl_events in He0.
      rewrite !elem_of_app, !elem_of_cons, elem_of_nil in He0. intuition discriminate.
  - exfalso.
    apply sync_rows_measures in Hsync as (Hno & _).
    rewrite !Exists_app in Herr. destruct Herr as [Herr|[Herr|[Herr|Herr]]].
    + apply Exists_exists in Herr as (ev & Hev & Hset). unfold ddl_events in Hev.
      rewrite !elem_of_cons, elem_of_nil in Hev.
      destruct Hev as [->|[->|[->|[->|[]]]]]; done.
    + apply Exists_exists in Herr as (ev & Hev%list_elem_of_singleton & Hset). by subst.
    + apply fetch_existing_keys_shape in Hkeys
        as [(_ & _ & ->)|[(col & keys & _ & _ & ->)|(col & e0 & _ & _ & ->)]];
        apply Exists_exists in Herr as (ev & Hev & Hset);
        rewrite ?elem_of_cons, elem_of_nil in Hev;
        repeat (destruct Hev as [->|Hev]; [done|]); done.
    + apply Exists_exists in Herr as (ev & Hev & Hset).
      rewrite Forall_forall in Hno. apply Hno in Hev. by rewrite Hev in Hset.
Qed.

(** X6. A pass that logged ["Error inserting into"] rolled the
    destination transaction back, successfully and once, reports no inserted
    row, logs as sample the first row of the insert statement, and still
    returns normally with the already-present line as its last event. *)
Theorem sync_table_insert_error table tables_to_import s res s' evs e :
  sync_table upper table tables_to_import s = (res, s', evs) →
  EvLog (MsgInsertError table e) ∈ evs →
  res = Ok tt ∧ rollback_count evs = 1 ∧ EvRollback (Ok tt) ∈ evs ∧ inserted_count evs = 0 ∧
  (∃ query sample rest reply,
     EvExecuteMany query (sample :: rest) reply ∈ evs ∧ EvLog (MsgSampleRow sample) ∈ evs) ∧
  (∃ before already_present,
     evs = before ++ [EvLog (MsgAlreadyExisted already_present table)]).
Proof.
  intros Hrun Herr.
  apply sync_table_shape in Hrun
    as [(_ & Hexit)|(columns & rows & ex & s2 & s3 & evs3 & evs4 & _ & Hkeys & Hsync & ->)].
  { exfalso. destruct Hexit; unfold ddl_events in Herr;
      rewrite ?elem_of_app, ?elem_of_cons, ?elem_of_nil in Herr; intuition discriminate. }
  assert (inserted_count evs3 = 0 ∧ rollback_count evs3 = 0 ∧
          EvLog (MsgInsertError table e) ∉ evs3) as (Hk1 & Hk2 & Hk3).
  { apply fetch_existing_keys_shape in Hkeys
      as [(_ & _ & ->)|[(col & keys & _ & _ & ->)|(col & e0 & _ & _ & ->)]];
      (split_and!; [done..|]); rewrite ?elem_of_cons, elem_of_nil; intuition discriminate. }
  assert (EvLog (MsgInsertError table e) ∈ evs4) as Herr4.
  { unfold ddl_events in Herr.
    rewrite !elem_of_app, !elem_of_cons, elem_of_nil in Herr. intuition discriminate. }
  clear Herr.
  apply sync_rows_shape in Hsync
    as [(e0 & _ & _ & ->)|(new_rows & already_present & _ & Hshape)];
    [by apply elem_of_nil in Herr4|].
  destruct Hshape as [(_ & _ & ->)|(logs & Hlogs & _ & Hshape)].
  { rewrite !elem_of_cons, elem_of_nil in Herr4. intuition discriminate. }
  assert (EvLog (MsgInsertError table e) ∉ logs) as Hnolog.
  { intros Hin. rewrite Forall_forall in Hlogs. by apply Hlogs in Hin. }
  assert (EvLog (value:=value) (MsgInsertError table e)
          ∉ skipped_summary table
              (spec_skipped_rows (length (column_names_of columns)) new_rows)) as Hnosum.
  { unfold skipped_summary. case_bool_decide;
      rewrite ?elem_of_cons, elem_of_nil; intuition discriminate. }
  destruct (skip_logs_count _ Hlogs) as (_ & _ & Hl1).
  destruct (skip_logs_quiet _ Hlogs) as (_ & _ & Hl2 & _).
  destruct (skipped_summary_count (value:=value) table
              (spec_skipped_rows (length (column_names_of columns)) new_rows))
    as (_ & Hs1 & _ & Hs2 & _).
  destruct Hshape as [(_ & _ & ->)|(sample & res_i & evs_i & Hhead & Hins & Hshape)].
  { rewrite !elem_of_app, !elem_of_cons, elem_of_nil in Herr4. intuition discriminate. }
  destruct (spec_valid_rows (length (column_names_of columns)) new_rows)
    as [|sample' rest] eqn:Hvalid; [done|]. injection Hhead as ->.
  pose proof (insert_shape_measures _ _ _ _ _ _ Hins)
    as (_ & _ & _ & _ & _ & Hcases).
  destruct Hshape as [(-> & -> & ->)|(e0 & -> & -> & ->)].
  - assert (EvLog (MsgInsertError table e) ∈ evs_i) as Herri.
    { rewrite !elem_of_app, !elem_of_cons, elem_of_nil in Herr4. intuition discriminate. }
    destruct Hcases as [(_ & _ & _ & Hquiet)|(Hi1 & Hi2 & Hlogged & _)].
    { rewrite Forall_forall in Hquiet. by apply Hquiet in Herri. }
    destruct (Hlogged eq_refl) as (e1 & _ & Hroll & Hsample).
    split_and!; [done| | | | |].
    + count_app. rewrite Hk2, Hl1, Hi2, Hs2. by count_eval.
    + rewrite !elem_of_app. tauto.
    + count_app. rewrite Hk1, Hl2, Hi1, Hs1. by count_eval.
    + exists (insert_query table (column_names_of columns)), sample, rest.
      assert (∃ reply, EvExecuteMany (insert_query table (column_names_of columns))
                         (sample :: rest) reply ∈ evs_i) as [reply Hreply]
        by (inversion Hins; eexists; apply list_elem_of_here).
      exists reply. rewrite !elem_of_app. tauto.
    + eexists _, already_present. by rewrite !app_assoc.
  - exfalso. rewrite elem_of_app in Herr4. destruct Herr4 as [?|Herri]; [done|].
    inversion Hins; subst; rewrite !elem_of_cons, elem_of_nil in Herri;
      intuition discriminate.
Qed.

Lemma spec_rows_all_present idx existing_keys rows :
  Forall (λ r, key_present idx existing_keys r) rows →
  spec_new_rows idx existing_keys rows = [] ∧
  spec_already_present idx existing_keys rows = length rows.
Proof.
  unfold spec_new_rows, spec_already_present.
  induction 1 as [|r rows Hr _ [IH1 IH2]]; [done|].
  rewrite filter_cons_False by tauto. rewrite filter_cons_True by done.
  simpl. by rewrite IH1, IH2.
Qed.

(** X7. When the destination already holds the dedup value of every
    source row, the pass inserts nothing: it sends no insert statement,
    returns normally and reports every source row as already present. *)
Theorem sync_table_all_present table tables_to_import s res s' evs
    columns rows col keys idx :
  sync_table upper table tables_to_import s = (res, s', evs) →
  EvTableInfo table (Ok columns) ∈ evs →
  EvSelectAll table (Ok rows) ∈ evs →
  EvSelectColumn col table (Ok keys) ∈ evs →
  list_index col (column_names_of columns) = Some idx →
  Forall (λ r, ∃ v, r !! idx = Some v ∧ v ∈ keys) rows →
  res = Ok tt ∧ insert_count evs = 0 ∧ inserted_count evs = 0 ∧
  already_present_reports evs = [length rows].
Proof.
  intros Hrun Hinfo Hsel Hquery Hidx Hall.
  apply sync_table_shape in Hrun
    as [(_ & Hexit)|(columns' & rows' & ex & s2 & s3 & evs3 & evs4 & _ & Hkeys & Hsync & ->)].
  { exfalso. destruct Hexit; unfold ddl_events in Hsel;
      rewrite ?elem_of_app, ?elem_of_cons, ?elem_of_nil in Hsel; intuition discriminate. }
  assert (rows = rows') as <- by (by eapply sync_table_rows_read).
  pose proof (sync_rows_no_read table (column_names_of columns')
                (select_dedup_col (column_names_of columns')) ex rows s3) as Hno.
  rewrite Hsync in Hno. simpl in Hno. rewrite Forall_forall in Hno.
  assert (columns = columns') as <-.
  { unfold ddl_events in Hinfo.
    rewrite !elem_of_app, !elem_of_cons, elem_of_nil in Hinfo.
    destruct Hinfo as [[Hinfo|Hinfo]|[Hinfo|[Hinfo|Hinfo]]].
    - by injection Hinfo.
    - intuition discriminate.
    - intuition discriminate.
    - apply fetch_existing_keys_shape in Hkeys
        as [(_ & _ & ->)|[(col' & keys' & _ & _ & ->)|(col' & e & _ & _ & ->)]];
        rewrite ?elem_of_cons, elem_of_nil in Hinfo; intuition discriminate.
    - by apply Hno in Hinfo. }
  assert (select_dedup_col (column_names_of columns) = Some col ∧
          ex = list_to_set keys ∧ evs3 = [EvSelectColumn col table (Ok keys)])
    as (Hcol & -> & ->).
  { unfold ddl_events in Hquery.
    rewrite !elem_of_app, !elem_of_cons, elem_of_nil in Hquery.
    destruct Hquery as [Hquery|[Hquery|[Hquery|Hquery]]].
    - intuition discriminate.
    - intuition discriminate.
    - apply fetch_existing_keys_shape in Hkeys
        as [(_ & _ & ->)|[(col' & keys' & Hcol' & -> & ->)|(col' & e & _ & _ & ->)]];
        rewrite ?elem_of_cons, elem_of_nil in Hquery.
      + done.
      + destruct Hquery as [Hquery|[]]. by injection Hquery as -> ->.
      + intuition discriminate.
    - by apply Hno in Hquery. }
  rewrite Hcol in Hsync.
  assert (Forall (λ r, key_present idx (list_to_set keys) r) rows) as Hpresent.
  { eapply Forall_impl; [exact Hall|]. intros r (v & Hv & Hin). unfold key_present.
    rewrite Hv. apply bool_decide_pack. by apply elem_of_list_to_set. }
  assert (Forall (λ r, is_Some (r !! idx)) rows) as Hsome.
  { eapply Forall_impl; [exact Hall|]. intros r (v & Hv & _). by eexists. }
  destruct (spec_rows_all_present _ _ _ Hpresent) as [Hnew Hap].
  pose proof (sync_rows_run table (column_names_of columns) (Some col)
                (list_to_set keys) rows s3) as Hrows.
  unfold partition_rows in Hrows.
  rewrite (partition_loop_Some _ _ idx) in Hrows by done.
  rewrite Hnew, Hap in Hrows. simpl in Hrows. rewrite Hrows in Hsync.
  injection Hsync as <- <- <-.
  split_and!; [done|by count_eval..].
Qed.

Lemma sync_all_skips tables tables_to_import s :
  Forall (λ table, table ∉ tables_to_import) tables →
  sync_all upper tables tables_to_import s
  = (Ok tt, s, (λ table, EvLog (MsgSkipping table)) <$> tables).
Proof.
  induction 1 as [|table tables Hout _ IH]; [done|].
  rewrite sync_all_cons, (sync_table_excluded upper) by done. by rewrite IH.
Qed.

(** X8. When no table of the list is in the inclusion set, the loop of
    [main] logs one skip line per table, in order, calls neither store and
    leaves both as they were. *)
Theorem sync_all_excluded tables tables_to_import s :
  Forall (λ table, table ∉ tables_to_import) tables →
  sync_all upper tables tables_to_import s
  = (Ok tt, s, (λ table, EvLog (MsgSkipping table)) <$> tables).
Proof. apply sync_all_skips. Qed.

End PassInvariants.

(** ** The snapshot of the existing keys within a pass *)

Section SnapshotPass.
Context {value : Type} `{Countable value}.
Context {S D : Type} `{!SourceStore value S} `{!DestStore value D}.
Variable upper : string → string.
Implicit Types (r t : list value) (rows new_rows : list (list value)).
Implicit Types (existing_keys : gset value) (s : stores S D) (evs : list (event value)).
Implicit Types (table : string) (tables_to_import : gset string).



End SnapshotPass.

(** ** Runs on the concrete stores *)

Lemma partition_rows_full_rows_witness :
  ∃ new_rows already_present,
    partition_rows ["row_id"; "weight"] (select_dedup_col ["row_id"; "weight"])
      {[ 1%Z ]} [[1; 70]; [3; 72; 0]; [4; 73]]%Z
    = Ok (new_rows, already_present) ∧
    length new_rows + already_present = 3.
Proof.
  apply (partition_rows_full_rows (value:=Z) ["row_id"; "weight"] {[ 1%Z ]}
           [[1; 70]; [3; 72; 0]; [4; 73]]%Z).
  repeat constructor.
Defined.

Lemma sync_table_accounts_witness :
  let evs := (sync_table ascii_upper "weight_record_table" DEFAULT_TABLES
                (Stores mixed_db seeded_pg)).2 in
  inserted_count evs = 2 ∧ skipped_count evs = 1 ∧ already_present_reports evs = [1] ∧
  inserted_count evs + skipped_count evs + sum_list (already_present_reports evs) = 4.
Proof.
  intros evs. split_and!; [reflexivity..|].
  apply (sync_table_accounts (S:=demo_sqlite) (D:=demo_pg) ascii_upper
           "weight_record_table" DEFAULT_TABLES (Stores mixed_db seeded_pg)
           (Stores mixed_db (DemoPg (Ok [1%Z]) true [[[3; 72]; [4; 73]]%Z])) evs
           [[1; 70]; [2]; [3; 72]; [4; 73]]%Z).
  - reflexivity.
  - vm_compute. repeat constructor.
  - vm_compute. do 4 apply list_elem_of_further. apply list_elem_of_here.
Defined.

Lemma sync_table_setup_error_witness :
  let evs := (sync_table ascii_upper "distance_record_table" DEFAULT_TABLES
                (Stores short_row_db empty_pg)).2 in
  (∃ before ev, evs = before ++ [ev] ∧ is_setup_error ev) ∧
  key_query_count evs = 0 ∧ insert_count evs = 0 ∧ rollback_count evs = 0.
Proof.
  intros evs.
  destruct (sync_table_setup_error (S:=demo_sqlite) (D:=demo_pg) ascii_upper
              "distance_record_table" DEFAULT_TABLES (Stores short_row_db empty_pg)
              (Ok tt) (Stores short_row_db empty_pg) evs)
    as (_ & Hlast & Hkeys & Hins & Hroll & _).
  - reflexivity.
  - vm_compute. do 5 apply Exists_cons_tl. by apply Exists_cons_hd.
  - by split_and!.
Defined.

Lemma sync_table_insert_error_witness :
  let evs := (sync_table ascii_upper "weight_record_table" DEFAULT_TABLES
                (Stores mixed_db refusing_pg)).2 in
  rollback_count evs = 1 ∧ inserted_count evs = 0 ∧
  EvLog (MsgSampleRow [1; 70]%Z) ∈ evs ∧
  ∃ before already_present,
    evs = before ++ [EvLog (MsgAlreadyExisted already_present "weight_record_table")].
Proof.
  intros evs.
  destruct (sync_table_insert_error (S:=demo_sqlite) (D:=demo_pg) ascii_upper
              "weight_record_table" DEFAULT_TABLES (Stores mixed_db refusing_pg)
              (Ok tt) (Stores mixed_db refusing_pg) evs (StoreError "insert refused"))
    as (_ & Hroll & _ & Hins & _ & Hlast).
  - reflexivity.
  - vm_compute. do 10 apply list_elem_of_further. apply list_elem_of_here.
  - split_and!; [done..| |done].
    vm_compute. do 11 apply list_elem_of_further. apply list_elem_of_here.
Defined.

Lemma sync_table_all_present_witness :
  let evs := (sync_table ascii_upper "weight_record_table" DEFAULT_TABLES
                (Stores short_row_db (DemoPg (Ok [2; 1]%Z) true []))).2 in
  insert_count evs = 0 ∧ inserted_count evs = 0 ∧ already_present_reports evs = [2].
Proof.
  intros evs.
  destruct (sync_table_all_present (S:=demo_sqlite) (D:=demo_pg) ascii_upper
              "weight_record_table" DEFAULT_TABLES
              (Stores short_row_db (DemoPg (Ok [2; 1]%Z) true []))
              (Ok tt) (Stores short_row_db (DemoPg (Ok [2; 1]%Z) true [])) evs
              [Column "row_id" (Some "INTEGER"); Column "weight" (Some "REAL")]
              [[1; 70]; [2; 71]]%Z "row_id" [2; 1]%Z 0)
    as (_ & Hins & Hcount & Hrep).
  - reflexivity.
  - vm_compute. apply list_elem_of_here.
  - vm_compute. do 4 apply list_elem_of_further. apply list_elem_of_here.
  - vm_compute. do 5 apply list_elem_of_further. apply list_elem_of_here.
  - reflexivity.
  - repeat constructor; eexists; (split; [reflexivity|set_solver]).
  - by split_and!.
Defined.


Lemma sync_all_excluded_witness :
  sync_all ascii_upper ["android_metadata"; "sqlite_sequence"] DEFAULT_TABLES
    (Stores short_row_db empty_pg)
  = (Ok tt, Stores short_row_db empty_pg,
     [EvLog (MsgSkipping "android_metadata"); EvLog (MsgSkipping "sqlite_sequence")]).
Proof.
  apply (sync_all_excluded (S:=demo_sqlite) (D:=demo_pg) ascii_upper
           ["android_metadata"; "sqlite_sequence"] DEFAULT_TABLES
           (Stores short_row_db empty_pg)).
  repeat constructor; compute_done.
Defined.

(** * Configuration *)

Lemma is_set_spec (env : gmap string string) (var : string) :
  is_set env var = true ↔ ∃ v, env !! var = Some v ∧ v ≠ EmptyString.
Proof.
  unfold is_set. destruct (env !! var) as [v|].
  - rewrite bool_decide_eq_true. split; [by exists v | by intros (? & [= <-] & ?)].
  - split; [done | by intros (? & ? & ?)].
Qed.

Lemma check_required_env_ok (env : gmap string string) :
  (check_required_env env).1 = true ↔
  ∀ var, var ∈ REQUIRED_ENV_VARS → ∃ v, env !! var = Some v ∧ v ≠ EmptyString.
Proof.
  unfold check_required_env.
  destruct (filter (λ var, ¬ is_set env var) REQUIRED_ENV_VARS)
    as [|var0 missing] eqn:Hmissing; simpl.
  - split; [|done]. intros _ var Hvar. apply is_set_spec.
    destruct (is_set env var) eqn:Hset; [done|]. exfalso.
    eapply (filter_nil_not_elem_of _ _ var Hmissing); [|done].
    rewrite Hset. simpl. tauto.
  - split; [done|]. intros Hall.
    assert (var0 ∈ filter (λ var, ¬ is_set env var) REQUIRED_ENV_VARS) as Hin
      by (rewrite Hmissing; apply list_elem_of_here).
    apply list_elem_of_filter in Hin as [Hset Hin].
    apply Hall, is_set_spec in Hin. rewrite Hin in Hset. simpl in Hset. tauto.
Qed.

(** X9. [check_required_env] returns true exactly when each of the seven
    required variables is set to a non-empty text, and then prints nothing;
    a variable set to the empty text counts as missing. When it returns
    false it prints the header, one line per missing variable in the order
    of [REQUIRED_ENV_VARS], and the hint. *)
Theorem check_required_env_spec (env : gmap string string) :
  ((check_required_env env).1 = true ↔
   ∀ var, var ∈ REQUIRED_ENV_VARS → ∃ v, env !! var = Some v ∧ v ≠ EmptyString) ∧
  ((check_required_env env).1 = true → (check_required_env env).2 = []) ∧
  (∀ var, var ∈ REQUIRED_ENV_VARS → env !! var = Some EmptyString →
     (check_required_env env).1 = false) ∧
  ((check_required_env env).1 = false →
   ∃ missing,
     missing ≠ [] ∧ missing `sublist_of` REQUIRED_ENV_VARS ∧
     (∀ var, var ∈ missing ↔ var ∈ REQUIRED_ENV_VARS ∧ is_set env var = false) ∧
     (check_required_env env).2
     = ["Missing required environment variables:"] ++
       ((λ var, "  - " +:+ var) <$> missing) ++
       ["Set them in your .env or environment and try again."]).
Proof.
  unfold check_required_env.
  destruct (filter (λ var, ¬ is_set env var) REQUIRED_ENV_VARS)
    as [|var0 missing] eqn:Hmissing; simpl.
  - assert (∀ var, var ∈ REQUIRED_ENV_VARS → is_set env var = true) as Hall.
    { intros var Hvar. destruct (is_set env var) eqn:Hset; [done|]. exfalso.
      eapply (filter_nil_not_elem_of _ _ var Hmissing); [|done].
      rewrite Hset. simpl. tauto. }
    split_and!; [|done| |done].
    + split; [|done]. intros _ var Hvar. by apply is_set_spec, Hall.
    + intros var Hvar Hempty. apply Hall, is_set_spec in Hvar as (v & Hv & Hne).
      congruence.
  - assert (var0 ∈ REQUIRED_ENV_VARS ∧ is_set env var0 = false) as [Hvar0 Hset0].
    { assert (var0 ∈ filter (λ var, ¬ is_set env var) REQUIRED_ENV_VARS) as Hin
        by (rewrite Hmissing; apply list_elem_of_here).
      apply list_elem_of_filter in Hin as [Hset Hin]. split; [done|].
      by destruct (is_set env var0). }
    split_and!; [|done| |].
    + split; [done|]. intros Hall. apply Hall, is_set_spec in Hvar0. congruence.
    + done.
    + intros _. exists (var0 :: missing). split_and!; [done| | |done].
      * rewrite <- Hmissing. apply sublist_filter.
      * intros var. rewrite <- Hmissing, list_elem_of_filter.
        destruct (is_set env var); simpl; intuition (discriminate || done).
Qed.

Lemma check_required_env_spec_witness :
  (check_required_env demo_env).1 = true ∧
  (check_required_env (<["PGPASSWORD" := EmptyString]> (delete "PGHOST" demo_env))).1
  = false ∧
  ∃ missing,
    ("PGPASSWORD" ∈ missing) ∧
    (check_required_env (<["PGPASSWORD" := EmptyString]> (delete "PGHOST" demo_env))).2
    = ["Missing required environment variables:"] ++
      ((λ var, "  - " +:+ var) <$> missing) ++
      ["Set them in your .env or environment and try again."].
Proof.
  split.
  - apply (check_required_env_spec demo_env). intros var Hvar.
    unfold REQUIRED_ENV_VARS in Hvar.
    repeat (apply elem_of_cons in Hvar as [->|Hvar]; [by eexists|]).
    by apply elem_of_nil in Hvar.
  - destruct (check_required_env_spec
                (<["PGPASSWORD" := EmptyString]> (delete "PGHOST" demo_env)))
      as (_ & _ & Hempty & Hprinted).
    assert ("PGPASSWORD" ∈ REQUIRED_ENV_VARS) as Hreq
      by (unfold REQUIRED_ENV_VARS; do 6 apply list_elem_of_further;
          apply list_elem_of_here).
    pose proof (Hempty "PGPASSWORD" Hreq eq_refl) as Hfalse.
    split; [done|].
    destruct (Hprinted Hfalse) as (missing & _ & _ & Hin & Heq).
    exists missing. split; [|done]. by apply Hin.
Defined.

Lemma split_comma_not_nil (s : string) : split_comma s ≠ [].
Proof.
  destruct s as [|c s]; simpl; [done|].
  destruct (Ascii.eqb c ","%char); [done|]. by destruct (split_comma s).
Qed.

(** Joining the pieces with commas gives the text back. *)
Lemma split_comma_join (s : string) : join "," (split_comma s) = s.
Proof.
  unfold join. induction s as [|c s IH]; [done|]. simpl.
  pose proof (split_comma_not_nil s) as Hne.
  destruct (Ascii.eqb c ","%char) eqn:Hc.
  - apply Ascii.eqb_eq in Hc as ->.
    destruct (split_comma s) as [|piece pieces]; [done|].
    change (String.concat "," (EmptyString :: piece :: pieces))
      with (String "," (String.concat "," (piece :: pieces))).
    by rewrite IH.
  - destruct (split_comma s) as [|piece pieces]; [done|].
    destruct pieces as [|piece' pieces]; simpl in *; by rewrite <- IH.
Qed.

Section ConfigProperties.
Variable strip : string → string.
Variable py_int : string → option Z.

(** X10. The inclusion set is [DEFAULT_TABLES] when [TABLES_TO_IMPORT]
    is unset or strips to the empty text. Otherwise it is the set of the
    stripped comma-separated pieces that are not empty, so it is empty when
    every piece is blank: such a setting selects no table at all. The empty
    name is never in the inclusion set. *)
Theorem tables_from_env_spec (env : gmap string string) :
  let tables_env := strip (default EmptyString (env !! "TABLES_TO_IMPORT")) in
  (tables_env = EmptyString → tables_from_env strip env = DEFAULT_TABLES) ∧
  (tables_env ≠ EmptyString →
   ∀ t, t ∈ tables_from_env strip env ↔
        t ≠ EmptyString ∧ ∃ piece, piece ∈ split_comma tables_env ∧ t = strip piece) ∧
  (tables_env ≠ EmptyString →
   (∀ piece, piece ∈ split_comma tables_env → strip piece = EmptyString) →
   tables_from_env strip env = ∅) ∧
  (EmptyString ∉ tables_from_env strip env).
Proof.
  intros tables_env. unfold tables_from_env. fold tables_env.
  assert (∀ t, t ∈ (list_to_set (filter (λ t, t ≠ EmptyString)
                                   (strip <$> split_comma tables_env)) : gset string) ↔
               t ≠ EmptyString ∧ ∃ piece, piece ∈ split_comma tables_env ∧ t = strip piece)
    as Hmem.
  { intros t. rewrite elem_of_list_to_set, list_elem_of_filter, list_elem_of_fmap.
    split; intros [Hne (piece & ? & ?)]; (split; [done|]); exists piece; done. }
  split_and!.
  - intros ->. by case_decide.
  - intros Hne t. case_decide; [done|]. apply Hmem.
  - intros Hne Hblank. case_decide; [done|].
    apply set_eq. intros t. rewrite Hmem. split; [|by intros ?%elem_of_empty].
    intros [Ht (piece & Hpiece & ->)]. by apply Hblank in Hpiece.
  - case_decide.
    + compute_done.
    + rewrite Hmem. by intros [? _].
Qed.

Lemma get_config_checked (env : gmap string string) :
  (check_required_env env).1 = true →
  ∃ path log_file text,
    env !! "SQLITE_DB_PATH" = Some path ∧ path ≠ EmptyString ∧
    env !! "LOG_FILE" = Some log_file ∧ log_file ≠ EmptyString ∧
    env !! "PGPORT" = Some text ∧
    match py_int text with
    | None => get_config strip py_int env = Raises (IntValueError text)
    | Some port =>
        ∃ config, cfg_port config = port ∧
          get_config strip py_int env
          = Returns (Some path, Some log_file, config, tables_from_env strip env)
    end.
Proof.
  intros Hok. rewrite check_required_env_ok in Hok.
  destruct (Hok "SQLITE_DB_PATH") as (path & Hpath & Hpath');
    [apply list_elem_of_here|].
  destruct (Hok "LOG_FILE") as (log_file & Hlog & Hlog');
    [apply list_elem_of_further, list_elem_of_here|].
  destruct (Hok "PGPORT") as (text & Hport & _);
    [do 3 apply list_elem_of_further; apply list_elem_of_here|].
  exists path, log_file, text. split_and!; [done..|].
  unfold get_config. rewrite Hport, Hpath, Hlog.
  destruct (py_int text) as [port|]; [|done].
  eexists. split; [|reflexivity]. reflexivity.
Qed.

(** X11. Once [check_required_env] has succeeded, [get_config] does not
    fail on a missing variable: the source path and the log file are set and
    not empty, and the only exception it can raise is the [ValueError] of
    [int] on a [PGPORT] that is not an integer. *)
Theorem get_config_after_check (env : gmap string string) :
  (check_required_env env).1 = true →
  ∃ path log_file text,
    env !! "SQLITE_DB_PATH" = Some path ∧ path ≠ EmptyString ∧
    env !! "LOG_FILE" = Some log_file ∧ log_file ≠ EmptyString ∧
    env !! "PGPORT" = Some text ∧
    match py_int text with
    | None => get_config strip py_int env = Raises (IntValueError text)
    | Some port =>
        ∃ config, cfg_port config = port ∧
          get_config strip py_int env
          = Returns (Some path, Some log_file, config, tables_from_env strip env)
    end.
Proof. apply get_config_checked. Qed.

End ConfigProperties.

Lemma tables_from_env_spec_witness :
  tables_from_env ascii_strip (<["TABLES_TO_IMPORT" := "  "]> demo_env) = DEFAULT_TABLES ∧
  ("weight" ∈ tables_from_env ascii_strip
                (<["TABLES_TO_IMPORT" := " steps, ,weight "]> demo_env)) ∧
  tables_from_env ascii_strip (<["TABLES_TO_IMPORT" := " , "]> demo_env) = ∅.
Proof.
  split_and!.
  - by apply (tables_from_env_spec ascii_strip (<["TABLES_TO_IMPORT" := "  "]> demo_env)).
  - apply (tables_from_env_spec ascii_strip
             (<["TABLES_TO_IMPORT" := " steps, ,weight "]> demo_env)); [done|].
    split; [done|]. exists "weight". split; [|done].
    vm_compute. do 2 apply list_elem_of_further. apply list_elem_of_here.
  - apply (tables_from_env_spec ascii_strip (<["TABLES_TO_IMPORT" := " , "]> demo_env));
      [done|].
    intros piece Hpiece. vm_compute in Hpiece.
    repeat (apply elem_of_cons in Hpiece as [->|Hpiece]; [done|]).
    by apply elem_of_nil in Hpiece.
Defined.

Lemma get_config_after_check_witness :
  (∃ config, cfg_port config = 5432%Z ∧
     get_config ascii_strip demo_int demo_env
     = Returns (Some "/data/health.db", Some "/var/log/sync.log", config,
                tables_from_env ascii_strip demo_env)) ∧
  get_config ascii_strip demo_int (<["PGPORT" := "5432/tcp"]> demo_env)
  = Raises (IntValueError "5432/tcp").
Proof.
  split.
  - destruct (get_config_after_check ascii_strip demo_int demo_env)
      as (path & log_file & text & Hpath & _ & Hlog & _ & Hport & Hcfg); [reflexivity|].
    injection Hpath as <-. injection Hlog as <-. injection Hport as <-. exact Hcfg.
  - destruct (get_config_after_check ascii_strip demo_int
                (<["PGPORT" := "5432/tcp"]> demo_env))
      as (path & log_file & text & _ & _ & _ & _ & Hport & Hcfg); [reflexivity|].
    injection Hport as <-. exact Hcfg.
Defined.

(** * [log] *)

(** X12. Without a non-empty [LOG_FILE], [log] writes no file and prints the
    message behind the [NO_LOG_FILE] tag. Once [check_required_env] has
    succeeded this cannot happen: every [log] appends the stamped message
    to the file named by [LOG_FILE] and then prints it, after creating the
    directory of the file when that directory has a name and does not
    exist. *)
Theorem log_actions_spec (dirname : string → string) (dir_exists : string → bool)
    (timestamp : string) (env : gmap string string) (message : string) :
  (is_set env "LOG_FILE" = false →
   log_actions dirname dir_exists timestamp env message
   = [LogPrint ("[NO_LOG_FILE] " +:+ message)]) ∧
  ((check_required_env env).1 = true →
   ∃ log_file before,
     env !! "LOG_FILE" = Some log_file ∧ log_file ≠ EmptyString ∧
     log_actions dirname dir_exists timestamp env message
     = before ++ [LogAppend log_file ("[" +:+ timestamp +:+ "] " +:+ message +:+ newline);
                  LogPrint message] ∧
     ((before = [] ∧ (dirname log_file = EmptyString ∨ dir_exists (dirname log_file) = true)) ∨
      (before = [LogMakedirs (dirname log_file)] ∧ dirname log_file ≠ EmptyString ∧
       dir_exists (dirname log_file) = false))).
Proof.
  unfold log_actions. split.
  - by intros ->.
  - intros Hok. rewrite check_required_env_ok in Hok.
    destruct (Hok "LOG_FILE") as (log_file & Hlog & Hne);
      [apply list_elem_of_further, list_elem_of_here|].
    assert (is_set env "LOG_FILE" = true) as -> by (apply is_set_spec; eauto).
    rewrite Hlog. simpl. eexists log_file, _. split_and!; [done..|].
    case_bool_decide as Hdir; simpl.
    + destruct (dir_exists (dirname log_file)) eqn:Hexists; simpl.
      * left. split; [done|]. by right.
      * right. by split_and!.
    + left. split; [done|]. left.
      by destruct (decide (dirname log_file = EmptyString)).
Qed.

Lemma log_actions_spec_witness :
  log_actions (λ _, "/var/log") (λ _, false) "2024-05-01 10:00:00"
    (delete "LOG_FILE" demo_env) "Starting selective table sync..."
  = [LogPrint "[NO_LOG_FILE] Starting selective table sync..."] ∧
  ∃ before,
    log_actions (λ _, "/var/log") (λ _, false) "2024-05-01 10:00:00" demo_env
      "Starting selective table sync..."
    = before ++
      [LogAppend "/var/log/sync.log"
         ("[" +:+ "2024-05-01 10:00:00" +:+ "] " +:+ "Starting selective table sync..."
          +:+ newline);
       LogPrint "Starting selective table sync..."].
Proof.
  split.
  - by apply (log_actions_spec (λ _, "/var/log") (λ _, false) "2024-05-01 10:00:00"
             (delete "LOG_FILE" demo_env)).
  - destruct (log_actions_spec (λ _, "/var/log") (λ _, false) "2024-05-01 10:00:00"
                demo_env "Starting selective table sync...") as [_ Hset].
    destruct Hset as (log_file & before & Hlog & _ & Hrun & _); [reflexivity|].
    injection Hlog as <-. by exists before.
Defined.

(** * [main] *)

Section MainProperties.
Context {value : Type} `{Countable value}.
Context {S D : Type} `{!SourceStore value S} `{!DestStore value D} `{!Platform S D}.
Variable upper : string → string.
Variable strip : string → string.
Variable py_int : string → option Z.
Implicit Types (env : gmap string string) (evs : list (run_event value)).

(** Lines 229-232 end with the completion line or with a failed [close()]. *)
Lemma close_all_shape (sqlite_db : S) (pg_db : D) closed
    (closing : list (run_event value)) :
  close_all sqlite_db pg_db = (closed, closing) →
  (closed = Returns tt ∧ closing = closing_events) ∨
  ∃ e, closed = Raises (CallError e) ∧
       (closing = [RunPgCursorClose (Raise e)] ∨
        closing = [RunPgCursorClose (Ok tt); RunPgConnClose (Raise e)] ∨
        closing = [RunPgCursorClose (Ok tt); RunPgConnClose (Ok tt);
                   RunSqliteClose (Raise e)]).
Proof.
  unfold close_all.
  destruct (pg_cursor_close pg_db) as [[[]|e] pg_db1].
  2: { intros [= <- <-]. right. exists e. by auto. }
  destruct (pg_conn_close pg_db1) as [[[]|e] pg_db2].
  2: { intros [= <- <-]. right. exists e. by auto. }
  destruct (sqlite_conn_close sqlite_db) as [[[]|e] sqlite_db1].
  2: { intros [= <- <-]. right. exists e. by auto. }
  intros [= <- <-]. by left.
Qed.

(** The runs of lines 209-232. *)
Lemma run_sync_shape path config tables_to_import outcome evs :
  run_sync upper path config tables_to_import = (outcome, evs) →
  (∃ e, outcome = Raises (CallError e) ∧
        evs = [RunLog MsgStarting; RunSqliteConnect path (Raise e)]) ∨
  (∃ e r, outcome = match r with Ok _ => Returns tt | Raise e' => Raises (CallError e') end ∧
          evs = [RunLog MsgStarting; RunSqliteConnect path (Ok tt);
                 RunPgConnect config (Raise e); RunLog (MsgPgConnectError e);
                 RunSqliteClose r]) ∨
  (∃ e, outcome = Raises (CallError e) ∧
        evs = [RunLog MsgStarting; RunSqliteConnect path (Ok tt);
               RunPgConnect config (Ok tt); RunListTables (Raise e)]) ∨
  (∃ all_tables sqlite_db pg_db sqlite_db1 s' sevs closing,
     sqlite_connect path = Ok sqlite_db ∧ pg_connect config = Ok pg_db ∧
     src_list_tables sqlite_db = (Ok all_tables, sqlite_db1) ∧
     sync_all upper all_tables tables_to_import (Stores sqlite_db1 pg_db) = (Ok tt, s', sevs) ∧
     close_all (value:=value) (sqlite s') (pg s') = (outcome, closing) ∧
     evs = opening_events path config all_tables ++ (RunSync <$> sevs) ++ closing).
Proof.
  unfold run_sync.
  destruct (sqlite_connect path) as [sqlite_db|e] eqn:Hsqlite.
  2: { intros [= <- <-]. left. by exists e. }
  destruct (pg_connect config) as [pg_db|e] eqn:Hpg.
  2: { destruct (sqlite_conn_close sqlite_db) as [r sqlite_db1].
       intros [= <- <-]. right. left. by exists e, r. }
  destruct (src_list_tables sqlite_db) as [[all_tables|e] sqlite_db1] eqn:Hlist.
  2: { intros [= <- <-]. right. right. left. by exists e. }
  destruct (sync_all_returns upper all_tables tables_to_import (Stores sqlite_db1 pg_db))
    as (s' & sevs & Hsync).
  rewrite Hsync.
  destruct (close_all (sqlite s') (pg s')) as [closed closing] eqn:Hclose.
  intros [= <- <-]. right. right. right.
  exists all_tables, sqlite_db, pg_db, sqlite_db1, s', sevs, closing. split_and!; [done..|].
  unfold opening_events. simpl. by rewrite <- ?app_assoc.
Qed.

(** The runs of [main]. *)
Lemma main_shape env outcome evs :
  main upper strip py_int env = (outcome, evs) →
  ((check_required_env env).1 = false ∧ outcome = Returns tt ∧
   evs = RunPrint <$> (check_required_env env).2) ∨
  ((check_required_env env).1 = true ∧
   ∃ path text,
     env !! "SQLITE_DB_PATH" = Some path ∧ env !! "PGPORT" = Some text ∧
     ((py_int text = None ∧ outcome = Raises (IntValueError text) ∧ evs = []) ∨
      (∃ config,
         get_config strip py_int env
         = Returns (Some path, env !! "LOG_FILE", config, tables_from_env strip env) ∧
         ((path_exists path = false ∧ outcome = Returns tt ∧
           evs = [RunLog (MsgDbNotFound path)]) ∨
          (path_exists path = true ∧
           run_sync upper path config (tables_from_env strip env) = (outcome, evs)))))).
Proof.
  unfold main. destruct (check_required_env env) as [ok printed] eqn:Hcheck.
  destruct ok; simpl.
  2: { intros [= <- <-]. by left. }
  assert ((check_required_env env).1 = true) as Hok by (by rewrite Hcheck).
  destruct (get_config_checked strip py_int env Hok)
    as (path & log_file & text & Hpath & _ & Hlog & _ & Hport & Hcfg).
  intros Hmain. right. split; [done|]. exists path, text. split_and!; [done..|].
  destruct (py_int text) as [port|].
  - right. destruct Hcfg as (config & _ & Hcfg). rewrite Hcfg in Hmain.
    exists config. rewrite Hlog. split; [done|].
    destruct (path_exists path); simpl in Hmain.
    + right. by split.
    + left. by injection Hmain as <- <-.
  - left. rewrite Hcfg in Hmain. by injection Hmain as <- <-.
Qed.

Lemma sync_events_app evs1 evs2 :
  sync_events (evs1 ++ evs2) = sync_events evs1 ++ sync_events evs2.
Proof. unfold sync_events. by rewrite omap_app. Qed.

Lemma sync_events_sync (sevs : list (event value)) : sync_events (RunSync <$> sevs) = sevs.
Proof.
  induction sevs as [|ev sevs IH]; [done|].
  change (sync_events (RunSync <$> ev :: sevs)) with (ev :: sync_events (RunSync <$> sevs)).
  by rewrite IH.
Qed.

Lemma run_sync_only_sync (sevs : list (event value)) (ev : run_event value) :
  ev ∈ RunSync <$> sevs → ∃ ev', ev = RunSync ev'.
Proof. intros (ev' & -> & _)%list_elem_of_fmap. by exists ev'. Qed.

(** X13. [main] stops before opening any connection in three cases. When
    a required variable is unset or empty it only prints the lines of
    [check_required_env] and returns. When [PGPORT] is not an integer it
    raises the [ValueError] of [int] without having logged or printed
    anything. When the source file does not exist it logs that one line and
    returns. *)
Theorem main_stops_early env :
  ((check_required_env env).1 = false →
   main upper strip py_int env = (Returns tt, RunPrint <$> (check_required_env env).2)) ∧
  ((check_required_env env).1 = true →
   ∀ path text,
     env !! "SQLITE_DB_PATH" = Some path → env !! "PGPORT" = Some text →
     (py_int text = None →
      main upper strip py_int env = (Raises (IntValueError text), [])) ∧
     (py_int text ≠ None → path_exists path = false →
      main upper strip py_int env = (Returns tt, [RunLog (MsgDbNotFound path)]))).
Proof.
  destruct (main upper strip py_int env) as [outcome evs] eqn:Hmain.
  apply main_shape in Hmain
    as [(Hcheck & -> & ->)|(Hcheck & path & text & Hpath & Hport & Hcases)].
  - split; [done|]. intros Hok. congruence.
  - split; [intros Hno; congruence|]. intros _ path' text' Hpath' Hport'.
    assert (path' = path) as -> by congruence.
    assert (text' = text) as -> by congruence.
    destruct Hcases as [(Hint & -> & ->)|(config & Hcfg & Hcases)].
    + split; [done|]. intros Hint'. congruence.
    + assert (py_int text ≠ None) as Hint.
      { intros Hint. unfold get_config in Hcfg. by rewrite Hport, Hint in Hcfg. }
      split; [intros Hnone; congruence|]. intros _ Hmissing.
      destruct Hcases as [(_ & -> & ->)|(Hexists & _)]; [done|congruence].
Qed.

Lemma close_all_no_sync (sqlite_db : S) (pg_db : D) closed
    (closing : list (run_event value)) :
  close_all sqlite_db pg_db = (closed, closing) →
  sync_events closing = [] ∧ (∀ r, RunListTables r ∉ closing) ∧
  (RunLog MsgComplete ∈ closing → closed = Returns tt ∧ closing = closing_events).
Proof.
  intros [(-> & ->)|(e & -> & [-> | [-> | ->]])]%close_all_shape;
    (split_and!; [done| |]); try done;
    first [intros r Hin|intros Hin]; unfold closing_events in Hin;
    rewrite ?elem_of_cons, ?elem_of_nil in Hin; intuition discriminate.
Qed.

(** A run of [main] that obtained the list of tables. *)
Lemma main_listed env outcome evs all_tables :
  main upper strip py_int env = (outcome, evs) →
  RunListTables (Ok all_tables) ∈ evs →
  ∃ path config sqlite_db pg_db sqlite_db1 s' sevs closing,
    get_config strip py_int env
    = Returns (Some path, env !! "LOG_FILE", config, tables_from_env strip env) ∧
    sqlite_connect path = Ok sqlite_db ∧ pg_connect config = Ok pg_db ∧
    src_list_tables sqlite_db = (Ok all_tables, sqlite_db1) ∧
    sync_all upper all_tables (tables_from_env strip env) (Stores sqlite_db1 pg_db)
    = (Ok tt, s', sevs) ∧
    close_all (value:=value) (sqlite s') (pg s') = (outcome, closing) ∧
    evs = opening_events path config all_tables ++ (RunSync <$> sevs) ++ closing.
Proof.
  intros Hmain Hin.
  apply main_shape in Hmain
    as [(_ & _ & ->)|(_ & path & text & Hpath & Hport & Hcases)].
  { apply list_elem_of_fmap in Hin as (? & ? & _). discriminate. }
  destruct Hcases as [(_ & _ & ->)|(config & Hcfg & Hcases)].
  { by apply elem_of_nil in Hin. }
  destruct Hcases as [(_ & _ & ->)|(Hexists & Hrun)].
  { rewrite list_elem_of_singleton in Hin. discriminate. }
  apply run_sync_shape in Hrun as [(e & _ & ->)|[(e & r & _ & ->)|[(e & _ & ->)|Hrun]]].
  1-3: rewrite !elem_of_cons, elem_of_nil in Hin; intuition discriminate.
  destruct Hrun as (all_tables' & sqlite_db & pg_db & sqlite_db1 & s' & sevs & closing
                    & Hsq & Hpg & Hlist & Hsync & Hclose & ->).
  assert (all_tables' = all_tables) as ->.
  { rewrite !elem_of_app in Hin. destruct Hin as [Hin|[Hin|Hin]].
    - unfold opening_events in Hin. rewrite !elem_of_cons, elem_of_nil in Hin.
      destruct Hin as [?|[?|[?|[Heq|[]]]]]; try discriminate. by injection Heq.
    - apply run_sync_only_sync in Hin as [? ?]. discriminate.
    - apply close_all_no_sync in Hclose as (_ & Hno & _). by apply Hno in Hin. }
  by exists path, config, sqlite_db, pg_db, sqlite_db1, s', sevs, closing.
Qed.



(** X16. In a run of [main] that obtained the list of tables, the events
    of the sync passes are exactly those of the loop over the listed
    tables, in the listed order, with the inclusion set read from
    [TABLES_TO_IMPORT], on the source opened at [SQLITE_DB_PATH] and the
    destination opened with the configuration of [get_config]. *)
Theorem main_sync_phase env outcome evs all_tables :
  main upper strip py_int env = (outcome, evs) →
  RunListTables (Ok all_tables) ∈ evs →
  ∃ path config sqlite_db pg_db sqlite_db1 s',
    get_config strip py_int env
    = Returns (Some path, env !! "LOG_FILE", config, tables_from_env strip env) ∧
    sqlite_connect path = Ok sqlite_db ∧ pg_connect config = Ok pg_db ∧
    src_list_tables sqlite_db = (Ok all_tables, sqlite_db1) ∧
    sync_all upper all_tables (tables_from_env strip env) (Stores sqlite_db1 pg_db)
    = (Ok tt, s', sync_events evs).
Proof.
  intros Hmain Hlisted.
  destruct (main_listed _ _ _ _ Hmain Hlisted)
    as (path & config & sqlite_db & pg_db & sqlite_db1 & s' & sevs & closing
        & Hcfg & Hsq & Hpg & Hlist & Hsync & Hclose & ->).
  exists path, config, sqlite_db, pg_db, sqlite_db1, s'. split_and!; [done..|].
  apply close_all_no_sync in Hclose as (Hnone & _).
  rewrite !sync_events_app, sync_events_sync, Hnone, app_nil_r. done.
Qed.

(** X17. When none of the listed tables is in the inclusion set, as when
    [TABLES_TO_IMPORT] holds only commas and blanks, a run of [main] still
    opens both connections but its sync passes are one skip line per listed
    table and nothing else. *)
Theorem main_nothing_selected env outcome evs all_tables :
  main upper strip py_int env = (outcome, evs) →
  RunListTables (Ok all_tables) ∈ evs →
  Forall (λ table, table ∉ tables_from_env strip env) all_tables →
  sync_events evs = (λ table, EvLog (MsgSkipping table)) <$> all_tables.
Proof.
  intros Hmain Hlisted Hnone.
  destruct (main_listed _ _ _ _ Hmain Hlisted)
    as (path & config & sqlite_db & pg_db & sqlite_db1 & s' & sevs & closing
        & _ & _ & _ & _ & Hsync & Hclose & ->).
  rewrite (sync_all_skips upper) in Hsync by done. injection Hsync as _ <-.
  apply close_all_no_sync in Hclose as (Hnosync & _).
  rewrite !sync_events_app, sync_events_sync, Hnosync, app_nil_r. done.
Qed.

(** X19. When the query that lists the tables of the source fails,
    its exception leaves [main]: both connections are open and neither is
    closed, no table is synced and nothing is logged after the start
    line. *)
Theorem main_list_tables_failure env outcome evs e :
  main upper strip py_int env = (outcome, evs) →
  RunListTables (Raise e) ∈ evs →
  outcome = Raises (CallError e) ∧
  (∃ path config,
     evs = [RunLog MsgStarting; RunSqliteConnect path (Ok tt);
            RunPgConnect config (Ok tt); RunListTables (Raise e)]) ∧
  filter (λ ev, is_close_event ev) evs = [] ∧ sync_events evs = [].
Proof.
  intros Hmain Hin.
  apply main_shape in Hmain
    as [(_ & _ & ->)|(_ & path & text & Hpath & Hport & Hcases)].
  { apply list_elem_of_fmap in Hin as (? & ? & _). discriminate. }
  destruct Hcases as [(_ & _ & ->)|(config & Hcfg & Hcases)].
  { by apply elem_of_nil in Hin. }
  destruct Hcases as [(_ & _ & ->)|(Hexists & Hrun)].
  { rewrite list_elem_of_singleton in Hin. discriminate. }
  apply run_sync_shape in Hrun as [(e' & _ & ->)|[(e' & r & _ & ->)|[(e' & -> & ->)|Hrun]]].
  - rewrite !elem_of_cons, elem_of_nil in Hin. intuition discriminate.
  - rewrite !elem_of_cons, elem_of_nil in Hin. intuition discriminate.
  - rewrite !elem_of_cons, elem_of_nil in Hin.
    destruct Hin as [?|[?|[?|[Heq|[]]]]]; try discriminate.
    injection Heq as ->. split_and!; [done| |done..]. by exists path, config.
  - destruct Hrun as (all_tables & ? & ? & ? & s' & sevs & closing
                      & _ & _ & _ & _ & Hclose & ->).
    exfalso. rewrite !elem_of_app in Hin. destruct Hin as [Hin|[Hin|Hin]].
    + unfold opening_events in Hin. rewrite !elem_of_cons, elem_of_nil in Hin.
      intuition discriminate.
    + apply run_sync_only_sync in Hin as [? ?]. discriminate.
    + apply close_all_no_sync in Hclose as (_ & Hno & _). by apply Hno in Hin.
Qed.

End MainProperties.

(** ** Runs of [main] on the concrete platforms *)

Lemma main_stops_early_witness :
  main (value:=Z) (S:=demo_sqlite) (D:=demo_pg) ascii_upper ascii_strip demo_int
    (delete "PGUSER" demo_env)
  = (Returns tt,
     RunPrint <$> ["Missing required environment variables:"; "  - PGUSER";
                   "Set them in your .env or environment and try again."]) ∧
  main (value:=Z) (S:=demo_sqlite) (D:=demo_pg) ascii_upper ascii_strip demo_int
    (<["PGPORT" := "5432/tcp"]> demo_env)
  = (Raises (IntValueError "5432/tcp"), []) ∧
  main (value:=Z) (S:=demo_sqlite) (D:=demo_pg) ascii_upper ascii_strip demo_int
    (<["SQLITE_DB_PATH" := "/missing.db"]> demo_env)
  = (Returns tt, [RunLog (MsgDbNotFound "/missing.db")]).
Proof.
  split_and!.
  - destruct (main_stops_early (value:=Z) (S:=demo_sqlite) (D:=demo_pg) ascii_upper
                ascii_strip demo_int (delete "PGUSER" demo_env)) as [Hmissing _].
    by apply Hmissing.
  - destruct (main_stops_early (value:=Z) (S:=demo_sqlite) (D:=demo_pg) ascii_upper
                ascii_strip demo_int (<["PGPORT" := "5432/tcp"]> demo_env)) as [_ Hset].
    by apply (Hset eq_refl "/data/health.db" "5432/tcp").
  - destruct (main_stops_early (value:=Z) (S:=demo_sqlite) (D:=demo_pg) ascii_upper
                ascii_strip demo_int (<["SQLITE_DB_PATH" := "/missing.db"]> demo_env))
      as [_ Hset].
    by apply (Hset eq_refl "/missing.db" "5432").
Defined.


Lemma main_sync_phase_witness :
  ∃ s',
    sync_all ascii_upper ["steps_record_table"; "weight_record_table"]
      (tables_from_env ascii_strip demo_env) (Stores short_row_db empty_pg)
    = (Ok tt, s',
       sync_events (main (value:=Z) (S:=demo_sqlite) (D:=demo_pg) ascii_upper
                      ascii_strip demo_int demo_env).2).
Proof.
  destruct (main_sync_phase (value:=Z) (S:=demo_sqlite) (D:=demo_pg) ascii_upper
              ascii_strip demo_int demo_env (Returns tt)
              (main (value:=Z) (S:=demo_sqlite) (D:=demo_pg) ascii_upper ascii_strip
                 demo_int demo_env).2
              ["steps_record_table"; "weight_record_table"])
    as (path & config & sqlite_db & pg_db & sqlite_db1 & s' & _ & Hsq & Hpg & Hlist & Hsync).
  - reflexivity.
  - vm_compute. do 3 apply list_elem_of_further. apply list_elem_of_here.
  - injection Hsq as <-. injection Hlist as <-.
    assert (pg_db = empty_pg) as ->.
    { simpl in Hpg. destruct (bool_decide (cfg_port config = 5432%Z)); congruence. }
    by exists s'.
Defined.

Lemma main_nothing_selected_witness :
  sync_events (main (value:=Z) (S:=demo_sqlite) (D:=demo_pg) ascii_upper ascii_strip
                 demo_int (<["TABLES_TO_IMPORT" := " , "]> demo_env)).2
  = [EvLog (MsgSkipping "steps_record_table"); EvLog (MsgSkipping "weight_record_table")].
Proof.
  apply (main_nothing_selected (value:=Z) (S:=demo_sqlite) (D:=demo_pg) ascii_upper
           ascii_strip demo_int (<["TABLES_TO_IMPORT" := " , "]> demo_env) (Returns tt)
           _ ["steps_record_table"; "weight_record_table"]).
  - reflexivity.
  - vm_compute. do 3 apply list_elem_of_further. apply list_elem_of_here.
  - repeat constructor; compute_done.
Defined.

Lemma main_list_tables_failure_witness :
  let evs := (main (value:=Z) (S:=demo_sqlite) (D:=demo_pg) (Platform0:=locked_platform)
                ascii_upper ascii_strip demo_int demo_env).2 in
  filter (λ ev, is_close_event ev) evs = [] ∧ sync_events evs = [].
Proof.
  intros evs.
  destruct (main_list_tables_failure (value:=Z) (S:=demo_sqlite) (D:=demo_pg)
              (Platform0:=locked_platform) ascii_upper ascii_strip demo_int demo_env
              (Raises (CallError (StoreError "database is locked"))) evs
              (StoreError "database is locked"))
    as (_ & _ & Hclose & Hsync).
  - reflexivity.
  - vm_compute. do 3 apply list_elem_of_further. apply list_elem_of_here.
  - by split.
Defined.

(** * The program when [log] and [print] raise *)

(** Unfolding of the monad of the fallible program. *)
Ltac io_unfold :=
  unfold mbind, mret, Fallible.IO_bind, Fallible.IO_ret, Fallible.bind, Fallible.ret,
    Fallible.try_except, Fallible.lift, Fallible.call, Fallible.log,
    M_bind, M_ret, bind, ret, sqlite_table_info, sqlite_select_all,
    pg_cursor_execute, pg_conn_commit, pg_select_keys, pg_cursor_executemany,
    pg_conn_rollback in *.

(** The last event of an explicit list. *)
Ltac io_last :=
  unfold ends_with;
  first [ by eexists [], _ | by eexists [_], _ | by eexists [_; _], _
        | by eexists [_; _; _], _ | by eexists [_; _; _; _], _
        | by eexists [_; _; _; _; _], _ ].

Lemma ends_with_app {A} (P : A → Prop) (evs1 evs2 : list A) :
  ends_with P evs2 → ends_with P (evs1 ++ evs2).
Proof.
  intros (before & ev & -> & Hev). exists (evs1 ++ before), ev.
  by rewrite app_assoc.
Qed.

Section FallibleSync.
Context {value : Type} `{Countable value}.
Context {S D L : Type} `{!SourceStore value S} `{!DestStore value D}.
Context `{!LogSink value L}.
Variable upper : string → string.
Implicit Types (w : Fallible.world S D L) (evs : list (io_event value)).
Implicit Types (table : string) (tables_to_import : gset string).
Implicit Types (rows new_rows valid_rows : list (list value)).

Lemma io_bind_inv {A B} (m : Fallible.IO value S D L A)
    (k : A → Fallible.IO value S D L B) w r w' evs :
  (m ≫= k) w = (r, w', evs) →
  (∃ e, m w = (Raise e, w', evs) ∧ r = Raise e) ∨
  (∃ a w1 evs1 evs2,
     m w = (Ok a, w1, evs1) ∧ k a w1 = (r, w', evs2) ∧ evs = evs1 ++ evs2).
Proof.
  unfold mbind, Fallible.IO_bind, Fallible.bind.
  destruct (m w) as [[[a|e] w1] evs1].
  - destruct (k a w1) as [[r2 w2] evs2] eqn:Hk. intros [= <- <- <-].
    right. by exists a, w1, evs1, evs2.
  - intros [= <- <- <-]. left. by exists e.
Qed.

Lemma io_log_inv (m : log_msg value) w r w' evs :
  Fallible.log m w = (r, w', evs) →
  (r = Ok tt ∧ evs = [IoCall (EvLog m)]) ∨ (∃ e, r = Raise e ∧ evs = [IoLogRaised m e]).
Proof.
  unfold Fallible.log. destruct (sink_log m (Fallible.w_sink w)) as [[[]|e] l];
    intros [= <- <- <-]; [by left|right; by exists e].
Qed.

(** Lines 115-122 send no insert; their exception is that of the [log] of
    the handler. *)
Lemma ensure_table_cases table w r w' evs :
  Fallible.ensure_table upper table w = (r, w', evs) →
  Forall (λ ev, is_io_insert ev = false) evs ∧
  match r with
  | Ok (Some column_names) =>
      ∃ columns, column_names = column_names_of columns ∧
                 IoCall (EvTableInfo table (Ok columns)) ∈ evs
  | Ok None => True
  | Raise e => ends_with (is_pass_failure e) evs
  end.
Proof.
  unfold Fallible.ensure_table, get_create_table_query. io_unfold.
  simpl. intros Hrun.
  repeat case_match; simplify_eq; simpl;
    (split; [by repeat constructor|]); try done; try io_last.
  eexists. split; [done|]. apply list_elem_of_here.
Qed.

(** Lines 124-129. *)
Lemma fetch_rows_cases table w r w' evs :
  Fallible.fetch_rows table w = (r, w', evs) →
  Forall (λ ev, is_io_insert ev = false) evs ∧
  match r with
  | Ok (Some rows) => IoCall (EvSelectAll table (Ok rows)) ∈ evs
  | Ok None => True
  | Raise e => ends_with (is_pass_failure e) evs
  end.
Proof.
  unfold Fallible.fetch_rows. io_unfold. simpl. intros Hrun.
  repeat case_match; simplify_eq; simpl;
    (split; [by repeat constructor|]); try done; try io_last.
  apply list_elem_of_here.
Qed.

(** Lines 137-147. *)
Lemma fetch_existing_keys_cases table dedup_col w r w' evs :
  Fallible.fetch_existing_keys table dedup_col w = (r, w', evs) →
  Forall (λ ev, is_io_insert ev = false) evs ∧
  ∀ e, r = Raise e → ends_with (is_pass_failure e) evs.
Proof.
  unfold Fallible.fetch_existing_keys. io_unfold. simpl. intros Hrun.
  repeat case_match; simplify_eq; simpl;
    (split; [by repeat constructor|]); intros e' [= <-]; io_last.
Qed.

(** Lines 168-174 raise only through their [log] calls. *)
Lemma validate_loop_raises table column_names i new_rows valid_rows skipped_rows
    w e w' evs :
  Fallible.validate_loop table column_names i new_rows valid_rows skipped_rows w
  = (Raise e, w', evs) →
  ends_with (is_pass_failure e) evs.
Proof.
  revert i valid_rows skipped_rows w evs.
  induction new_rows as [|r rest IH]; intros i valid_rows skipped_rows w evs; simpl.
  { intros Hrun. discriminate Hrun. }
  case_bool_decide; [|by apply IH].
  intros [(e1 & Hlog & [= <-])|(a & w1 & evs1 & evs2 & Hlog & Hrest & ->)]%io_bind_inv.
  { apply io_log_inv in Hlog as [(? & _)|(e2 & [= <-] & ->)]; [done|]. io_last. }
  apply ends_with_app.
  apply io_bind_inv in Hrest
    as [(e1 & Hlog2 & [= <-])|(a2 & w2 & evs3 & evs4 & Hlog2 & Hrest & ->)].
  { apply io_log_inv in Hlog2 as [(? & _)|(e2 & [= <-] & ->)]; [done|]. io_last. }
  apply ends_with_app. by eapply IH.
Qed.

(** Lines 176-187 raise through the rollback or a [log] of the handler, or
    through the [log] of line 187. *)
Lemma insert_valid_rows_raises table column_names valid_rows w e w' evs :
  Fallible.insert_valid_rows table column_names valid_rows w = (Raise e, w', evs) →
  ends_with (is_pass_failure e) evs.
Proof.
  unfold Fallible.insert_valid_rows. io_unfold. simpl. intros Hrun.
  repeat case_match; simplify_eq; simpl; io_last.
Qed.

Lemma insert_new_rows_raises table column_names new_rows w e w' evs :
  Fallible.insert_new_rows table column_names new_rows w = (Raise e, w', evs) →
  ends_with (is_pass_failure e) evs.
Proof.
  unfold Fallible.insert_new_rows. destruct new_rows as [|r0 rest0].
  { intros [(? & _)|(e2 & [= <-] & ->)]%io_log_inv; [done|]. io_last. }
  remember (r0 :: rest0) as new_rows.
  intros [(e1 & Hval & [= <-])|([valid_rows skipped] & w1 & evs1 & evs2 & Hval & Hrest & ->)]
    %io_bind_inv.
  { by eapply validate_loop_raises. }
  apply ends_with_app.
  apply io_bind_inv in Hrest
    as [(e1 & Hins & [= <-])|(a2 & w2 & evs3 & evs4 & Hins & Hrest & ->)].
  { by eapply insert_valid_rows_raises. }
  apply ends_with_app. case_bool_decide; [|discriminate Hrest].
  apply io_log_inv in Hrest as [(? & _)|(e2 & [= <-] & ->)]; [done|]. io_last.
Qed.

(** Lines 149-194 raise the exception of the dedup loop, before any event,
    or end with the call that raised. *)
Lemma sync_rows_raises table column_names dedup_col existing_keys rows w e w' evs :
  Fallible.sync_rows table column_names dedup_col existing_keys rows w
  = (Raise e, w', evs) →
  (partition_rows column_names dedup_col existing_keys rows = Raise e ∧ evs = []) ∨
  ends_with (is_pass_failure e) evs.
Proof.
  unfold Fallible.sync_rows.
  intros [(e1 & Hpart & [= <-])|([new_rows already] & w1 & evs1 & evs2 & Hpart & Hrest & ->)]
    %io_bind_inv.
  { left. unfold Fallible.lift in Hpart. by injection Hpart as -> _ <-. }
  right. apply ends_with_app.
  apply io_bind_inv in Hrest
    as [(e1 & Hins & [= <-])|(a2 & w2 & evs3 & evs4 & Hins & Hrest & ->)].
  { by eapply insert_new_rows_raises. }
  apply ends_with_app.
  apply io_log_inv in Hrest as [(? & _)|(e2 & [= <-] & ->)]; [done|]. io_last.
Qed.

(** X4. The exceptions that leave [sync_table] are the [IndexError] of the
    dedup loop, raised before any insert statement on a table one of whose
    rows has fewer values than the table has columns, the exception of the
    rollback of the insert handler, and the exception of a [log] call that
    no [try] encloses; in the last two cases the call that raised is the
    last event of the pass. A [log] that raises at line 117 or 180 is
    caught by the handler of its [try]. *)
Theorem fallible_sync_table_raises table tables_to_import w e w' evs :
  Fallible.sync_table upper table tables_to_import w = (Raise e, w', evs) →
  (e = IndexError ∧ Forall (λ ev, is_io_insert ev = false) evs ∧
   ∃ columns rows,
     IoCall (EvTableInfo table (Ok columns)) ∈ evs ∧
     IoCall (EvSelectAll table (Ok rows)) ∈ evs ∧
     Exists (λ r, length r < length columns) rows) ∨
  ends_with (is_pass_failure e) evs.
Proof.
  unfold Fallible.sync_table. case_bool_decide.
  { intros [(? & _)|(e2 & [= <-] & ->)]%io_log_inv; [done|]. right. io_last. }
  intros [(e1 & Hens & [= <-])|(created & w1 & evs1 & evs2 & Hens & Hrest & ->)]
    %io_bind_inv.
  { right. by apply ensure_table_cases in Hens as [_ ?]. }
  apply ensure_table_cases in Hens as [Hq1 Hcreated].
  destruct created as [column_names|]; [|discriminate Hrest].
  destruct Hcreated as (columns & -> & Hinfo).
  apply io_bind_inv in Hrest
    as [(e1 & Hfetch & [= <-])|(fetched & w2 & evs3 & evs4 & Hfetch & Hrest & ->)].
  { right. apply ends_with_app. by apply fetch_rows_cases in Hfetch as [_ ?]. }
  apply fetch_rows_cases in Hfetch as [Hq2 Hfetched].
  destruct fetched as [rows|]; [|discriminate Hrest].
  apply io_bind_inv in Hrest
    as [(e1 & Hkeys & [= <-])|(existing_keys & w3 & evs5 & evs6 & Hkeys & Hrest & ->)].
  { right. do 2 apply ends_with_app.
    apply fetch_existing_keys_cases in Hkeys as [_ Hraise]. by apply Hraise. }
  apply fetch_existing_keys_cases in Hkeys as [Hq3 _].
  apply sync_rows_raises in Hrest as [[Hpart ->]|Hend].
  - left. apply partition_rows_raises in Hpart as [-> Hshort].
    split_and!; [done| |].
    + rewrite !Forall_app. by split_and!.
    + exists columns, rows. split_and!.
      * apply elem_of_app. by left.
      * apply elem_of_app. right. apply elem_of_app. by left.
      * eapply Exists_impl; [exact Hshort|]. intros r. unfold column_names_of.
        by rewrite length_fmap.
  - right. by do 3 apply ends_with_app.
Qed.

(** The loop of lines 223-227 raises only through the [log] of its
    handler. *)
Lemma sync_all_raises tables tables_to_import w e w' evs :
  Fallible.sync_all upper tables tables_to_import w = (Raise e, w', evs) →
  ∃ before table e0,
    table ∈ tables ∧ evs = before ++ [IoLogRaised (MsgUnhandled table e0) e].
Proof.
  revert w evs. induction tables as [|table rest IH]; intros w evs; simpl.
  { intros Hrun. discriminate Hrun. }
  intros [(e1 & Htry & [= <-])|(a & w1 & evs1 & evs2 & Htry & Hrest & ->)]%io_bind_inv.
  - unfold Fallible.try_except in Htry.
    destruct (Fallible.sync_table upper table tables_to_import w) as [[[[]|e0] w1] evs1];
      [discriminate Htry|].
    destruct (Fallible.log (MsgUnhandled table e0) w1) as [[r2 w2] evs2] eqn:Hlog.
    injection Htry as -> <- <-.
    apply io_log_inv in Hlog as [(? & _)|(e2 & [= <-] & ->)]; [done|].
    exists evs1, table, e0. split; [apply list_elem_of_here|done].
  - destruct (IH _ _ Hrest) as (before & table' & e0 & Hin & ->).
    exists (evs1 ++ before), table', e0. split; [by apply list_elem_of_further|].
    by rewrite app_assoc.
Qed.

End FallibleSync.

Ltac run_unfold :=
  unfold mbind, mret, Fallible.Run_bind, Fallible.Run_ret, Fallible.run_bind,
    Fallible.run_ret, Fallible.run_raise, Fallible.run_log, Fallible.print,
    Fallible.platform, Fallible.caught in *.

Section FallibleMain.
Context {value : Type} `{Countable value}.
Context {S D L : Type} `{!SourceStore value S} `{!DestStore value D}.
Context `{!LogSink value L} `{!Platform S D}.
Variable upper : string → string.
Variable strip : string → string.
Variable py_int : string → option Z.
Implicit Types (env : gmap string string) (l : L) (evs : list (io_run_event value)).

(** Lines 54-57 raise only through a [print]; they log nothing. *)
Lemma print_lines_cases lines l outcome l' evs :
  Fallible.print_lines (value:=value) lines l = (outcome, l', evs) →
  (IoRun (RunLog MsgComplete) ∉ evs) ∧
  (∀ config r, IoRun (RunPgConnect config r) ∉ evs) ∧
  match outcome with
  | Returns _ => evs = IoRun <$> (RunPrint <$> lines)
  | Raises e =>
      ∃ before line e', e = CallError e' ∧ line ∈ lines ∧
                        evs = before ++ [IoPrintRaised line e']
  end.
Proof.
  revert l evs. induction lines as [|line rest IH]; intros l evs; simpl.
  { intros [= <- <- <-]. split_and!; [apply not_elem_of_nil| |done].
    intros ??. apply not_elem_of_nil. }
  run_unfold. destruct (sink_print line l) as [[[]|e] l1].
  2: { intros [= <- <- <-]. split_and!.
       - rewrite list_elem_of_singleton. discriminate.
       - intros ??. rewrite list_elem_of_singleton. discriminate.
       - exists [], line, e. split_and!; [done|apply list_elem_of_here|done]. }
  destruct (Fallible.print_lines rest l1) as [[outcome1 l2] evs1] eqn:Hrest.
  intros [= <- <- <-]. destruct (IH _ _ Hrest) as (Hno & Hnopg & Hout).
  split_and!.
  - rewrite elem_of_cons. intros [?|?]; [discriminate|done].
  - intros config r. rewrite elem_of_cons. intros [?|Hin]; [discriminate|].
    by apply Hnopg in Hin.
  - destruct outcome1 as [[]|e]; [by rewrite Hout|].
    destruct Hout as (before & line' & e' & -> & Hin & ->).
    exists (IoRun (RunPrint line) :: before), line', e'.
    split_and!; [done|by apply list_elem_of_further|done].
Qed.

(** The runs of lines 229-232. *)
Lemma close_all_cases (sqlite_db : S) (pg_db : D) l outcome l' evs :
  Fallible.close_all (value:=value) sqlite_db pg_db l = (outcome, l', evs) →
  (outcome = Returns tt ∧ evs = IoRun <$> closing_events) ∨
  (∃ e, outcome = Raises (CallError e) ∧
        (evs = [IoRun (RunPgCursorClose (Raise e))] ∨
         evs = [IoRun (RunPgCursorClose (Ok tt)); IoRun (RunPgConnClose (Raise e))] ∨
         evs = [IoRun (RunPgCursorClose (Ok tt)); IoRun (RunPgConnClose (Ok tt));
                IoRun (RunSqliteClose (Raise e))] ∨
         evs = [IoRun (RunPgCursorClose (Ok tt)); IoRun (RunPgConnClose (Ok tt));
                IoRun (RunSqliteClose (Ok tt)); IoRunLogRaised MsgComplete e])).
Proof.
  unfold Fallible.close_all. run_unfold. intros Hrun.
  repeat case_match; simplify_eq; simpl;
    repeat match goal with a : unit |- _ => destruct a end;
    first [by left|right; eexists; by eauto 6].
Qed.

(** The runs of lines 207-232. *)
Lemma run_sync_cases path config tables_to_import l outcome l' evs :
  Fallible.run_sync upper path config tables_to_import l = (outcome, l', evs) →
  (∃ e, outcome = Raises (CallError e) ∧ evs = [IoRunLogRaised MsgStarting e]) ∨
  (∃ e, outcome = Raises (CallError e) ∧
        evs = [IoRun (RunLog MsgStarting); IoRun (RunSqliteConnect path (Raise e))]) ∨
  (∃ e r, outcome = match r with Ok _ => Returns tt | Raise e' => Raises (CallError e') end ∧
          evs = [IoRun (RunLog MsgStarting); IoRun (RunSqliteConnect path (Ok tt));
                 IoRun (RunPgConnect config (Raise e));
                 IoRun (RunLog (MsgPgConnectError e)); IoRun (RunSqliteClose r)]) ∨
  (∃ e e', outcome = Raises (CallError e') ∧
           evs = [IoRun (RunLog MsgStarting); IoRun (RunSqliteConnect path (Ok tt));
                  IoRun (RunPgConnect config (Raise e));
                  IoRunLogRaised (MsgPgConnectError e) e']) ∨
  (∃ e, outcome = Raises (CallError e) ∧
        evs = [IoRun (RunLog MsgStarting); IoRun (RunSqliteConnect path (Ok tt));
               IoRun (RunPgConnect config (Ok tt)); IoRun (RunListTables (Raise e))]) ∨
  (∃ all_tables sqlite_db pg_db sqlite_db1 l1 r w sevs,
     sqlite_connect path = Ok sqlite_db ∧ pg_connect config = Ok pg_db ∧
     src_list_tables sqlite_db = (Ok all_tables, sqlite_db1) ∧
     Fallible.sync_all upper all_tables tables_to_import
       (Fallible.World (Stores sqlite_db1 pg_db) l1) = (r, w, sevs) ∧
     match r with
     | Raise e =>
         outcome = Raises (CallError e) ∧
         evs = io_opening_events path config all_tables ++ (IoSync <$> sevs)
     | Ok _ =>
         ∃ closing,
           Fallible.close_all (value:=value) (sqlite (Fallible.w_stores w))
             (pg (Fallible.w_stores w)) (Fallible.w_sink w) = (outcome, l', closing) ∧
           evs = io_opening_events path config all_tables ++ (IoSync <$> sevs) ++ closing
     end).
Proof.
  unfold Fallible.run_sync. run_unfold.
  destruct (sink_run_log MsgStarting l) as [[[]|e] l1].
  2: { intros [= <- <- <-]. left. by exists e. }
  destruct (sqlite_connect path) as [sqlite_db|e] eqn:Hsqlite; simpl.
  2: { intros [= <- <- <-]. right. left. by exists e. }
  destruct (pg_connect config) as [pg_db|e] eqn:Hpg; simpl.
  2: { destruct (sink_run_log (MsgPgConnectError e) l1) as [[[]|e'] l2].
       2: { intros [= <- <- <-]. do 3 right. left. by exists e, e'. }
       destruct (sqlite_conn_close sqlite_db) as [r sqlite_db1].
       destruct r as [[]|e']; intros [= <- <- <-]; do 2 right; left.
       - by exists e, (Ok tt).
       - by exists e, (Raise e'). }
  destruct (src_list_tables sqlite_db) as [[all_tables|e] sqlite_db1] eqn:Hlist; simpl.
  2: { intros [= <- <- <-]. do 4 right. left. by exists e. }
  unfold Fallible.sync_phase.
  destruct (Fallible.sync_all upper all_tables tables_to_import
              (Fallible.World (Stores sqlite_db1 pg_db) l1)) as [[r w] sevs] eqn:Hsync.
  intros Hrun. do 5 right.
  exists all_tables, sqlite_db, pg_db, sqlite_db1, l1, r, w, sevs.
  split_and!; [done..|].
  destruct r as [[]|e].
  - destruct (Fallible.close_all (sqlite (Fallible.w_stores w))
                (pg (Fallible.w_stores w)) (Fallible.w_sink w))
      as [[closed l2] closing] eqn:Hclose.
    injection Hrun as <- <- <-. exists closing. split; [done|].
    unfold io_opening_events, opening_events. simpl. done.
  - injection Hrun as <- <- <-. split; [done|].
    unfold io_opening_events, opening_events. simpl. done.
Qed.

(** The runs of [main]. *)
Lemma fallible_main_cases env l outcome l' evs :
  Fallible.main upper strip py_int env l = (outcome, l', evs) →
  ((check_required_env env).1 = false ∧
   Fallible.print_lines (value:=value) (check_required_env env).2 l = (outcome, l', evs)) ∨
  ((check_required_env env).1 = true ∧
   ∃ path text,
     env !! "SQLITE_DB_PATH" = Some path ∧ env !! "PGPORT" = Some text ∧
     ((py_int text = None ∧ outcome = Raises (IntValueError text) ∧ evs = []) ∨
      (∃ config,
         get_config strip py_int env
         = Returns (Some path, env !! "LOG_FILE", config, tables_from_env strip env) ∧
         ((path_exists path = false ∧
           Fallible.run_log (value:=value) (MsgDbNotFound path) l = (outcome, l', evs)) ∨
          (path_exists path = true ∧
           Fallible.run_sync upper path config (tables_from_env strip env) l
           = (outcome, l', evs)))))).
Proof.
  unfold Fallible.main. destruct (check_required_env env) as [ok printed] eqn:Hcheck.
  destruct ok; simpl.
  2: { intros Hrun. by left. }
  assert ((check_required_env env).1 = true) as Hok by (by rewrite Hcheck).
  destruct (get_config_checked strip py_int env Hok)
    as (path & log_file & text & Hpath & _ & Hlog & _ & Hport & Hcfg).
  intros Hmain. right. split; [done|]. exists path, text. split_and!; [done..|].
  destruct (py_int text) as [port|].
  - right. destruct Hcfg as (config & _ & Hcfg). rewrite Hcfg in Hmain.
    exists config. rewrite Hlog. split; [done|].
    destruct (path_exists path); simpl in Hmain; [by right|by left].
  - left. rewrite Hcfg in Hmain. by injection Hmain as <- <- <-.
Qed.

Lemma io_sync_not_run (sevs : list (io_event value)) (ev : run_event value) :
  IoRun ev ∉ IoSync <$> sevs.
Proof. intros (? & ? & _)%list_elem_of_fmap. discriminate. Qed.


(** X18. When the connection to the destination fails, [main] asks for no
    list of tables and syncs nothing. It logs the error and, if that [log]
    returns, closes the source connection and returns normally unless the
    [close()] raises; if that [log] raises, its exception leaves [main] and
    the source connection is not closed. *)
Theorem fallible_pg_connect_failure env l outcome l' evs config e :
  Fallible.main upper strip py_int env l = (outcome, l', evs) →
  IoRun (RunPgConnect config (Raise e)) ∈ evs →
  ∃ path,
    get_config strip py_int env
    = Returns (Some path, env !! "LOG_FILE", config, tables_from_env strip env) ∧
    ((∃ r, evs = [IoRun (RunLog MsgStarting); IoRun (RunSqliteConnect path (Ok tt));
                  IoRun (RunPgConnect config (Raise e));
                  IoRun (RunLog (MsgPgConnectError e)); IoRun (RunSqliteClose r)] ∧
           outcome = match r with
                     | Ok _ => Returns tt
                     | Raise e' => Raises (CallError e')
                     end) ∨
     (∃ e', evs = [IoRun (RunLog MsgStarting); IoRun (RunSqliteConnect path (Ok tt));
                   IoRun (RunPgConnect config (Raise e));
                   IoRunLogRaised (MsgPgConnectError e) e'] ∧
            outcome = Raises (CallError e'))).
Proof.
  intros Hmain Hin.
  apply fallible_main_cases in Hmain
    as [(_ & Hprint)|(_ & path & text & _ & Hport & Hcases)].
  { apply print_lines_cases in Hprint as (_ & Hnopg & _). by apply Hnopg in Hin. }
  destruct Hcases as [(_ & _ & ->)|(config' & Hcfg & Hcases)].
  { by apply elem_of_nil in Hin. }
  destruct Hcases as [(_ & Hlog)|(_ & Hrun)].
  { unfold Fallible.run_log in Hlog.
    destruct (sink_run_log (MsgDbNotFound path) l) as [[[]|e'] l1];
      injection Hlog as <- <- <-; rewrite list_elem_of_singleton in Hin; discriminate. }
  apply run_sync_cases in Hrun
    as [(e' & _ & ->)|[(e' & _ & ->)|[(e' & r & -> & ->)
       |[(e' & e'' & -> & ->)|[(e' & _ & ->)|Hrun]]]]].
  - rewrite list_elem_of_singleton in Hin. discriminate.
  - rewrite !elem_of_cons, elem_of_nil in Hin. intuition discriminate.
  - rewrite !elem_of_cons, elem_of_nil in Hin.
    destruct Hin as [?|[?|[Heq|[?|[?|[]]]]]]; try discriminate.
    injection Heq as -> ->. exists path. split; [done|]. left. by exists r.
  - rewrite !elem_of_cons, elem_of_nil in Hin.
    destruct Hin as [?|[?|[Heq|[?|[]]]]]; try discriminate.
    injection Heq as -> ->. exists path. split; [done|]. right. by exists e''.
  - rewrite !elem_of_cons, elem_of_nil in Hin. intuition discriminate.
  - exfalso.
    destruct Hrun as (all_tables & sq & pgdb & sq1 & l1 & r & w & sevs
                      & _ & _ & _ & Hsync & Hrest).
    assert (IoRun (RunPgConnect config (Raise e))
            ∉ io_opening_events path config' all_tables ++ (IoSync <$> sevs)) as Hbefore.
    { rewrite elem_of_app. intros [Hin'|Hin'].
      { unfold io_opening_events, opening_events in Hin'. simpl in Hin'.
        rewrite !elem_of_cons, elem_of_nil in Hin'. intuition discriminate. }
      by apply io_sync_not_run in Hin'. }
    destruct r as [[]|e'].
    + destruct Hrest as (closing & Hclose & ->).
      rewrite app_assoc, elem_of_app in Hin. destruct Hin as [Hin|Hin]; [done|].
      apply close_all_cases in Hclose
        as [(_ & ->)|(e' & _ & [-> | [-> | [-> | ->]]])];
        [unfold closing_events in Hin; simpl in Hin|..];
        rewrite !elem_of_cons, elem_of_nil in Hin; intuition discriminate.
    + destruct Hrest as (_ & ->). done.
Qed.

End FallibleMain.

Section Agreement.
Context {value : Type} `{Countable value}.
Context {S D L : Type} `{!SourceStore value S} `{!DestStore value D}.
Context `{!LogSink value L}.
Variable upper : string → string.
Implicit Types (w : Fallible.world S D L) (evs : list (io_event value)).

Lemma agrees_ret {A} (a : A) :
  agrees (L:=L) (mret a : Fallible.IO value S D L A) (mret a : M value S D A).
Proof. intros w r w' evs [= <- <- <-] _. by exists []. Qed.

Lemma agrees_lift {A} (r : result A) :
  agrees (L:=L) (Fallible.lift r) (lift (value:=value) (S:=S) (D:=D) r).
Proof. intros w r' w' evs [= <- <- <-] _. by exists []. Qed.

Lemma agrees_call {A} (m : M value S D A) : agrees (L:=L) (Fallible.call m) m.
Proof.
  intros w r w' evs Hrun _. unfold Fallible.call in Hrun.
  destruct (m (Fallible.w_stores w)) as [[r0 s] evs0]. injection Hrun as <- <- <-.
  by exists evs0.
Qed.

Lemma agrees_log (m : log_msg value) :
  agrees (L:=L) (Fallible.log m) (log (S:=S) (D:=D) m).
Proof.
  intros w r w' evs Hrun Hq. unfold Fallible.log in Hrun.
  destruct (sink_log m (Fallible.w_sink w)) as [[[]|e] l]; injection Hrun as <- <- <-.
  - by exists [EvLog m].
  - apply Forall_cons in Hq as [? _]. done.
Qed.

Lemma agrees_bind {A B} (mio : Fallible.IO value S D L A) (m : M value S D A)
    (kio : A → Fallible.IO value S D L B) (k : A → M value S D B) :
  agrees mio m → (∀ a, agrees (kio a) (k a)) → agrees (mio ≫= kio) (m ≫= k).
Proof.
  intros Hm Hk w r w' evs Hrun Hq.
  unfold mbind, Fallible.IO_bind, Fallible.bind in Hrun.
  unfold mbind, M_bind, bind.
  destruct (mio w) as [[[a|e] w1] evs1] eqn:Hmio.
  - destruct (kio a w1) as [[r2 w2] evs2] eqn:Hkio. injection Hrun as <- <- <-.
    apply Forall_app in Hq as [Hq1 Hq2].
    destruct (Hm _ _ _ _ Hmio Hq1) as (evs01 & -> & ->).
    destruct (Hk a _ _ _ _ Hkio Hq2) as (evs02 & -> & ->).
    exists (evs01 ++ evs02). by rewrite fmap_app.
  - injection Hrun as <- <- <-.
    destruct (Hm _ _ _ _ Hmio Hq) as (evs01 & -> & ->). by exists evs01.
Qed.

Lemma agrees_try {A} (bio : Fallible.IO value S D L A) (b : M value S D A)
    (hio : exn → Fallible.IO value S D L A) (h : exn → M value S D A) :
  agrees bio b → (∀ e, agrees (hio e) (h e)) →
  agrees (Fallible.try_except bio hio) (try_except b h).
Proof.
  intros Hb Hh w r w' evs Hrun Hq.
  unfold Fallible.try_except in Hrun. unfold try_except.
  destruct (bio w) as [[[a|e] w1] evs1] eqn:Hbio.
  - injection Hrun as <- <- <-.
    destruct (Hb _ _ _ _ Hbio Hq) as (evs01 & -> & ->). by exists evs01.
  - destruct (hio e w1) as [[r2 w2] evs2] eqn:Hhio. injection Hrun as <- <- <-.
    apply Forall_app in Hq as [Hq1 Hq2].
    destruct (Hb _ _ _ _ Hbio Hq1) as (evs01 & -> & ->).
    destruct (Hh e _ _ _ _ Hhio Hq2) as (evs02 & -> & ->).
    exists (evs01 ++ evs02). by rewrite fmap_app.
Qed.

End Agreement.

Ltac agree :=
  repeat first
    [ apply agrees_ret | apply agrees_lift | apply agrees_call | apply agrees_log
    | apply agrees_try | apply agrees_bind
    | intros [] | intros ? ].

Section AgreementProgram.
Context {value : Type} `{Countable value}.
Context {S D L : Type} `{!SourceStore value S} `{!DestStore value D}.
Context `{!LogSink value L}.
Variable upper : string → string.

Lemma ensure_table_agrees table :
  agrees (L:=L) (Fallible.ensure_table upper table) (ensure_table upper table).
Proof. unfold Fallible.ensure_table, ensure_table. agree. Qed.

Lemma fetch_rows_agrees table :
  agrees (L:=L) (Fallible.fetch_rows table) (fetch_rows (D:=D) table).
Proof. unfold Fallible.fetch_rows, fetch_rows. agree. Qed.

Lemma fetch_existing_keys_agrees table dedup_col :
  agrees (L:=L) (Fallible.fetch_existing_keys table dedup_col)
    (fetch_existing_keys (S:=S) table dedup_col).
Proof.
  unfold Fallible.fetch_existing_keys, fetch_existing_keys.
  destruct dedup_col; agree.
Qed.

Lemma validate_loop_agrees table column_names i new_rows valid_rows skipped_rows :
  agrees (L:=L)
    (Fallible.validate_loop table column_names i new_rows valid_rows skipped_rows)
    (validate_loop (S:=S) (D:=D) table column_names i new_rows valid_rows skipped_rows).
Proof.
  revert i valid_rows skipped_rows.
  induction new_rows as [|r rest IH]; intros i valid_rows skipped_rows; simpl.
  - apply agrees_ret.
  - case_bool_decide; [|apply IH].
    apply agrees_bind; [apply agrees_log|intros _].
    apply agrees_bind; [apply agrees_log|intros _]. apply IH.
Qed.

Lemma insert_valid_rows_agrees table column_names valid_rows :
  agrees (L:=L) (Fallible.insert_valid_rows table column_names valid_rows)
    (insert_valid_rows (S:=S) table column_names valid_rows).
Proof.
  unfold Fallible.insert_valid_rows, insert_valid_rows.
  destruct valid_rows; agree.
Qed.

Lemma insert_new_rows_agrees table column_names new_rows :
  agrees (L:=L) (Fallible.insert_new_rows table column_names new_rows)
    (insert_new_rows (S:=S) table column_names new_rows).
Proof.
  unfold Fallible.insert_new_rows, insert_new_rows.
  destruct new_rows as [|r0 rest0]; [apply agrees_log|].
  apply agrees_bind; [apply validate_loop_agrees|intros [valid_rows skipped_rows]].
  apply agrees_bind; [apply insert_valid_rows_agrees|intros _].
  case_bool_decide; [apply agrees_log|apply agrees_ret].
Qed.

Lemma sync_rows_agrees table column_names dedup_col existing_keys rows :
  agrees (L:=L) (Fallible.sync_rows table column_names dedup_col existing_keys rows)
    (sync_rows (S:=S) table column_names dedup_col existing_keys rows).
Proof.
  unfold Fallible.sync_rows, sync_rows.
  apply agrees_bind; [apply agrees_lift|intros [new_rows already_present]].
  apply agrees_bind; [apply insert_new_rows_agrees|intros _]. apply agrees_log.
Qed.

Lemma sync_table_agrees table tables_to_import :
  agrees (L:=L) (Fallible.sync_table upper table tables_to_import)
    (sync_table upper table tables_to_import).
Proof.
  unfold Fallible.sync_table, sync_table.
  case_bool_decide; [apply agrees_log|].
  apply agrees_bind; [apply ensure_table_agrees|intros [column_names|]];
    [|apply agrees_ret].
  apply agrees_bind; [apply fetch_rows_agrees|intros [rows|]]; [|apply agrees_ret].
  apply agrees_bind; [apply fetch_existing_keys_agrees|intros existing_keys].
  apply sync_rows_agrees.
Qed.

Lemma sync_all_agrees tables tables_to_import :
  agrees (L:=L) (Fallible.sync_all upper tables tables_to_import)
    (sync_all upper tables tables_to_import).
Proof.
  induction tables as [|table rest IH]; simpl; [apply agrees_ret|].
  apply agrees_bind; [|intros _; apply IH].
  apply agrees_try; [apply sync_table_agrees|intros e; apply agrees_log].
Qed.

End AgreementProgram.

Lemma fallible_sync_table_raises_witness :
  let evs := (Fallible.sync_table (L:=nat) ascii_upper "weight_record_table"
                DEFAULT_TABLES (Fallible.World (Stores short_row_db empty_pg) 0)).2 in
  (disk_full = IndexError ∧ Forall (λ ev, is_io_insert ev = false) evs ∧
   ∃ columns rows,
     IoCall (EvTableInfo "weight_record_table" (Ok columns)) ∈ evs ∧
     IoCall (EvSelectAll "weight_record_table" (Ok rows)) ∈ evs ∧
     Exists (λ r : list Z, length r < length columns) rows) ∨
  ends_with (is_pass_failure disk_full) evs.
Proof.
  intros evs.
  apply (fallible_sync_table_raises (S:=demo_sqlite) (D:=demo_pg) (L:=nat) ascii_upper
           "weight_record_table" DEFAULT_TABLES
           (Fallible.World (Stores short_row_db empty_pg) 0) disk_full
           (Fallible.World (Stores short_row_db empty_pg) 0) evs).
  reflexivity.
Defined.


Lemma fallible_pg_connect_failure_witness :
  ∃ path e',
    (Fallible.main (value:=Z) (S:=demo_sqlite) (D:=demo_pg) (L:=nat)
       ascii_upper ascii_strip demo_int (<["PGPORT" := "6543"]> demo_env) 1).2
    = [IoRun (RunLog MsgStarting); IoRun (RunSqliteConnect path (Ok tt));
       IoRun (RunPgConnect (PostgresConfig (Some "localhost") 6543 (Some "health")
                              (Some "grafana") (Some "secret"))
                (Raise (StoreError "connection refused")));
       IoRunLogRaised (MsgPgConnectError (StoreError "connection refused")) e'].
Proof.
  destruct (fallible_pg_connect_failure (value:=Z) (S:=demo_sqlite) (D:=demo_pg) (L:=nat)
              ascii_upper ascii_strip demo_int (<["PGPORT" := "6543"]> demo_env) 1
              (Raises (CallError disk_full)) 0
              (Fallible.main (value:=Z) (S:=demo_sqlite) (D:=demo_pg) (L:=nat)
                 ascii_upper ascii_strip demo_int (<["PGPORT" := "6543"]> demo_env) 1).2
              (PostgresConfig (Some "localhost") 6543 (Some "health")
                 (Some "grafana") (Some "secret"))
              (StoreError "connection refused"))
    as (path & _ & [(r & Hevs & _)|(e' & Hevs & _)]).
  - reflexivity.
  - vm_compute. do 2 apply list_elem_of_further. apply list_elem_of_here.
  - exfalso. vm_compute in Hevs. discriminate Hevs.
  - by exists path, e'.
Defined.

Section AgreementMain.
Context {value : Type} `{Countable value}.
Context {S D L : Type} `{!SourceStore value S} `{!DestStore value D}.
Context `{!LogSink value L} `{!Platform S D}.
Variable upper : string → string.
Variable strip : string → string.
Variable py_int : string → option Z.
Implicit Types (env : gmap string string) (l : L) (evs : list (io_run_event value)).

Lemma run_embed_sync (sevs : list (event value)) :
  run_embed <$> (RunSync <$> sevs) = IoSync <$> (IoCall <$> sevs).
Proof. induction sevs as [|ev sevs IH]; [done|]. rewrite !fmap_cons, IH. done. Qed.

Lemma io_sync_returned (sevs : list (io_event value)) :
  Forall (λ ev, run_returned ev = true) (IoSync <$> sevs) →
  Forall (λ ev, log_returned ev = true) sevs.
Proof. rewrite Forall_fmap. intros Hq. eapply Forall_impl; [exact Hq|]. done. Qed.

Lemma close_all_agrees (sqlite_db : S) (pg_db : D) l outcome l' evs :
  Fallible.close_all (value:=value) sqlite_db pg_db l = (outcome, l', evs) →
  Forall (λ ev, run_returned ev = true) evs →
  ∃ run, close_all sqlite_db pg_db = (outcome, run) ∧ evs = run_embed <$> run.
Proof.
  unfold Fallible.close_all, close_all. run_unfold. intros Hrun Hq.
  repeat case_match; simplify_eq; simpl;
    repeat match goal with a : unit |- _ => destruct a end;
    try (by eexists).
  exfalso. simpl in Hq. rewrite !Forall_cons in Hq. by destruct Hq as (_ & _ & _ & ? & _).
Qed.

Lemma run_sync_agrees path config tables_to_import l outcome l' evs :
  Fallible.run_sync upper path config tables_to_import l = (outcome, l', evs) →
  Forall (λ ev, run_returned ev = true) evs →
  ∃ run, run_sync upper path config tables_to_import = (outcome, run) ∧
         evs = run_embed <$> run.
Proof.
  unfold Fallible.run_sync, run_sync. run_unfold.
  destruct (sink_run_log MsgStarting l) as [[[]|e] l1].
  2: { intros [= <- <- <-] [? _]%Forall_cons. done. }
  destruct (sqlite_connect path) as [sqlite_db|e]; simpl.
  2: { intros [= <- <- <-] _. by eexists. }
  destruct (pg_connect config) as [pg_db|e]; simpl.
  2: { destruct (sink_run_log (MsgPgConnectError e) l1) as [[[]|e'] l2].
       2: { intros [= <- <- <-] Hq. exfalso. rewrite !Forall_cons in Hq.
            by destruct Hq as (_ & _ & _ & ? & _). }
       destruct (sqlite_conn_close sqlite_db) as [[[]|e'] sqlite_db1];
         intros [= <- <- <-] _; by eexists. }
  destruct (src_list_tables sqlite_db) as [[all_tables|e] sqlite_db1]; simpl.
  2: { intros [= <- <- <-] _. by eexists. }
  unfold Fallible.sync_phase.
  destruct (Fallible.sync_all upper all_tables tables_to_import
              (Fallible.World (Stores sqlite_db1 pg_db) l1)) as [[r w] sevs] eqn:Hsync.
  destruct r as [[]|e].
  - destruct (Fallible.close_all (sqlite (Fallible.w_stores w))
                (pg (Fallible.w_stores w)) (Fallible.w_sink w))
      as [[closed l2] closing] eqn:Hclose.
    intros [= <- <- <-] Hq.
    simpl in Hq. rewrite !Forall_cons, Forall_app in Hq.
    destruct Hq as (_ & _ & _ & _ & Hq1 & Hq2).
    apply io_sync_returned in Hq1.
    destruct (sync_all_agrees upper all_tables tables_to_import _ _ _ _ Hsync Hq1)
      as (sevs0 & Hsink & ->).
    simpl in Hsink. rewrite Hsink.
    destruct (close_all_agrees _ _ _ _ _ _ Hclose Hq2) as (closing0 & -> & ->).
    eexists. split; [done|].
    simpl. rewrite !fmap_app, run_embed_sync. done.
  - intros [= <- <- <-] Hq. exfalso.
    simpl in Hq. rewrite !Forall_cons in Hq. destruct Hq as (_ & _ & _ & _ & Hq1).
    apply io_sync_returned in Hq1.
    apply sync_all_raises in Hsync as (before & table & e0 & _ & ->).
    apply Forall_app in Hq1 as [_ Hq1]. apply Forall_cons in Hq1 as [? _]. done.
Qed.

(** A run of the fallible [main] in which every [log] and [print] returned
    is the run of [main]: same outcome, same events. *)
Lemma fallible_main_agrees env l outcome l' evs :
  Fallible.main upper strip py_int env l = (outcome, l', evs) →
  Forall (λ ev, run_returned ev = true) evs →
  ∃ run, main upper strip py_int env = (outcome, run) ∧ evs = run_embed <$> run.
Proof.
  intros Hmain Hq. unfold main.
  apply fallible_main_cases in Hmain
    as [(Hcheck & Hprint)|(Hcheck & path & text & Hpath & Hport & Hcases)].
  { destruct (check_required_env env) as [ok printed]. simpl in *. subst ok. simpl.
    apply print_lines_cases in Hprint as (_ & _ & Hout).
    destruct outcome as [[]|e].
    - eexists. split; [done|]. rewrite Hout. clear.
      induction printed as [|line rest IH]; [done|]. rewrite !fmap_cons, IH. done.
    - destruct Hout as (before & line & e' & _ & _ & ->).
      apply Forall_app in Hq as [_ Hq]. apply Forall_cons in Hq as [? _]. done. }
  destruct (check_required_env env) as [ok printed]. simpl in Hcheck. subst ok. simpl.
  destruct Hcases as [(Hint & -> & ->)|(config & Hcfg & Hcases)].
  { unfold get_config. rewrite Hport, Hint. by exists []. }
  rewrite Hcfg.
  destruct Hcases as [(Hexists & Hlog)|(Hexists & Hrun)]; rewrite Hexists; simpl.
  { unfold Fallible.run_log in Hlog.
    destruct (sink_run_log (MsgDbNotFound path) l) as [[[]|e'] l1];
      injection Hlog as <- <- <-; [by eexists|].
    apply Forall_cons in Hq as [? _]. done. }
  by eapply run_sync_agrees.
Qed.

End AgreementMain.
